(** * Session controller of the video quickstart: joinroom.js and the
      media-device selection module.

    The two JavaScript modules are embedded as state-passing programs over
    an explicit world: the module-level variables, the part of the DOM the
    code touches, the listener tables of the event emitters it registers
    on, and the objects handed out by the video SDK.  Handlers may throw;
    effects performed before the throw persist, as they do in JavaScript. *)

From stdpp Require Import base option list strings gmap pretty.

(** ** Objects handed out by the SDK *)

(** [track.kind].  [attachTrack] tests for ['audio'] and ['video'] and
    ignores a data track; audio and video tracks have [attach] and
    [detach] methods, a data track has neither. *)
Inductive Kind := audio | video | data.

(** A Track object: its reference and its immutable [kind]. *)
Record Track := { track_ref : nat; track_kind : Kind }.

(** A Participant object (local or remote): its reference and its
    immutable [identity].  Two records are equal exactly when they denote
    the same object, so [===] on participants is equality of records. *)
Record Participant := { p_ref : nat; p_identity : string }.

(** A RemoteTrackPublication as seen when it is handed to the code: its
    reference and the value of [publication.track] at that moment. *)
Record Publication := { pub_ref : nat; pub_track : option Track }.

(** A RemoteParticipant with the publications in its [tracks] map, in
    iteration order. *)
Record RemoteParticipant :=
  { rp_self : Participant; rp_tracks : list Publication }.

(** A LocalVideoTrackPublication; [track] is always present. *)
Record LocalTrackPublication := { ltp_track : Track }.

Record LocalParticipant :=
  { lp_self : Participant; lp_videoTracks : list LocalTrackPublication }.

(** The fields of a Room the code reads. *)
Record Room := {
  localParticipant : LocalParticipant;
  dominantSpeaker : option Participant;
  participants : list RemoteParticipant
}.

#[global] Instance Kind_eq_dec : EqDecision Kind.
Proof. solve_decision. Defined.
#[global] Instance Track_eq_dec : EqDecision Track.
Proof. solve_decision. Defined.
#[global] Instance Participant_eq_dec : EqDecision Participant.
Proof. solve_decision. Defined.

(** ** The DOM under [$participants] and the active video *)

(** A media element created by [track.attach()]; [v_src] is the track
    whose MediaStream is its [srcObject]. *)
Record MediaEl := { v_id : nat; v_src : nat }.

(** A [<div class="participant" data-identity=...>] created by
    [attachVideoTrack].  [c_owner] is the participant captured by the
    click handler installed on it. *)
Record Container := {
  c_id : nat;
  c_identity : string;
  c_owner : Participant;
  c_active : bool;
  c_pinned : bool;
  c_children : list MediaEl
}.

Inductive Node :=
| AudioNode (el : MediaEl)
| ContainerNode (c : Container).

(** ** Listener tables *)

(** The closures [joinRoom] registers on a Room.  Each is closed over the
    room it is registered on; the teardown closure is also closed over the
    local video track and the [resolve] of join call [j]. *)
Inductive RoomListener :=
| OnParticipantConnected
| OnParticipantDisconnected
| OnDominantSpeakerChanged
| OnceDisconnected (localVideoTrack : Track) (j : nat).

(** The two closures [trackPublished] registers on a publication. *)
Inductive PubListener :=
| OnSubscribed (participant : Participant)
| OnUnsubscribed (participant : Participant).

Inductive RoomEvent :=
| EvParticipantConnected (p : RemoteParticipant)
| EvParticipantDisconnected (p : Participant)
| EvDominantSpeakerChanged
| EvDisconnected.

#[global] Instance RoomListener_eq_dec : EqDecision RoomListener.
Proof. solve_decision. Defined.

(** Calls of [track.attach()] and [track.detach()], in order. *)
Inductive Call := CAttach (t : nat) | CDetach (t : nat).

Inductive Promise := Pending | Fulfilled | Rejected.

(** The exceptions the code can raise: a [TypeError] on a property of
    [null] or [undefined] or on a call of something that is no function,
    and the error jQuery throws on a selector it cannot parse. *)
Inductive JsError := TypeError | SyntaxError.

(** What the code depends on of the browser it runs in, jQuery included.
    The first four fields are what [joinRoom] tests.  The others are how
    the strings that the code builds from an identity are read:

    - [container_selector id] is the meaning of the selector
      [[data-identity="id"]] under [$participants]: [None] when jQuery
      throws a syntax error (as it does when [id] holds a double quote),
      [Some sel] when it selects the containers whose [data-identity]
      attribute satisfies [sel].  For an identity without special
      characters [sel] is equality with [id]; a backslash in [id] is read
      as a CSS escape.
    - [video_selector id] is the same for the selector
      [[data-identity="id"] > video], which selects the video children of
      those containers.
    - [attribute_value s] is the value of an attribute that an HTML
      string gives as [="s"], such as the [data-identity] attribute of
      the element created from [<div class="participant"
      data-identity="id"></div>]: the string with its character
      references decoded, cut at its first double quote.

    The selectors are taken to select among the participant containers
    and their children, and the HTML to denote one [div]. *)
Record Browser := {
  has_onbeforeunload : bool;
  isMobile : bool;
  is_safari : bool;
  has_onpagehide : bool;
  container_selector : string -> option (string -> bool);
  video_selector : string -> option (string -> bool);
  attribute_value : string -> string
}.

(** ** The world *)

Record World := {
  (* module-level variables of joinroom.js *)
  activeParticipant : option Participant;
  isActiveParticipantPinned : bool;
  (* window and DOM *)
  window_room : option nat;
  participants_dom : list Node;
  activeVideo : option (option nat);
  leave_click : list nat;
  beforeunload : list nat;
  pagehide : list nat;
  browser : Browser;
  (* SDK objects *)
  rooms : gmap nat Room;
  room_listeners : list (nat * RoomListener);
  trackPublished_listeners : list Participant;
  publication_listeners : list (nat * PubListener);
  attached : gmap nat (list nat);
  calls : list Call;
  next_el : nat;
  (* promises returned by joinRoom, by call *)
  promises : gmap nat Promise
}.

(** [activeVideo] is [$activeVideo.get(0)]: [None] when the page has no
    such element, [Some s] with [s] its [srcObject] otherwise.
    [leave_click], [beforeunload] and [pagehide] hold one entry per
    registered closure, named by the room it is closed over. *)

Definition set_activeParticipant (v : option Participant) (w : World) : World :=
  {| activeParticipant := v;
     isActiveParticipantPinned := isActiveParticipantPinned w;
     window_room := window_room w; participants_dom := participants_dom w;
     activeVideo := activeVideo w; leave_click := leave_click w;
     beforeunload := beforeunload w; pagehide := pagehide w;
     browser := browser w; rooms := rooms w;
     room_listeners := room_listeners w;
     trackPublished_listeners := trackPublished_listeners w;
     publication_listeners := publication_listeners w;
     attached := attached w; calls := calls w; next_el := next_el w;
     promises := promises w |}.

Definition set_pinned (v : bool) (w : World) : World :=
  {| activeParticipant := activeParticipant w;
     isActiveParticipantPinned := v;
     window_room := window_room w; participants_dom := participants_dom w;
     activeVideo := activeVideo w; leave_click := leave_click w;
     beforeunload := beforeunload w; pagehide := pagehide w;
     browser := browser w; rooms := rooms w;
     room_listeners := room_listeners w;
     trackPublished_listeners := trackPublished_listeners w;
     publication_listeners := publication_listeners w;
     attached := attached w; calls := calls w; next_el := next_el w;
     promises := promises w |}.

Definition set_window_room (v : option nat) (w : World) : World :=
  {| activeParticipant := activeParticipant w;
     isActiveParticipantPinned := isActiveParticipantPinned w;
     window_room := v; participants_dom := participants_dom w;
     activeVideo := activeVideo w; leave_click := leave_click w;
     beforeunload := beforeunload w; pagehide := pagehide w;
     browser := browser w; rooms := rooms w;
     room_listeners := room_listeners w;
     trackPublished_listeners := trackPublished_listeners w;
     publication_listeners := publication_listeners w;
     attached := attached w; calls := calls w; next_el := next_el w;
     promises := promises w |}.

Definition set_dom (v : list Node) (w : World) : World :=
  {| activeParticipant := activeParticipant w;
     isActiveParticipantPinned := isActiveParticipantPinned w;
     window_room := window_room w; participants_dom := v;
     activeVideo := activeVideo w; leave_click := leave_click w;
     beforeunload := beforeunload w; pagehide := pagehide w;
     browser := browser w; rooms := rooms w;
     room_listeners := room_listeners w;
     trackPublished_listeners := trackPublished_listeners w;
     publication_listeners := publication_listeners w;
     attached := attached w; calls := calls w; next_el := next_el w;
     promises := promises w |}.

Definition set_activeVideo (v : option (option nat)) (w : World) : World :=
  {| activeParticipant := activeParticipant w;
     isActiveParticipantPinned := isActiveParticipantPinned w;
     window_room := window_room w; participants_dom := participants_dom w;
     activeVideo := v; leave_click := leave_click w;
     beforeunload := beforeunload w; pagehide := pagehide w;
     browser := browser w; rooms := rooms w;
     room_listeners := room_listeners w;
     trackPublished_listeners := trackPublished_listeners w;
     publication_listeners := publication_listeners w;
     attached := attached w; calls := calls w; next_el := next_el w;
     promises := promises w |}.

Definition set_leave_click (v : list nat) (w : World) : World :=
  {| activeParticipant := activeParticipant w;
     isActiveParticipantPinned := isActiveParticipantPinned w;
     window_room := window_room w; participants_dom := participants_dom w;
     activeVideo := activeVideo w; leave_click := v;
     beforeunload := beforeunload w; pagehide := pagehide w;
     browser := browser w; rooms := rooms w;
     room_listeners := room_listeners w;
     trackPublished_listeners := trackPublished_listeners w;
     publication_listeners := publication_listeners w;
     attached := attached w; calls := calls w; next_el := next_el w;
     promises := promises w |}.

Definition set_beforeunload (v : list nat) (w : World) : World :=
  {| activeParticipant := activeParticipant w;
     isActiveParticipantPinned := isActiveParticipantPinned w;
     window_room := window_room w; participants_dom := participants_dom w;
     activeVideo := activeVideo w; leave_click := leave_click w;
     beforeunload := v; pagehide := pagehide w;
     browser := browser w; rooms := rooms w;
     room_listeners := room_listeners w;
     trackPublished_listeners := trackPublished_listeners w;
     publication_listeners := publication_listeners w;
     attached := attached w; calls := calls w; next_el := next_el w;
     promises := promises w |}.

Definition set_pagehide (v : list nat) (w : World) : World :=
  {| activeParticipant := activeParticipant w;
     isActiveParticipantPinned := isActiveParticipantPinned w;
     window_room := window_room w; participants_dom := participants_dom w;
     activeVideo := activeVideo w; leave_click := leave_click w;
     beforeunload := beforeunload w; pagehide := v;
     browser := browser w; rooms := rooms w;
     room_listeners := room_listeners w;
     trackPublished_listeners := trackPublished_listeners w;
     publication_listeners := publication_listeners w;
     attached := attached w; calls := calls w; next_el := next_el w;
     promises := promises w |}.

Definition set_rooms (v : gmap nat Room) (w : World) : World :=
  {| activeParticipant := activeParticipant w;
     isActiveParticipantPinned := isActiveParticipantPinned w;
     window_room := window_room w; participants_dom := participants_dom w;
     activeVideo := activeVideo w; leave_click := leave_click w;
     beforeunload := beforeunload w; pagehide := pagehide w;
     browser := browser w; rooms := v;
     room_listeners := room_listeners w;
     trackPublished_listeners := trackPublished_listeners w;
     publication_listeners := publication_listeners w;
     attached := attached w; calls := calls w; next_el := next_el w;
     promises := promises w |}.

Definition set_room_listeners (v : list (nat * RoomListener)) (w : World) : World :=
  {| activeParticipant := activeParticipant w;
     isActiveParticipantPinned := isActiveParticipantPinned w;
     window_room := window_room w; participants_dom := participants_dom w;
     activeVideo := activeVideo w; leave_click := leave_click w;
     beforeunload := beforeunload w; pagehide := pagehide w;
     browser := browser w; rooms := rooms w;
     room_listeners := v;
     trackPublished_listeners := trackPublished_listeners w;
     publication_listeners := publication_listeners w;
     attached := attached w; calls := calls w; next_el := next_el w;
     promises := promises w |}.

Definition set_trackPublished_listeners (v : list Participant) (w : World) : World :=
  {| activeParticipant := activeParticipant w;
     isActiveParticipantPinned := isActiveParticipantPinned w;
     window_room := window_room w; participants_dom := participants_dom w;
     activeVideo := activeVideo w; leave_click := leave_click w;
     beforeunload := beforeunload w; pagehide := pagehide w;
     browser := browser w; rooms := rooms w;
     room_listeners := room_listeners w;
     trackPublished_listeners := v;
     publication_listeners := publication_listeners w;
     attached := attached w; calls := calls w; next_el := next_el w;
     promises := promises w |}.

Definition set_publication_listeners (v : list (nat * PubListener)) (w : World) : World :=
  {| activeParticipant := activeParticipant w;
     isActiveParticipantPinned := isActiveParticipantPinned w;
     window_room := window_room w; participants_dom := participants_dom w;
     activeVideo := activeVideo w; leave_click := leave_click w;
     beforeunload := beforeunload w; pagehide := pagehide w;
     browser := browser w; rooms := rooms w;
     room_listeners := room_listeners w;
     trackPublished_listeners := trackPublished_listeners w;
     publication_listeners := v;
     attached := attached w; calls := calls w; next_el := next_el w;
     promises := promises w |}.

(** The state of the track objects: which elements each is attached to,
    the log of attach and detach calls, and the next fresh element. *)
Definition set_tracks (a : gmap nat (list nat)) (c : list Call) (n : nat)
    (w : World) : World :=
  {| activeParticipant := activeParticipant w;
     isActiveParticipantPinned := isActiveParticipantPinned w;
     window_room := window_room w; participants_dom := participants_dom w;
     activeVideo := activeVideo w; leave_click := leave_click w;
     beforeunload := beforeunload w; pagehide := pagehide w;
     browser := browser w; rooms := rooms w;
     room_listeners := room_listeners w;
     trackPublished_listeners := trackPublished_listeners w;
     publication_listeners := publication_listeners w;
     attached := a; calls := c; next_el := n;
     promises := promises w |}.

Definition set_promises (v : gmap nat Promise) (w : World) : World :=
  {| activeParticipant := activeParticipant w;
     isActiveParticipantPinned := isActiveParticipantPinned w;
     window_room := window_room w; participants_dom := participants_dom w;
     activeVideo := activeVideo w; leave_click := leave_click w;
     beforeunload := beforeunload w; pagehide := pagehide w;
     browser := browser w; rooms := rooms w;
     room_listeners := room_listeners w;
     trackPublished_listeners := trackPublished_listeners w;
     publication_listeners := publication_listeners w;
     attached := attached w; calls := calls w; next_el := next_el w;
     promises := v |}.

(** ** Computations that may throw *)

Inductive Completion (A : Type) :=
| Normal (a : A)
| Throw (e : JsError).
Arguments Normal {A} a.
Arguments Throw {A} e.

Definition M (A : Type) : Type := World -> Completion A * World.

Definition ret {A} (a : A) : M A := fun w => (Normal a, w).
Definition throw {A} (e : JsError) : M A := fun w => (Throw e, w).
Definition bind {A B} (m : M A) (k : A -> M B) : M B :=
  fun w => match m w with
           | (Normal a, w') => k a w'
           | (Throw e, w') => (Throw e, w')
           end.
Definition get : M World := fun w => (Normal w, w).
Definition modify (f : World -> World) : M unit := fun w => (Normal tt, f w).

Declare Scope js_scope.
Delimit Scope js_scope with js.
Notation "x <- m ;; k" := (bind m (fun x => k))
  (at level 100, m at next level, right associativity) : js_scope.
Notation "m ;;; k" := (bind m (fun _ => k))
  (at level 100, right associativity) : js_scope.
Open Scope js_scope.

(** [xs.forEach(f)]: a throw in [f] ends the iteration. *)
Fixpoint forEach {A} (f : A -> M unit) (xs : list A) : M unit :=
  match xs with
  | [] => ret tt
  | x :: xs' => f x ;;; forEach f xs'
  end.

(** Running a handler at top level: the world it leaves behind. *)
Definition exec {A} (m : M A) (w : World) : World := snd (m w).
Definition outcome {A} (m : M A) (w : World) : Completion A := fst (m w).

(** ** jQuery selections over [$participants] *)

(** Whether a container is selected by a [data-identity] selector whose
    meaning is [sel]: only the participant containers carry the
    attribute. *)
Definition has_identity (sel : string -> bool) (c : Container) : bool :=
  sel (c_identity c).

Definition on_matching (sel : string -> bool) (f : Container -> Container) (n : Node) : Node :=
  match n with
  | ContainerNode c => if has_identity sel c then ContainerNode (f c) else n
  | AudioNode _ => n
  end.

Definition with_active (b : bool) (c : Container) : Container :=
  {| c_id := c_id c; c_identity := c_identity c; c_owner := c_owner c;
     c_active := b; c_pinned := c_pinned c; c_children := c_children c |}.

Definition with_pinned (b : bool) (c : Container) : Container :=
  {| c_id := c_id c; c_identity := c_identity c; c_owner := c_owner c;
     c_active := c_active c; c_pinned := b; c_children := c_children c |}.

Definition with_children (l : list MediaEl) (c : Container) : Container :=
  {| c_id := c_id c; c_identity := c_identity c; c_owner := c_owner c;
     c_active := c_active c; c_pinned := c_pinned c; c_children := l |}.

(** The video children of the selected containers, in document order. *)
Definition videos_of (sel : string -> bool) (dom : list Node) : list MediaEl :=
  flat_map (fun n => match n with
                     | ContainerNode c => if has_identity sel c then c_children c else []
                     | AudioNode _ => []
                     end) dom.

(** [mediaElement.remove()] *)
Definition remove_media (e : nat) (dom : list Node) : list Node :=
  flat_map (fun n => match n with
                     | AudioNode el => if bool_decide (v_id el = e) then [] else [n]
                     | ContainerNode c =>
                         [ContainerNode
                            (with_children
                               (List.filter (fun el => negb (bool_decide (v_id el = e)))
                                            (c_children c)) c)]
                     end) dom.

(** [.remove()] on the selected containers. *)
Definition remove_containers (sel : string -> bool) (dom : list Node) : list Node :=
  List.filter (fun n => match n with
                        | ContainerNode c => negb (has_identity sel c)
                        | AudioNode _ => true
                        end) dom.

Definition append_child (c : nat) (el : MediaEl) (n : Node) : Node :=
  match n with
  | ContainerNode k =>
      if bool_decide (c_id k = c)
      then ContainerNode (with_children (c_children k ++ [el]) k) else n
  | AudioNode _ => n
  end.

(** ** The SDK's track primitives *)

Definition attached_to (t : nat) (w : World) : list nat :=
  default [] (attached w !! t).

(** A fresh DOM element. *)
Definition fresh : M nat :=
  fun w => (Normal (next_el w), set_tracks (attached w) (calls w) (S (next_el w)) w).

(** [track.attach()]: creates a media element playing the track and
    remembers it on the track. *)
Definition track_attach (t : Track) : M MediaEl :=
  fun w =>
    let e := next_el w in
    (Normal {| v_id := e; v_src := track_ref t |},
     set_tracks (<[track_ref t := attached_to (track_ref t) w ++ [e]]> (attached w))
                (calls w ++ [CAttach (track_ref t)]) (S e) w).

(** [track.detach()]: releases every element the track is attached to
    and returns them.  A data track has no [detach] method: the call is
    a [TypeError] and nothing is detached. *)
Definition track_detach (t : Track) : M (list nat) :=
  fun w =>
    match track_kind t with
    | data => (Throw TypeError, w)
    | _ =>
        (Normal (attached_to (track_ref t) w),
         set_tracks (<[track_ref t := []]> (attached w))
                    (calls w ++ [CDetach (track_ref t)]) (next_el w) w)
    end.

(** [$(`[data-identity="${identity}"]`, $participants)] and
    [$(`[data-identity="${identity}"] > video`, $participants)]: the
    meaning of the selector, or the syntax error jQuery throws. *)
Definition select (identity : string) : M (string -> bool) :=
  w <- get;;
  match container_selector (browser w) identity with
  | Some sel => ret sel
  | None => throw SyntaxError
  end.

Definition select_video (identity : string) : M (string -> bool) :=
  w <- get;;
  match video_selector (browser w) identity with
  | Some sel => ret sel
  | None => throw SyntaxError
  end.

(** ** joinroom.js *)

(** [setActiveParticipant(participant)].  The selector on the identity
    of the current active participant is evaluated before the assignment
    to [activeParticipant], the two on the identity of [participant]
    after it. *)
Definition setActiveParticipant (participant : Participant) : M unit :=
  w <- get;;
  match activeParticipant w with
  | Some ap =>
      sel <- select (p_identity ap);;
      modify (fun w => set_dom (map (on_matching sel
                                       (fun c => with_pinned false (with_active false c)))
                                    (participants_dom w)) w)
  | None => ret tt
  end;;;
  modify (set_activeParticipant (Some participant));;;
  sel <- select (p_identity participant);;
  modify (fun w => set_dom (map (on_matching sel (with_active true))
                                (participants_dom w)) w);;;
  w <- get;;
  (if isActiveParticipantPinned w
   then modify (fun w => set_dom (map (on_matching sel (with_pinned true))
                                      (participants_dom w)) w)
   else ret tt);;;
  vsel <- select_video (p_identity participant);;
  w <- get;;
  match activeVideo w, head (videos_of vsel (participants_dom w)) with
  | Some _, Some v => modify (set_activeVideo (Some (Some (v_src v))))
  | _, _ => throw TypeError
  end.

(** [setCurrentActiveParticipant(room)].  The argument is [None] when the
    caller passes [null] (the click handler reads [window.room]);
    destructuring it throws. *)
Definition setCurrentActiveParticipant (room : option nat) : M unit :=
  w <- get;;
  match room ≫= (fun r => rooms w !! r) with
  | Some rm =>
      setActiveParticipant
        (default (lp_self (localParticipant rm)) (dominantSpeaker rm))
  | None => throw TypeError
  end.

(** [attachAudioTrack(track)] *)
Definition attachAudioTrack (track : Track) : M unit :=
  audioElement <- track_attach track;;
  modify (fun w => set_dom (participants_dom w ++ [AudioNode audioElement]) w).

(** [attachVideoTrack(track, participant)].  The container is created
    from an HTML string, so its [data-identity] attribute is what the
    HTML parser reads there.  The click handler installed on the
    container is [container_click] below, applied to the container's
    [c_owner].  The [disabled] and [enabled] handlers only change the
    opacity of the element and are left out, as is its width. *)
Definition attachVideoTrack (track : Track) (participant : Participant) : M unit :=
  c <- fresh;;
  modify (fun w => set_dom (participants_dom w ++
            [ContainerNode {| c_id := c;
                              c_identity := attribute_value (browser w) (p_identity participant);
                              c_owner := participant; c_active := false;
                              c_pinned := false; c_children := [] |}]) w);;;
  videoElement <- track_attach track;;
  modify (fun w => set_dom (map (append_child c videoElement) (participants_dom w)) w).

(** The click handler of a participant's container. *)
Definition container_click (participant : Participant) : M unit :=
  w <- get;;
  if bool_decide (activeParticipant w = Some participant) && isActiveParticipantPinned w
  then modify (set_pinned false);;;
       w <- get;;
       setCurrentActiveParticipant (window_room w)
  else modify (set_pinned true);;;
       setActiveParticipant participant.

(** [attachTrack(track, participant)] *)
Definition attachTrack (track : Track) (participant : Participant) : M unit :=
  match track_kind track with
  | audio => attachAudioTrack track
  | video => attachVideoTrack track participant
  | data => ret tt
  end.

(** [detachTrack(track, participant)]: the selector is evaluated after
    [track.detach()] and the removal of the elements. *)
Definition detachTrack (track : Track) (participant : Participant) : M unit :=
  els <- track_detach track;;
  forEach (fun e => modify (fun w => set_dom (remove_media e (participants_dom w)) w)) els;;;
  match track_kind track with
  | video =>
      sel <- select (p_identity participant);;
      modify (fun w => set_dom (remove_containers sel (participants_dom w)) w)
  | _ => ret tt
  end.

(** [trackPublished(publication, participant)] *)
Definition trackPublished (publication : Publication) (participant : Participant) : M unit :=
  match pub_track publication with
  | Some track => attachTrack track participant
  | None => ret tt
  end;;;
  modify (fun w => set_publication_listeners
                     (publication_listeners w ++
                        [(pub_ref publication, OnSubscribed participant)]) w);;;
  modify (fun w => set_publication_listeners
                     (publication_listeners w ++
                        [(pub_ref publication, OnUnsubscribed participant)]) w).

(** [participantConnected(participant)] *)
Definition participantConnected (participant : RemoteParticipant) : M unit :=
  forEach (fun publication => trackPublished publication (rp_self participant))
          (rp_tracks participant);;;
  modify (fun w => set_trackPublished_listeners
                     (trackPublished_listeners w ++ [rp_self participant]) w).

(** ** Event emitters *)

Fixpoint remove_first {A} `{EqDecision A} (x : A) (l : list A) : list A :=
  match l with
  | [] => []
  | y :: l' => if decide (x = y) then l' else y :: remove_first x l'
  end.

Definition register (r : nat) (l : RoomListener) : M unit :=
  modify (fun w => set_room_listeners (room_listeners w ++ [(r, l)]) w).

(** Which event a listener was registered for. *)
Definition listens (l : RoomListener) (ev : RoomEvent) : bool :=
  match l, ev with
  | OnParticipantConnected, EvParticipantConnected _ => true
  | OnParticipantDisconnected, EvParticipantDisconnected _ => true
  | OnDominantSpeakerChanged, EvDominantSpeakerChanged => true
  | OnceDisconnected _ _, EvDisconnected => true
  | _, _ => false
  end.

(** Registered with [once]. *)
Definition is_once (l : RoomListener) : bool :=
  match l with OnceDisconnected _ _ => true | _ => false end.

(** The listeners of room [r] for [ev], as [emit] copies them before it
    calls the first one. *)
Definition listeners_for (r : nat) (ev : RoomEvent) (w : World) : list RoomListener :=
  map snd (List.filter (fun rl => bool_decide (rl.1 = r) && listens rl.2 ev)
                       (room_listeners w)).

(** [resolve()] of the promise returned by join call [j]. *)
Definition resolve (j : nat) : M unit :=
  modify (fun w => match promises w !! j with
                   | Some Pending => set_promises (<[j:=Fulfilled]> (promises w)) w
                   | _ => w
                   end).

(** Reading a field of the room object [r].  Every room reference held by
    a closure was stored when its [connect] was fulfilled. *)
Definition room_get (r : nat) : M Room :=
  w <- get;;
  match rooms w !! r with
  | Some rm => ret rm
  | None => throw TypeError
  end.

(** The [disconnected] handler of [joinRoom]. *)
Definition teardown (r : nat) (localVideoTrack : Track) (j : nat) : M unit :=
  room <- room_get r;;
  detachTrack localVideoTrack (lp_self (localParticipant room));;;
  w <- get;;
  match activeVideo w with
  | Some _ => modify (set_activeVideo (Some None))
  | None => throw TypeError
  end;;;
  modify (set_window_room None);;;
  resolve j.

(** The body of a listener registered on room [r]. *)
Definition room_listener (r : nat) (l : RoomListener) (ev : RoomEvent) : M unit :=
  match l, ev with
  | OnParticipantConnected, EvParticipantConnected p => participantConnected p
  | OnParticipantDisconnected, EvParticipantDisconnected participant =>
      w <- get;;
      if bool_decide (activeParticipant w = Some participant)
         && isActiveParticipantPinned w
      then modify (set_pinned false);;;
           setCurrentActiveParticipant (Some r)
      else ret tt
  | OnDominantSpeakerChanged, EvDominantSpeakerChanged =>
      w <- get;;
      if negb (isActiveParticipantPinned w)
      then setCurrentActiveParticipant (Some r)
      else ret tt
  | OnceDisconnected localVideoTrack j, EvDisconnected => teardown r localVideoTrack j
  | _, _ => ret tt
  end.

(** [room.emit(ev)]: a [once] listener is removed just before it runs; a
    throwing listener ends the emission. *)
Definition room_emit (r : nat) (ev : RoomEvent) : M unit :=
  w <- get;;
  forEach (fun l =>
             (if is_once l
              then modify (fun w => set_room_listeners
                                      (remove_first (r, l) (room_listeners w)) w)
              else ret tt);;;
             room_listener r l ev)
          (listeners_for r ev w).

(** [room.disconnect()], an SDK method: the room emits [disconnected].
    The [unsubscribed] events of the remote tracks are events of their
    own. *)
Definition room_disconnect (r : nat) : M unit := room_emit r EvDisconnected.

(** [publication.emit('subscribed', track)] *)
Definition publication_subscribed (pub : nat) (track : Track) : M unit :=
  w <- get;;
  forEach (fun pl => match pl with
                     | (q, OnSubscribed participant) =>
                         if bool_decide (q = pub) then attachTrack track participant
                         else ret tt
                     | _ => ret tt
                     end)
          (publication_listeners w).

(** [publication.emit('unsubscribed', track)] *)
Definition publication_unsubscribed (pub : nat) (track : Track) : M unit :=
  w <- get;;
  forEach (fun pl => match pl with
                     | (q, OnUnsubscribed participant) =>
                         if bool_decide (q = pub) then detachTrack track participant
                         else ret tt
                     | _ => ret tt
                     end)
          (publication_listeners w).

(** [participant.emit('trackPublished', publication)] *)
Definition participant_trackPublished (p : Participant) (publication : Publication) : M unit :=
  w <- get;;
  forEach (fun q => if bool_decide (q = p) then trackPublished publication q else ret tt)
          (trackPublished_listeners w).

(** The callback [joinRoom] passes to [connect(...).then], applied to the
    room [r] whose fields are [room].  It returns normally with the
    promise of join call [j] still pending.  The [visibilitychange]
    listener only enables and disables the local track and is left out. *)
Definition joinRoom_connected (j r : nat) (room : Room) : M unit :=
  modify (set_window_room (Some r));;;
  match lp_videoTracks (localParticipant room) with
  | [] => throw TypeError
  | publication :: _ =>
      let localVideoTrack := ltp_track publication in
      attachVideoTrack localVideoTrack (lp_self (localParticipant room));;;
      forEach participantConnected (participants room);;;
      register r OnParticipantConnected;;;
      register r OnParticipantDisconnected;;;
      setCurrentActiveParticipant (Some r);;;
      register r OnDominantSpeakerChanged;;;
      modify (fun w => set_leave_click (leave_click w ++ [r]) w);;;
      w <- get;;
      (if has_onbeforeunload (browser w)
       then modify (fun w => set_beforeunload (beforeunload w ++ [r]) w)
       else ret tt);;;
      (if isMobile (browser w) && is_safari (browser w) && has_onpagehide (browser w)
       then modify (fun w => set_pagehide (pagehide w ++ [r]) w)
       else ret tt);;;
      register r (OnceDisconnected localVideoTrack j)
  end.

(** How [connect(token, connectOptions)] settles. *)
Inductive ConnectResult :=
| ConnectFulfilled (r : nat) (room : Room)
| ConnectRejected.

(** [joinRoom(token, connectOptions)], call number [j]: the promise it
    returns is pending from the call on, is rejected when [connect] is or
    when the callback throws, and otherwise follows the promise the
    callback returns, which only [resolve] settles. *)
Definition joinRoom (j : nat) (c : ConnectResult) (w : World) : World :=
  let w0 := set_promises (<[j:=Pending]> (promises w)) w in
  match c with
  | ConnectRejected => set_promises (<[j:=Rejected]> (promises w0)) w0
  | ConnectFulfilled r room =>
      match joinRoom_connected j r room (set_rooms (<[r:=room]> (rooms w0)) w0) with
      | (Normal _, w') => w'
      | (Throw _, w') => set_promises (<[j:=Rejected]> (promises w')) w'
      end
  end.

(** The [onLeave] handler closed over room [r]. *)
Definition onLeave (r : nat) : M unit :=
  modify (fun w => set_leave_click (remove_first r (leave_click w)) w);;;
  room_disconnect r.

(** Listeners of a DOM event target: an exception in one is reported and
    the others still run.  The result is the first exception, if any. *)
Fixpoint dispatch {A} (f : A -> M unit) (xs : list A) : M unit :=
  match xs with
  | [] => ret tt
  | x :: xs' =>
      fun w => match f x w with
               | (c, w') => match dispatch f xs' w' with
                            | (c', w'') => (match c with Throw e => Throw e | Normal _ => c' end, w'')
                            end
               end
  end.

Definition owner_of (c : nat) (dom : list Node) : option Participant :=
  head (flat_map (fun n => match n with
                           | ContainerNode k => if bool_decide (c_id k = c) then [c_owner k] else []
                           | AudioNode _ => []
                           end) dom).

Definition update_room (r : nat) (f : Room -> Room) : M unit :=
  modify (fun w => set_rooms (alter f r (rooms w)) w).

(** ** What can happen to a page running the module *)

Inductive Event :=
| JoinRoom (j : nat) (c : ConnectResult)
| ParticipantConnected (r : nat) (p : RemoteParticipant)
| ParticipantDisconnected (r : nat) (p : Participant)
| DominantSpeakerChanged (r : nat) (d : option Participant)
| TrackPublished (p : Participant) (publication : Publication)
| Subscribed (pub : nat) (t : Track)
| Unsubscribed (pub : nat) (t : Track)
| RoomDisconnected (r : nat)
| Click (c : nat)
| LeaveClick
| BeforeUnload
| PageHide.

(** One event: the SDK updates its objects, then the registered handlers
    run.  The completion tells whether a handler threw. *)
Definition handle (e : Event) : M unit :=
  match e with
  | JoinRoom j c => modify (joinRoom j c)
  | ParticipantConnected r p =>
      update_room r (fun rm => {| localParticipant := localParticipant rm;
                                  dominantSpeaker := dominantSpeaker rm;
                                  participants := participants rm ++ [p] |});;;
      room_emit r (EvParticipantConnected p)
  | ParticipantDisconnected r p =>
      update_room r (fun rm => {| localParticipant := localParticipant rm;
                                  dominantSpeaker := dominantSpeaker rm;
                                  participants :=
                                    List.filter (fun q => negb (bool_decide (rp_self q = p)))
                                                (participants rm) |});;;
      room_emit r (EvParticipantDisconnected p)
  | DominantSpeakerChanged r d =>
      update_room r (fun rm => {| localParticipant := localParticipant rm;
                                  dominantSpeaker := d;
                                  participants := participants rm |});;;
      room_emit r EvDominantSpeakerChanged
  | TrackPublished p publication => participant_trackPublished p publication
  | Subscribed pub t => publication_subscribed pub t
  | Unsubscribed pub t => publication_unsubscribed pub t
  | RoomDisconnected r => room_emit r EvDisconnected
  | Click c =>
      w <- get;;
      match owner_of c (participants_dom w) with
      | Some participant => container_click participant
      | None => ret tt
      end
  | LeaveClick => w <- get;; forEach onLeave (leave_click w)
  | BeforeUnload => w <- get;; dispatch room_disconnect (beforeunload w)
  | PageHide => w <- get;; dispatch room_disconnect (pagehide w)
  end.

Definition step (w : World) (e : Event) : World := exec (handle e) w.

(** A run of the page over a list of events. *)
Definition run (es : list Event) (w : World) : World := fold_left step es w.

(** The page just after the module is loaded. *)
Definition initial (b : Browser) : World :=
  {| activeParticipant := None; isActiveParticipantPinned := false;
     window_room := None; participants_dom := []; activeVideo := Some None;
     leave_click := []; beforeunload := []; pagehide := []; browser := b;
     rooms := ∅; room_listeners := []; trackPublished_listeners := [];
     publication_listeners := []; attached := ∅; calls := []; next_el := 0;
     promises := ∅ |}.

(** ** The media-device selection module *)

Module Devices.

(** A LocalTrack created by [createLocalTracks]: its reference and kind. *)
Record LocalTrack := { lt_ref : nat; lt_kind : string }.

#[global] Instance LocalTrack_eq_dec : EqDecision LocalTrack.
Proof. solve_decision. Defined.

(** The module-level cache [localTracks], the tracks that are capturing
  (created and not stopped), and the streams handed to [render]. *)
Record State := {
localTracks : gmap string (option LocalTrack);
live : list LocalTrack;
rendered : list LocalTrack
}.

(** [const localTracks = { audio: null, video: null }] *)
Definition initial : State :=
{| localTracks := <["audio"%string := None]> (<["video"%string := None]> ∅);
   live := []; rendered := [] |}.

(** [localTracks[kind]], when it is truthy. *)
Definition cached (kind : string) (s : State) : option LocalTrack :=
mjoin (localTracks s !! kind).

(** [track.stop()] *)
Definition stop (t : LocalTrack) (s : State) : State :=
{| localTracks := localTracks s;
   live := List.filter (fun u => negb (bool_decide (u = t))) (live s);
   rendered := rendered s |}.

(** How [createLocalTracks({ [kind]: { deviceId } })] settles: with one
  new track, or rejected. *)
Inductive CreateResult :=
| Created (ref : nat)
| CreateFailed.

(** The SDK's side of a successful [createLocalTracks]: the new track is
  capturing when the promise is fulfilled. *)
Definition createLocalTracks (kind : string) (ref : nat) (s : State) : LocalTrack * State :=
let t := {| lt_ref := ref; lt_kind := kind |} in
(t, {| localTracks := localTracks s; live := t :: live s; rendered := rendered s |}).

(** The callback of [applyInputDevice]. *)
Definition applyInputDevice_then (kind : string) (track : LocalTrack) (s : State) : State :=
let s1 := match cached kind s with
          | Some previous => stop previous s
          | None => s
          end in
{| localTracks := <[kind := Some track]> (localTracks s1);
   live := live s1;
   rendered := rendered s1 ++ [track] |}.

(** [applyInputDevice(kind, deviceId, render)] together with the way its
  [createLocalTracks] settles; the result is the state of the returned
  promise. *)
Definition applyInputDevice (kind deviceId : string) (c : CreateResult) (s : State)
  : Promise * State :=
match c with
| CreateFailed => (Rejected, s)
| Created ref =>
    let '(track, s') := createLocalTracks kind ref s in
    (Fulfilled, applyInputDevice_then kind track s')
end.

(** The [hidden.bs.modal] handler of [selectMedia]. *)
Definition onHide (kind : string) (s : State) : State :=
match cached kind s with
| Some t =>
    let s1 := stop t s in
    {| localTracks := <[kind := None]> (localTracks s1);
       live := live s1; rendered := rendered s1 |}
| None => s
end.

(** The device-selection flow as seen from outside: capture requests
  settling and modals closing, in any order. *)
Inductive Event :=
| Apply (kind deviceId : string) (c : CreateResult)
| Hide (kind : string).

Definition step (s : State) (e : Event) : State :=
match e with
| Apply kind deviceId c => (applyInputDevice kind deviceId c s).2
| Hide kind => onHide kind s
end.

Definition run (es : list Event) (s : State) : State := fold_left step es s.

(** Every capturing track is the cached track of its kind. *)
Definition only_cached_live (s : State) : Prop :=
forall t, In t (live s) -> cached (lt_kind t) s = Some t.

End Devices.

(** ** Notions used to state the properties *)

(** [inv I m]: running [m] from a world in [I] ends in a world in [I],
    whether [m] returns or throws. *)
Definition inv {A} (I : World -> Prop) (m : M A) : Prop :=
  forall w, I w -> I (m w).2.

(** The module variables: the active participant and the pin. *)
Definition selection (w : World) : option Participant * bool :=
  (activeParticipant w, isActiveParticipantPinned w).

(** Events that neither click a container, nor start a session, nor
    report that participant [A] left.  Every [dominantSpeakerChanged]
    signal is among them. *)
Definition quiet (A : Participant) (e : Event) : bool :=
  match e with
  | Click _ => false
  | JoinRoom _ (ConnectFulfilled _ _) => false
  | ParticipantDisconnected _ p => negb (bool_decide (p = A))
  | _ => true
  end.

(** [m] never throws. *)
Definition nothrow {A} (m : M A) : Prop :=
  forall w, exists a, (m w).1 = Normal a.

(** [w'] differs from [w] at most in the media: the DOM under
    [$participants], the state of the tracks, and the listeners on
    publications and on participants. *)
Definition except_media (w w' : World) : Prop :=
  activeParticipant w' = activeParticipant w
  ∧ isActiveParticipantPinned w' = isActiveParticipantPinned w
  ∧ window_room w' = window_room w
  ∧ activeVideo w' = activeVideo w
  ∧ leave_click w' = leave_click w
  ∧ beforeunload w' = beforeunload w
  ∧ pagehide w' = pagehide w
  ∧ browser w' = browser w
  ∧ rooms w' = rooms w
  ∧ room_listeners w' = room_listeners w
  ∧ promises w' = promises w.

(** ** A small session, used to exercise the definitions *)

Module Demo.
Definition alice : Participant := {| p_ref := 0; p_identity := "alice" |}.
Definition bob : Participant := {| p_ref := 1; p_identity := "bob" |}.
Definition carol : Participant := {| p_ref := 2; p_identity := "carol" |}.

Definition camera : Track := {| track_ref := 10; track_kind := video |}.
Definition bob_video : Track := {| track_ref := 11; track_kind := video |}.
Definition carol_video : Track := {| track_ref := 12; track_kind := video |}.
Definition bob_audio : Track := {| track_ref := 13; track_kind := audio |}.

(** The double quote, and an identity that ends in one. *)
Definition quote : string := String (Ascii.ascii_of_nat 34) EmptyString.
Definition eve : Participant := {| p_ref := 3; p_identity := "eve" +:+ quote |}.
Definition eve_video : Track := {| track_ref := 14; track_kind := video |}.

(** Whether a character is the double quote or the backslash. *)
Definition special (a : Ascii.ascii) : bool :=
  bool_decide (Ascii.nat_of_ascii a = 34) || bool_decide (Ascii.nat_of_ascii a = 92).

Fixpoint has_special (s : string) : bool :=
  match s with
  | EmptyString => false
  | String a s' => special a || has_special s'
  end.

(** The part of a string before its first double quote. *)
Fixpoint before_quote (s : string) : string :=
  match s with
  | EmptyString => EmptyString
  | String a s' =>
      if bool_decide (Ascii.nat_of_ascii a = 34) then EmptyString
      else String a (before_quote s')
  end.

(** How the strings built from an identity are read on the page of the
    demo.  It is what jQuery and the HTML parser do for the identities of
    the demo: an identity of letters denotes itself, and a selector built
    from an identity with a double quote is a syntax error.  (Identities
    with a backslash or a character reference do not occur in it.) *)
Definition selector (id : string) : option (string -> bool) :=
  if has_special id then None else Some (fun v => bool_decide (v = id)).

Definition desktop : Browser :=
  {| has_onbeforeunload := true; isMobile := false;
     is_safari := false; has_onpagehide := false;
     container_selector := selector; video_selector := selector;
     attribute_value := before_quote |}.

(** Alice's room: Bob is there with a video track already subscribed
    and an audio publication not yet subscribed; Carol with a video
    publication not yet subscribed. *)
Definition room : Room :=
  {| localParticipant :=
       {| lp_self := alice; lp_videoTracks := [ {| ltp_track := camera |} ] |};
     dominantSpeaker := None;
     participants :=
       [ {| rp_self := bob;
            rp_tracks := [ {| pub_ref := 20; pub_track := Some bob_video |};
                           {| pub_ref := 22; pub_track := None |} ] |};
         {| rp_self := carol;
            rp_tracks := [ {| pub_ref := 21; pub_track := None |} ] |} ] |}.

(** A room whose local participant publishes no video. *)
Definition audio_only_room : Room :=
  {| localParticipant := {| lp_self := alice; lp_videoTracks := [] |};
     dominantSpeaker := None;
     participants := [] |}.


(** Alice has joined [room] as room object 100, by join call 0; the
    containers of Alice and Bob are elements 0 and 2. *)
Definition joined : World :=
  run [JoinRoom 0 (ConnectFulfilled 100 room)] (initial desktop).

(** Carol's video is subscribed too; her container is element 4. *)
Definition three_videos : World := run [Subscribed 21 carol_video] joined.

(** Alice has clicked Bob's container. *)
Definition bob_pinned : World := run [Click 2] three_videos.

(** A data track of Bob's. *)
Definition bob_chat : Track := {| track_ref := 15; track_kind := data |}.

(** Alice's room with Bob and Eve, both with a video track already
    subscribed. *)
Definition eve_room : Room :=
  {| localParticipant :=
       {| lp_self := alice; lp_videoTracks := [ {| ltp_track := camera |} ] |};
     dominantSpeaker := None;
     participants :=
       [ {| rp_self := bob;
            rp_tracks := [ {| pub_ref := 20; pub_track := Some bob_video |} ] |};
         {| rp_self := eve;
            rp_tracks := [ {| pub_ref := 23; pub_track := Some eve_video |} ] |} ] |}.

(** Alice has joined [eve_room]; the containers of Alice, Bob and Eve
    are elements 0, 2 and 4. *)
Definition with_eve : World :=
  run [JoinRoom 0 (ConnectFulfilled 100 eve_room)] (initial desktop).

(** The room as Eve finds it when she joins: Bob is there with his video
    subscribed, and is the dominant speaker. *)
Definition eves_room : Room :=
  {| localParticipant :=
       {| lp_self := eve; lp_videoTracks := [ {| ltp_track := eve_video |} ] |};
     dominantSpeaker := Some bob;
     participants :=
       [ {| rp_self := bob;
            rp_tracks := [ {| pub_ref := 20; pub_track := Some bob_video |} ] |} ] |}.

(** Eve has joined [eves_room]. *)
Definition eve_joined : World :=
  run [JoinRoom 0 (ConnectFulfilled 100 eves_room)] (initial desktop).

End Demo.

(** The DOM that [detachTrack(track, participant)] leaves, whether it
    returns or throws on the selector. *)
Definition detached_dom (track : Track) (participant : Participant) (w : World) : list Node :=
  let d := fold_left (fun d e => remove_media e d)
                     (attached_to (track_ref track) w) (participants_dom w) in
  match track_kind track, container_selector (browser w) (p_identity participant) with
  | video, Some sel => remove_containers sel d
  | _, _ => d
  end.

(** The world that [detachTrack(track, participant)] leaves. *)
Definition detached (track : Track) (participant : Participant) (w : World) : World :=
  match track_kind track with
  | data => w
  | _ =>
      set_dom (detached_dom track participant w)
        (set_tracks (<[track_ref track := []]> (attached w))
                    (calls w ++ [CDetach (track_ref track)]) (next_el w) w)
  end.

(** How [detachTrack(track, participant)] ends. *)
Definition detach_outcome (track : Track) (participant : Participant) (w : World)
    : Completion unit :=
  match track_kind track, container_selector (browser w) (p_identity participant) with
  | data, _ => Throw TypeError
  | video, None => Throw SyntaxError
  | _, _ => Normal tt
  end.

(** jQuery accepts the selector built from the identity of [p]. *)
Definition selectable (p : Participant) (w : World) : Prop :=
  is_Some (container_selector (browser w) (p_identity p)).

(** jQuery accepts the selector built from the identity of the current
    active participant, if there is one. *)
Definition active_selectable (w : World) : Prop :=
  forall ap, activeParticipant w = Some ap -> selectable ap w.

(** The world after the teardown closure of join call [j], closed over
    [localVideoTrack] and over a room with local participant [lp], has
    run to its end. *)
Definition teardown_end (lp : Participant) (localVideoTrack : Track) (j : nat)
    (w : World) : World :=
  let w2 := set_window_room None
              (set_activeVideo (Some None) (detached localVideoTrack lp w)) in
  match promises w2 !! j with
  | Some Pending => set_promises (<[j:=Fulfilled]> (promises w2)) w2
  | _ => w2
  end.

(** The same, from the emission of [disconnected] by room [r] on: the
    closure is first taken off the room. *)
Definition torn_down (r : nat) (lp : Participant) (localVideoTrack : Track) (j : nat)
    (w : World) : World :=
  teardown_end lp localVideoTrack j
    (set_room_listeners
       (remove_first (r, OnceDisconnected localVideoTrack j) (room_listeners w)) w).

(** The ways a teardown can be asked for: the leave button, the page
    being unloaded or hidden, and the room reporting its disconnection. *)
Definition is_trigger (r : nat) (e : Event) : bool :=
  match e with
  | LeaveClick | BeforeUnload | PageHide => true
  | RoomDisconnected r' => bool_decide (r' = r)
  | _ => false
  end.

(** Whether the trigger reaches [room.disconnect()] of room [r], or is
    its [disconnected] event. *)
Definition wired (r : nat) (e : Event) (w : World) : bool :=
  match e with
  | LeaveClick => bool_decide (r ∈ leave_click w)
  | BeforeUnload => bool_decide (r ∈ beforeunload w)
  | PageHide => bool_decide (r ∈ pagehide w)
  | RoomDisconnected r' => bool_decide (r' = r)
  | _ => false
  end.

(** Room [r] is the one session of the page that has not been torn down:
    its teardown closure, for track [t] and join call [j], is the only
    [disconnected] listener registered anywhere. *)
Definition session_live (r : nat) (t : Track) (j : nat) (w : World) : Prop :=
  is_Some (rooms w !! r)
  ∧ is_Some (activeVideo w)
  ∧ listeners_for r EvDisconnected w = [OnceDisconnected t j]
  ∧ forall r', r' ≠ r -> listeners_for r' EvDisconnected w = [].

(** The teardown closure of room [r], closed over the track [t], returns
    from its detachment: [t] has a [detach] method and, when it is a video
    track, jQuery accepts the selector built from the identity of the
    local participant. *)
Definition teardown_returns (r : nat) (t : Track) (w : World) : Prop :=
  forall rm, rooms w !! r = Some rm ->
    detach_outcome t (lp_self (localParticipant rm)) w = Normal tt.

(** No teardown closure is registered on any room. *)
Definition no_session (w : World) : Prop :=
  forall r, listeners_for r EvDisconnected w = [].

(** What can be observed of the page: everything but the handlers that
    remain on the leave button. *)
Definition observable (w : World) : World := set_leave_click [] w.

(** No handler throws along the run. *)
Fixpoint run_ok (es : list Event) (w : World) : Prop :=
  match es with
  | [] => True
  | e :: es' => outcome (handle e) w = Normal tt ∧ run_ok es' (step w e)
  end.

(** The events that ask for a teardown, whatever the room. *)
Definition is_disconnect (e : Event) : bool :=
  match e with
  | LeaveClick | BeforeUnload | PageHide | RoomDisconnected _ => true
  | _ => false
  end.

(** Between [w] and [w'] the teardown closure of join call [j] has run to
    its end: it was registered on a room in [w], its local track has been
    detached since, and the active video and [window.room] are cleared. *)
Definition torn_between (j : nat) (w w' : World) : Prop :=
  window_room w' = None
  ∧ activeVideo w' = Some None
  ∧ exists r t cs,
      In (r, OnceDisconnected t j) (room_listeners w)
      ∧ calls w' = calls w ++ cs
      ∧ In (CDetach (track_ref t)) cs.

(** ** Attach and detach calls, and the provider's protocol *)





(** The calls [detachTrack] makes on a track. *)
Definition detach_log (t : Track) : list Call :=
  match track_kind t with
  | data => []
  | _ => [CDetach (track_ref t)]
  end.

(** The calls [attachTrack] makes on a track. *)
Definition attach_log (t : Track) : list Call :=
  match track_kind t with
  | data => []
  | _ => [CAttach (track_ref t)]
  end.


(** The listeners that a list of registrations amounts to. *)
Definition listeners_of (R : list (nat * Participant)) : list (nat * PubListener) :=
  flat_map (fun pp => [(pp.1, OnSubscribed pp.2); (pp.1, OnUnsubscribed pp.2)]) R.



Section Protocol.
(** Which track references denote local tracks; the others denote
    remote tracks. *)
Variable is_local : nat -> bool.

(** The provider's record of the subscriptions: the track each
    subscribed publication currently carries. *)
Abbreviation Subscriptions := (gmap nat Track).












End Protocol.

(** [m] returns from [w], having appended [cs] to the log of calls, [pls]
    to the listeners on publications and [tps] to the listeners on
    participants; it leaves the listeners on rooms alone. *)
Definition appends (m : M unit) (w : World) (cs : list Call)
    (pls : list (nat * PubListener)) (tps : list Participant) : Prop :=
  exists w',
    m w = (Normal tt, w')
    ∧ calls w' = calls w ++ cs
    ∧ publication_listeners w' = publication_listeners w ++ pls
    ∧ trackPublished_listeners w' = trackPublished_listeners w ++ tps
    ∧ room_listeners w' = room_listeners w.

(** The calls made when a publication is registered. *)
Definition publication_log (publication : Publication) : list Call :=
  match pub_track publication with
  | Some t => attach_log t
  | None => []
  end.

Definition publication_pair (p : Participant) (publication : Publication)
    : list (nat * PubListener) :=
  [(pub_ref publication, OnSubscribed p); (pub_ref publication, OnUnsubscribed p)].

(** [w'] has the log of calls and the listener tables of [w]. *)
Definition same_media (w w' : World) : Prop :=
  calls w' = calls w
  ∧ publication_listeners w' = publication_listeners w
  ∧ trackPublished_listeners w' = trackPublished_listeners w
  ∧ room_listeners w' = room_listeners w.



(** ** The rest of the media-device selection module: [getInputDevices]
       and [selectMedia] *)

Module Selection.

(** A MediaDeviceInfo, as far as the code reads it. *)
Record MediaDeviceInfo := { deviceId : string; device_kind : string; label : string }.

(** How [navigator.mediaDevices.enumerateDevices()] settles. *)
Inductive EnumerateResult :=
| Enumerated (devices : list MediaDeviceInfo)
| EnumerateFailed.

(** [getInputDevices(kind)]: the devices whose kind is [`${kind}input`],
    or [None] when the enumeration is rejected. *)
Definition getInputDevices (kind : string) (e : EnumerateResult)
    : option (list MediaDeviceInfo) :=
  match e with
  | Enumerated devices =>
      Some (List.filter (fun device => bool_decide (device_kind device = kind +:+ "input"))
                        devices)
  | EnumerateFailed => None
  end.

(** [{ audio: 'Microphone', video: 'Camera' }[kind]] inside a template
    literal: a missing key prints as [undefined]. *)
Definition input_name (kind : string) : string :=
  if bool_decide (kind = "audio") then "Microphone"
  else if bool_decide (kind = "video") then "Camera"
  else "undefined".

(** The label of the option for the device at index [i]:
    [label || (i === 0 ? `Default ${input}` : `${input} ${i + 1}`)]. *)
Definition option_label (kind : string) (i : nat) (device : MediaDeviceInfo) : string :=
  if bool_decide (label device = EmptyString)
  then match i with
       | 0 => "Default " +:+ input_name kind
       | _ => input_name kind +:+ " " +:+ pretty (i + 1)
       end
  else label device.

(** An option element of the select, created from the HTML
    [<option value="${deviceId}">${label}</option>]: its [value]
    attribute, as the HTML parser reads it, and the HTML it was given as
    content.  The HTML is taken to denote one [option]. *)
Record OptionEl := { opt_value : string; opt_html : string }.

Definition option_of (b : Browser) (kind : string) (i : nat) (device : MediaDeviceInfo)
    : OptionEl :=
  {| opt_value := attribute_value b (deviceId device);
     opt_html := option_label kind i device |}.

(** The promise returned by [selectMedia]. *)
Inductive Result :=
| Waiting
| Selected (device : option string)
| Failed.

(** One run of [selectMedia] on its modal: the capture state of the
    module, the options and the value of the select, which of the four
    handlers are registered, whether the modal is being shown, the
    capture requests made by the change handler that have not settled,
    and the returned promise. *)
Record Flow := {
  flow_kind : string;
  capture : Devices.State;
  options : list OptionEl;
  val : option string;
  onShow : bool;
  onHide : bool;
  setDevice : bool;
  onApply : bool;
  visible : bool;
  requests : list string;
  result : Result
}.

(** A modal nobody has used, over the capture state [s]. *)
Definition idle (s : Devices.State) : Flow :=
  {| flow_kind := EmptyString; capture := s; options := []; val := None;
     onShow := false; onHide := false; setDevice := false; onApply := false;
     visible := false; requests := []; result := Waiting |}.

(** [selectMedia(kind, $modal, render)] up to the point where the modal
    is asked to show, given how the enumeration and the capture of the
    default device settle.  The select is filled, and takes the value of
    its first option; [devices[0].deviceId] throws when there is no
    device of the kind. *)
Definition selectMedia (b : Browser) (kind : string) (e : EnumerateResult)
    (c : Devices.CreateResult) (s : Devices.State) : Flow :=
  match getInputDevices kind e with
  | None =>
      {| flow_kind := kind; capture := s; options := []; val := None;
         onShow := false; onHide := false; setDevice := false; onApply := false;
         visible := false; requests := []; result := Failed |}
  | Some devices =>
      let opts := imap (option_of b kind) devices in
      match devices with
      | [] =>
          {| flow_kind := kind; capture := s; options := opts; val := None;
             onShow := false; onHide := false; setDevice := false; onApply := false;
             visible := false; requests := []; result := Failed |}
      | device :: _ =>
          match Devices.applyInputDevice kind (deviceId device) c s with
          | (Fulfilled, s') =>
              {| flow_kind := kind; capture := s'; options := opts;
                 val := Some (attribute_value b (deviceId device));
                 onShow := true; onHide := true; setDevice := false; onApply := false;
                 visible := true; requests := []; result := Waiting |}
          | (_, s') =>
              {| flow_kind := kind; capture := s'; options := opts;
                 val := Some (attribute_value b (deviceId device));
                 onShow := false; onHide := false; setDevice := false; onApply := false;
                 visible := false; requests := []; result := Failed |}
          end
      end
  end.

(** What happens to the modal afterwards. *)
Inductive Event :=
| Shown                                     (* [shown.bs.modal] *)
| Change (device : string)                  (* the user picks an option *)
| Settle (device : string) (c : Devices.CreateResult)
                                            (* a capture request settles *)
| ApplyClick                                (* a click on the button *)
| Hidden.                                   (* [hidden.bs.modal] *)

(** The [shown.bs.modal] handler [onShow]. *)
Definition shown (f : Flow) : Flow :=
  if onShow f then
    {| flow_kind := flow_kind f; capture := capture f; options := options f;
       val := val f; onShow := false; onHide := onHide f;
       setDevice := true; onApply := true;
       visible := visible f; requests := requests f; result := result f |}
  else f.

(** The user picks [device]: the select takes the value, and the change
    handler [setDevice], when registered, calls [applyInputDevice]. *)
Definition change (device : string) (f : Flow) : Flow :=
  {| flow_kind := flow_kind f; capture := capture f; options := options f;
     val := Some device; onShow := onShow f; onHide := onHide f;
     setDevice := setDevice f; onApply := onApply f;
     visible := visible f;
     requests := if setDevice f then requests f ++ [device] else requests f;
     result := result f |}.

(** A request of the change handler settles: the rest of
    [applyInputDevice] runs. *)
Definition settle (device : string) (c : Devices.CreateResult) (f : Flow) : Flow :=
  if bool_decide (device ∈ requests f) then
    {| flow_kind := flow_kind f;
       capture := (Devices.applyInputDevice (flow_kind f) device c (capture f)).2;
       options := options f; val := val f; onShow := onShow f; onHide := onHide f;
       setDevice := setDevice f; onApply := onApply f;
       visible := visible f;
       requests := remove_first device (requests f);
       result := result f |}
  else f.

(** The click handler [onApply]. *)
Definition apply_click (f : Flow) : Flow :=
  if onApply f then
    {| flow_kind := flow_kind f; capture := capture f; options := options f;
       val := val f; onShow := onShow f; onHide := onHide f;
       setDevice := false; onApply := false;
       visible := false; requests := requests f; result := result f |}
  else f.

(** The [hidden.bs.modal] handler [onHide]. *)
Definition hidden (f : Flow) : Flow :=
  if onHide f then
    {| flow_kind := flow_kind f;
       capture := Devices.onHide (flow_kind f) (capture f);
       options := options f; val := val f; onShow := onShow f; onHide := false;
       setDevice := setDevice f; onApply := onApply f;
       visible := visible f; requests := requests f;
       result := match result f with Waiting => Selected (val f) | r => r end |}
  else f.

Definition step (f : Flow) (e : Event) : Flow :=
  match e with
  | Shown => shown f
  | Change device => change device f
  | Settle device c => settle device c f
  | ApplyClick => apply_click f
  | Hidden => hidden f
  end.

Definition run (es : list Event) (f : Flow) : Flow := fold_left step es f.

End Selection.

(** ** Notions used to state further properties *)

(** The containers under [$participants], in document order. *)
Definition containers (dom : list Node) : list Container :=
  flat_map (fun n => match n with ContainerNode c => [c] | AudioNode _ => [] end) dom.

(** The containers after the first statement of [setActiveParticipant]:
    when there is an active participant, the classes are taken off the
    containers that the selector [old], built from its identity,
    selects. *)
Definition undecorated (old : string -> bool) (w : World) : list Node :=
  match activeParticipant w with
  | Some _ => map (on_matching old (fun c => with_pinned false (with_active false c)))
                  (participants_dom w)
  | None => participants_dom w
  end.

(** The decoration [setActiveParticipant(participant)] leaves on the
    containers when it gets past its selectors: [active] is put on the
    containers that the selector [new], built from the identity of the
    participant, selects, and [pinned] too when the pin is set. *)
Definition decorated (old new : string -> bool) (w : World) : list Node :=
  let d1 := map (on_matching new (with_active true)) (undecorated old w) in
  if isActiveParticipantPinned w
  then map (on_matching new (with_pinned true)) d1
  else d1.

(** The selector that [setActiveParticipant] builds from the identity of
    the current active participant means [old]. *)
Definition active_selector (old : string -> bool) (w : World) : Prop :=
  forall ap, activeParticipant w = Some ap ->
    container_selector (browser w) (p_identity ap) = Some old.

(** Only containers of the active participant carry the classes, and
    [pinned] only together with [active]. *)
Definition decoration_ok (w : World) : Prop :=
  forall c, In c (containers (participants_dom w)) ->
    (c_pinned c = true -> c_active c = true)
    ∧ (c_active c = true ->
       exists ap sel, activeParticipant w = Some ap
                      ∧ container_selector (browser w) (p_identity ap) = Some sel
                      ∧ has_identity sel c = true).

(** The children of a container without the elements [els]. *)
Definition without (els : list nat) (c : Container) : Container :=
  with_children (List.filter (fun el => negb (bool_decide (v_id el ∈ els))) (c_children c)) c.

(** No container under [$participants] is selected by [sel]. *)
Definition no_container_of (sel : string -> bool) (w : World) : Prop :=
  forall c, In c (containers (participants_dom w)) -> has_identity sel c = false.

(** On a page run by the browser [b], no container is selected by
    [sel]. *)
Definition unseen (b : Browser) (sel : string -> bool) (w : World) : Prop :=
  browser w = b ∧ no_container_of sel w.

(** None of the participants with a subscribed video track gets a
    container that [sel] selects. *)
Definition no_video_of (b : Browser) (sel : string -> bool) (ps : list RemoteParticipant) : Prop :=
  forall p publication t,
    In p ps -> In publication (rp_tracks p) ->
    pub_track publication = Some t -> track_kind t = video ->
    sel (attribute_value b (p_identity (rp_self p))) = false.

(** The cache of the device-selection module holds, under each kind, a
    track of that kind. *)
Definition cache_by_kind (s : Devices.State) : Prop :=
  forall k t, Devices.cached k s = Some t -> Devices.lt_kind t = k.

(** * Properties *)

(** ** Reasoning about computations *)

Ltac js_unfold :=
  unfold exec, outcome, bind, get, modify, ret, throw in *.

Lemma exec_bind {A B} (m : M A) (k : A -> M B) (w : World) :
  exec (bind m k) w =
  match m w with
  | (Normal a, w') => exec (k a) w'
  | (Throw _, w') => w'
  end.
Proof. unfold exec, bind. destruct (m w) as [[a|e] w']; reflexivity. Qed.

Lemma inv_ret {A} I (a : A) : inv I (ret a).
Proof. intros w H; exact H. Qed.

Lemma inv_throw {A} I e : inv I (@throw A e).
Proof. intros w H; exact H. Qed.

Lemma inv_get I : inv I get.
Proof. intros w H; exact H. Qed.

Lemma inv_modify (I : World -> Prop) f :
  (forall w, I w -> I (f w)) -> inv I (modify f).
Proof. intros Hf w H; simpl; auto. Qed.

Lemma inv_bind {A B} I (m : M A) (k : A -> M B) :
  inv I m -> (forall a, inv I (k a)) -> inv I (bind m k).
Proof.
  intros Hm Hk w H. unfold bind. specialize (Hm w H).
  destruct (m w) as [[a|e] w']; simpl in *; [apply Hk|]; assumption.
Qed.

Lemma inv_forEach {A} I (f : A -> M unit) xs :
  (forall x, inv I (f x)) -> inv I (forEach f xs).
Proof.
  intros Hf. induction xs as [|x xs IH]; simpl.
  - apply inv_ret.
  - apply inv_bind; [apply Hf | intros _; exact IH].
Qed.

Lemma inv_dispatch {A} I (f : A -> M unit) xs :
  (forall x, inv I (f x)) -> inv I (dispatch f xs).
Proof.
  intros Hf. induction xs as [|x xs IH]; simpl.
  - apply inv_ret.
  - intros w H. specialize (Hf x w H).
    destruct (f x w) as [c w']; simpl in Hf. specialize (IH w' Hf).
    destruct (dispatch f xs w') as [c' w'']; simpl in *. exact IH.
Qed.

Lemma inv_select I id : inv I (select id).
Proof.
  intros w H. unfold select, bind, get.
  destruct (container_selector (browser w) id); exact H.
Qed.

Lemma inv_select_video I id : inv I (select_video id).
Proof.
  intros w H. unfold select_video, bind, get.
  destruct (video_selector (browser w) id); exact H.
Qed.

Lemma select_accepted id sel w :
  container_selector (browser w) id = Some sel -> select id w = (Normal sel, w).
Proof. intros H. unfold select, bind, get. rewrite H. reflexivity. Qed.

Lemma select_rejected id w :
  container_selector (browser w) id = None -> select id w = (Throw SyntaxError, w).
Proof. intros H. unfold select, bind, get. rewrite H. reflexivity. Qed.

(** Decomposes a computation along its syntax; what is left are the
    state updates that [simpl] does not discharge. *)
Ltac inv_step :=
  match goal with
  | |- inv _ (bind _ _) => apply inv_bind
  | |- inv _ (select _) => apply inv_select
  | |- inv _ (select_video _) => apply inv_select_video
  | |- inv _ (ret _) => apply inv_ret
  | |- inv _ (throw _) => apply inv_throw
  | |- inv _ get => apply inv_get
  | |- inv _ (forEach _ _) => apply inv_forEach
  | |- inv _ (dispatch _ _) => apply inv_dispatch
  | |- inv _ (modify _) => apply inv_modify; intros ? ?; simpl in *
  | |- inv _ (match ?x with _ => _ end) => destruct x
  | |- forall _, _ => intro
  end.

Ltac inv_auto := repeat inv_step; try assumption; try (simpl; tauto).

(** When jQuery rejects the selector built from the identity of the
    current active participant, [setActiveParticipant] throws on its
    first selector and changes nothing. *)
Lemma setActiveParticipant_rejected (p ap : Participant) (w : World) :
  activeParticipant w = Some ap ->
  container_selector (browser w) (p_identity ap) = None ->
  setActiveParticipant p w = (Throw SyntaxError, w).
Proof.
  intros Ha Hs. unfold setActiveParticipant.
  unfold bind at 1. unfold get at 1. rewrite Ha.
  unfold bind at 1. unfold bind at 1. rewrite (select_rejected _ _ Hs). reflexivity.
Qed.

(** What [setActiveParticipant] changes otherwise: the active
    participant, the decoration of the containers and, unless it throws
    on one of its later lines, the stream of the active video. *)
Lemma setActiveParticipant_cases (p : Participant) (w : World) :
  exec (setActiveParticipant p) w = w
  ∨ exists d v,
      exec (setActiveParticipant p) w =
      set_activeVideo v (set_dom d (set_activeParticipant (Some p) w)).
Proof.
  unfold setActiveParticipant, select, select_video. js_unfold. simpl.
  destruct (activeParticipant w) as [ap|] eqn:Ha; simpl;
    [destruct (container_selector (browser w) (p_identity ap)); simpl;
     [|left; reflexivity]|];
    right;
    (destruct (container_selector (browser w) (p_identity p)); simpl;
      [destruct (isActiveParticipantPinned w) eqn:Hp; simpl;
       (destruct (video_selector (browser w) (p_identity p)); simpl;
        [destruct (activeVideo w) eqn:Hv; simpl;
         repeat match goal with |- context [head ?l] => destruct (head l) end; simpl|])|];
      eexists; eexists; unfold set_activeVideo, set_dom, set_activeParticipant;
      simpl; rewrite ?Ha, ?Hp, ?Hv; f_equal).
Qed.

Lemma setActiveParticipant_footprint (p : Participant) (w : World) :
  active_selectable w ->
  exists d v,
    exec (setActiveParticipant p) w =
    set_activeVideo v (set_dom d (set_activeParticipant (Some p) w)).
Proof.
  intros Hsel. unfold setActiveParticipant, select, select_video. js_unfold. simpl.
  destruct (activeParticipant w) as [ap|] eqn:Ha; simpl.
  - destruct (Hsel ap Ha) as [sel0 Hs0]. rewrite Hs0. simpl.
    destruct (container_selector (browser w) (p_identity p)); simpl;
      [destruct (isActiveParticipantPinned w) eqn:Hp; simpl;
       (destruct (video_selector (browser w) (p_identity p)); simpl;
        [destruct (activeVideo w) eqn:Hv; simpl;
         repeat match goal with |- context [head ?l] => destruct (head l) end; simpl|])|];
      eexists; eexists; unfold set_activeVideo, set_dom, set_activeParticipant;
      simpl; rewrite ?Ha, ?Hp, ?Hv; f_equal.
  - destruct (container_selector (browser w) (p_identity p)); simpl;
      [destruct (isActiveParticipantPinned w) eqn:Hp; simpl;
       (destruct (video_selector (browser w) (p_identity p)); simpl;
        [destruct (activeVideo w) eqn:Hv; simpl;
         repeat match goal with |- context [head ?l] => destruct (head l) end; simpl|])|];
      eexists; eexists; unfold set_activeVideo, set_dom, set_activeParticipant;
      simpl; rewrite ?Ha, ?Hp, ?Hv; f_equal.
Qed.

Lemma inv_get_bind {B} (I : World -> Prop) (k : World -> M B) :
  (forall w, I w -> I (k w w).2) -> inv I (bind get k).
Proof. intros H w Hw. unfold bind, get. apply H, Hw. Qed.

(** ** The selection is untouched by attaching, detaching and teardown *)

Section SelectionFrame.
Variable s : option Participant * bool.
Let I (w : World) : Prop := selection w = s.

Lemma sel_track_attach t : inv I (track_attach t).
Proof. intros w H; exact H. Qed.

Lemma sel_track_detach t : inv I (track_detach t).
Proof. intros w H. unfold track_detach. destruct (track_kind t); exact H. Qed.

Lemma sel_fresh : inv I fresh.
Proof. intros w H; exact H. Qed.

Lemma sel_attachTrack t p : inv I (attachTrack t p).
Proof.
  unfold attachTrack, attachAudioTrack, attachVideoTrack.
  destruct (track_kind t); inv_auto;
    auto using sel_track_attach, sel_fresh.
Qed.

Lemma sel_detachTrack t p : inv I (detachTrack t p).
Proof.
  unfold detachTrack. inv_auto; auto using sel_track_detach.
Qed.

Lemma sel_trackPublished pub p : inv I (trackPublished pub p).
Proof.
  unfold trackPublished. inv_auto; auto using sel_attachTrack.
Qed.

Lemma sel_participantConnected p : inv I (participantConnected p).
Proof.
  unfold participantConnected. inv_auto; auto using sel_trackPublished.
Qed.

Lemma sel_resolve j : inv I (resolve j).
Proof.
  unfold resolve. apply inv_modify. intros w H.
  destruct (promises w !! j) as [[]|]; exact H.
Qed.

Lemma sel_teardown r t j : inv I (teardown r t j).
Proof.
  unfold teardown, room_get.
  inv_auto; auto using sel_detachTrack, sel_resolve.
Qed.
End SelectionFrame.

(** ** Pinning *)

(** A click on the container of [A], unless [A] is already pinned, pins
    [A]; this holds even when the last line of [setActiveParticipant]
    throws. *)
Lemma container_click_pins (A : Participant) (w : World) :
  ¬ (activeParticipant w = Some A ∧ isActiveParticipantPinned w = true) ->
  active_selectable w ->
  exists d v,
    exec (container_click A) w =
    set_activeVideo v (set_dom d (set_activeParticipant (Some A) (set_pinned true w))).
Proof.
  intros Hn Hsel. unfold container_click.
  rewrite exec_bind. unfold get at 1.
  destruct (bool_decide (activeParticipant w = Some A) && isActiveParticipantPinned w) eqn:Hc.
  - apply andb_true_iff in Hc as [Ha Hp]. apply bool_decide_eq_true in Ha.
    exfalso; apply Hn; split; assumption.
  - rewrite exec_bind. unfold modify at 1.
    apply setActiveParticipant_footprint. exact Hsel.
Qed.

(** An emission keeps what its listeners keep. *)
Lemma inv_room_emit (I : World -> Prop) (r : nat) (ev : RoomEvent) :
  (forall w l, I w -> I (set_room_listeners l w)) ->
  (forall l, inv I (room_listener r l ev)) ->
  inv I (room_emit r ev).
Proof.
  intros Hl Hh. unfold room_emit.
  apply inv_bind; [apply inv_get|]. intros w0.
  apply inv_forEach. intros l. apply inv_bind; [|intros _; apply Hh].
  destruct (is_once l); [apply inv_modify; intros; apply Hl; assumption | apply inv_ret].
Qed.

(** While [A] is pinned, the listeners of a room leave the selection
    alone, except on the disconnection of [A]. *)
Lemma pinned_room_listener (A : Participant) (r : nat) (l : RoomListener) (ev : RoomEvent) :
  ev ≠ EvParticipantDisconnected A ->
  inv (fun w => selection w = (Some A, true)) (room_listener r l ev).
Proof.
  intros Hev. destruct l, ev; simpl; try apply inv_ret.
  - apply sel_participantConnected.
  - apply inv_get_bind. intros w Hw.
    unfold selection in Hw. injection Hw as Ha Hp.
    rewrite Ha, Hp. rewrite bool_decide_eq_false_2 by congruence.
    simpl. unfold selection. congruence.
  - apply inv_get_bind. intros w Hw.
    unfold selection in Hw. injection Hw as Ha Hp.
    rewrite Hp. simpl. unfold selection. congruence.
  - apply sel_teardown.
Qed.

Lemma pinned_room_emit (A : Participant) (r : nat) (ev : RoomEvent) :
  ev ≠ EvParticipantDisconnected A ->
  inv (fun w => selection w = (Some A, true)) (room_emit r ev).
Proof.
  intros Hev. apply inv_room_emit; [intros w l H; exact H|].
  intros l. apply pinned_room_listener, Hev.
Qed.

(** While [A] is pinned, a quiet event leaves the selection alone. *)
Lemma pinned_step (A : Participant) (w : World) (e : Event) :
  selection w = (Some A, true) ->
  quiet A e = true ->
  selection (step w e) = (Some A, true).
Proof.
  intros Hs Hq. unfold step, exec.
  set (I := fun w => selection w = (Some A, true)).
  change (I (handle e w).2). revert w Hs. change (inv I (handle e)).
  subst I. destruct e as [j c|r p|r p|r d|p pub|pub t|pub t|r|c| | |];
    simpl in Hq; try discriminate; simpl.
  - destruct c; [discriminate|]. apply inv_modify. intros w H. exact H.
  - apply inv_bind; [apply inv_modify; intros w H; exact H|intros _].
    apply pinned_room_emit. discriminate.
  - apply negb_true_iff, bool_decide_eq_false in Hq.
    apply inv_bind; [apply inv_modify; intros w H; exact H|intros _].
    apply pinned_room_emit. congruence.
  - apply inv_bind; [apply inv_modify; intros w H; exact H|intros _].
    apply pinned_room_emit. discriminate.
  - unfold participant_trackPublished. inv_auto. apply sel_trackPublished.
  - unfold publication_subscribed. inv_auto. apply sel_attachTrack.
  - unfold publication_unsubscribed. inv_auto. apply sel_detachTrack.
  - apply pinned_room_emit. discriminate.
  - unfold onLeave. inv_auto. apply pinned_room_emit. discriminate.
  - inv_auto. apply pinned_room_emit. discriminate.
  - inv_auto. apply pinned_room_emit. discriminate.
Qed.

(** After a click on the container of [A] that finds [A] not pinned and
    a current active participant whose identity jQuery accepts in a
    selector, the active participant is [A] and the pin is set, and both
    stay so over any run of [dominantSpeakerChanged] signals (and of any
    other events that are neither a click, nor a new session, nor the
    disconnection of [A]). *)
Theorem pin_outlasts_dominantSpeakerChanged
    (A : Participant) (w : World) (es : list Event) :
  ¬ (activeParticipant w = Some A ∧ isActiveParticipantPinned w = true) ->
  active_selectable w ->
  Forall (fun e => quiet A e = true) es ->
  let w' := run es (exec (container_click A) w) in
  activeParticipant w' = Some A ∧ isActiveParticipantPinned w' = true.
Proof.
  intros Hn Hsel Hes.
  destruct (container_click_pins A w Hn Hsel) as (d & v & Hc).
  assert (Hs : selection (exec (container_click A) w) = (Some A, true))
    by (rewrite Hc; reflexivity).
  revert Hs. generalize (exec (container_click A) w) as w1.
  induction Hes as [|e es He Hes IH]; intros w1 Hs; simpl.
  - unfold selection in Hs. injection Hs as -> ->. split; reflexivity.
  - apply IH. apply pinned_step; assumption.
Qed.

(** ** Attaching and detaching: what they leave alone, and that they
       return *)

Lemma nothrow_ret {A} (a : A) : nothrow (ret a).
Proof. intros w; eexists; reflexivity. Qed.

Lemma nothrow_get : nothrow get.
Proof. intros w; eexists; reflexivity. Qed.

Lemma nothrow_modify f : nothrow (modify f).
Proof. intros w; eexists; reflexivity. Qed.

Lemma nothrow_bind {A B} (m : M A) (k : A -> M B) :
  nothrow m -> (forall a, nothrow (k a)) -> nothrow (bind m k).
Proof.
  intros Hm Hk w. unfold bind. destruct (Hm w) as [a Ha].
  destruct (m w) as [c w']; simpl in Ha; subst c. apply Hk.
Qed.

Lemma nothrow_forEach {A} (f : A -> M unit) xs :
  (forall x, nothrow (f x)) -> nothrow (forEach f xs).
Proof.
  intros Hf. induction xs as [|x xs IH]; simpl.
  - apply nothrow_ret.
  - apply nothrow_bind; [apply Hf | intros _; exact IH].
Qed.

Ltac nothrow_step :=
  match goal with
  | |- nothrow (bind _ _) => apply nothrow_bind
  | |- nothrow (ret _) => apply nothrow_ret
  | |- nothrow get => apply nothrow_get
  | |- nothrow (modify _) => apply nothrow_modify
  | |- nothrow (forEach _ _) => apply nothrow_forEach
  | |- nothrow (match ?x with _ => _ end) => destruct x
  | |- forall _, _ => intro
  end.

Ltac nothrow_auto := repeat nothrow_step; try assumption.

Lemma nothrow_track_attach t : nothrow (track_attach t).
Proof. intros w; eexists; reflexivity. Qed.

Lemma nothrow_fresh : nothrow fresh.
Proof. intros w; eexists; reflexivity. Qed.

Lemma nothrow_attachTrack t p : nothrow (attachTrack t p).
Proof.
  unfold attachTrack, attachAudioTrack, attachVideoTrack.
  destruct (track_kind t); nothrow_auto;
    auto using nothrow_track_attach, nothrow_fresh.
Qed.

Lemma nothrow_trackPublished pub p : nothrow (trackPublished pub p).
Proof.
  unfold trackPublished. nothrow_auto. apply nothrow_attachTrack.
Qed.

Lemma nothrow_participantConnected p : nothrow (participantConnected p).
Proof.
  unfold participantConnected. nothrow_auto. apply nothrow_trackPublished.
Qed.

Lemma nothrow_register r l : nothrow (register r l).
Proof. apply nothrow_modify. Qed.

Lemma except_media_refl w : except_media w w.
Proof. repeat split. Qed.

Section MediaFrame.
Variable w0 : World.
Let I (w : World) : Prop := except_media w0 w.

Lemma media_track_attach t : inv I (track_attach t).
Proof. intros w H; exact H. Qed.

Lemma media_track_detach t : inv I (track_detach t).
Proof. intros w H. unfold track_detach. destruct (track_kind t); exact H. Qed.

Lemma media_fresh : inv I fresh.
Proof. intros w H; exact H. Qed.

Lemma media_attachTrack t p : inv I (attachTrack t p).
Proof.
  unfold attachTrack, attachAudioTrack, attachVideoTrack.
  destruct (track_kind t); inv_auto;
    auto using media_track_attach, media_fresh.
Qed.

Lemma media_detachTrack t p : inv I (detachTrack t p).
Proof.
  unfold detachTrack. inv_auto; auto using media_track_detach.
Qed.

Lemma media_trackPublished pub p : inv I (trackPublished pub p).
Proof.
  unfold trackPublished. inv_auto; auto using media_attachTrack.
Qed.

Lemma media_participantConnected p : inv I (participantConnected p).
Proof.
  unfold participantConnected. inv_auto; auto using media_trackPublished.
Qed.
End MediaFrame.

Lemma run_media {A} (m : M A) (w : World) :
  nothrow m -> (forall w0, inv (except_media w0) m) ->
  exists a w', m w = (Normal a, w') ∧ except_media w w'.
Proof.
  intros Hn Hi. destruct (Hn w) as [a Ha].
  specialize (Hi w w (except_media_refl w)).
  destruct (m w) as [c w']; simpl in *; subst c. eauto.
Qed.

(** ** Automatic resolution *)

Lemma setCurrentActiveParticipant_footprint (r : nat) (rm : Room) (w : World) :
  rooms w !! r = Some rm ->
  active_selectable w ->
  exists d v,
    exec (setCurrentActiveParticipant (Some r)) w =
    set_activeVideo v
      (set_dom d
         (set_activeParticipant
            (Some (default (lp_self (localParticipant rm)) (dominantSpeaker rm))) w)).
Proof.
  intros Hr Hsel. unfold setCurrentActiveParticipant.
  rewrite exec_bind. unfold get at 1. simpl. rewrite Hr.
  apply setActiveParticipant_footprint. exact Hsel.
Qed.

Lemma setCurrentActiveParticipant_null (w : World) :
  setCurrentActiveParticipant None w = (Throw TypeError, w).
Proof. reflexivity. Qed.

Lemma active_selectable_frame (w w' : World) :
  activeParticipant w' = activeParticipant w ->
  browser w' = browser w ->
  active_selectable w -> active_selectable w'.
Proof.
  intros Ha Hb H ap Hap. unfold selectable. rewrite Hb.
  apply H. rewrite <- Ha. exact Hap.
Qed.


(** The emission of an event that exactly one listener is registered for
    runs that listener (removed first when registered with [once]). *)
Lemma room_emit_single (r : nat) (ev : RoomEvent) (l : RoomListener) (w : World) :
  listeners_for r ev w = [l] ->
  exec (room_emit r ev) w =
  exec (room_listener r l ev)
       (if is_once l then set_room_listeners (remove_first (r, l) (room_listeners w)) w
        else w).
Proof.
  intros Hl. unfold room_emit, exec, bind, get. rewrite Hl.
  unfold forEach, bind, modify, ret.
  destruct (is_once l); simpl;
    match goal with |- context [room_listener r l ev ?w1] =>
      destruct (room_listener r l ev w1) as [[[]|e] w'] end; reflexivity.
Qed.



(** When the room reports the disconnection of the participant that is
    active and pinned, and jQuery accepts the selector built from that
    participant's identity, the pin is cleared and the active participant
    is resolved again to the dominant speaker or else the local
    participant; the disconnection of anyone else changes neither the
    active participant nor the pin. *)
Theorem pinned_participant_disconnected
    (w : World) (r : nat) (rm : Room) (p : Participant) :
  rooms w !! r = Some rm ->
  listeners_for r (EvParticipantDisconnected p) w = [OnParticipantDisconnected] ->
  let w' := step w (ParticipantDisconnected r p) in
  (activeParticipant w = Some p ∧ isActiveParticipantPinned w = true ->
   selectable p w ->
   isActiveParticipantPinned w' = false
   ∧ activeParticipant w' =
       Some (default (lp_self (localParticipant rm)) (dominantSpeaker rm)))
  ∧ (¬ (activeParticipant w = Some p ∧ isActiveParticipantPinned w = true) ->
     activeParticipant w' = activeParticipant w
     ∧ isActiveParticipantPinned w' = isActiveParticipantPinned w).
Proof.
  intros Hr Hl w'.
  assert (Hs : active_selectable w -> selection w' =
    if bool_decide (activeParticipant w = Some p) && isActiveParticipantPinned w
    then (Some (default (lp_self (localParticipant rm)) (dominantSpeaker rm)), false)
    else selection w).
  { intros Hsel. subst w'. unfold step, handle.
    rewrite exec_bind. unfold update_room at 1, modify at 1.
    rewrite (room_emit_single r (EvParticipantDisconnected p) OnParticipantDisconnected)
      by exact Hl.
    simpl. rewrite exec_bind. unfold get at 1. simpl.
    destruct (bool_decide (activeParticipant w = Some p) && isActiveParticipantPinned w);
      [|reflexivity].
    rewrite exec_bind. unfold modify at 1.
    match goal with |- context [exec _ ?w1] =>
      destruct (setCurrentActiveParticipant_footprint r
                  {| localParticipant := localParticipant rm;
                     dominantSpeaker := dominantSpeaker rm;
                     participants :=
                       List.filter (fun q => negb (bool_decide (rp_self q = p)))
                                   (participants rm) |} w1)
        as (dd & v & ->) end.
    { simpl. rewrite lookup_alter_eq, Hr. reflexivity. }
    { apply (active_selectable_frame w); [reflexivity|reflexivity|exact Hsel]. }
    reflexivity. }
  assert (Hs' : bool_decide (activeParticipant w = Some p) && isActiveParticipantPinned w = false ->
                selection w' = selection w).
  { intros Hc. subst w'. unfold step, handle.
    rewrite exec_bind. unfold update_room at 1, modify at 1.
    rewrite (room_emit_single r (EvParticipantDisconnected p) OnParticipantDisconnected)
      by exact Hl.
    simpl. rewrite exec_bind. unfold get at 1. simpl. rewrite Hc. reflexivity. }
  split.
  - intros [Ha Hp] Hsel.
    assert (Hsel' : active_selectable w).
    { intros ap Hap. rewrite Ha in Hap. injection Hap as <-. exact Hsel. }
    specialize (Hs Hsel'). rewrite Ha, Hp in Hs.
    rewrite bool_decide_eq_true_2 in Hs by reflexivity. simpl in Hs.
    unfold selection in Hs. injection Hs as -> ->. split; reflexivity.
  - intros Hn.
    destruct (bool_decide (activeParticipant w = Some p) && isActiveParticipantPinned w) eqn:Hc.
    + apply andb_true_iff in Hc as [Ha Hp]. apply bool_decide_eq_true in Ha.
      exfalso; apply Hn; split; assumption.
    + specialize (Hs' eq_refl).
      unfold selection in Hs'. injection Hs' as -> ->. split; reflexivity.
Qed.

(** ** Toggling the pin *)

(** A click on the container of the pinned participant unpins and
    resolves automatically from [window.room]. *)
Lemma container_click_unpins (A : Participant) (w : World) (r : nat) (rm : Room) :
  activeParticipant w = Some A ->
  isActiveParticipantPinned w = true ->
  window_room w = Some r ->
  rooms w !! r = Some rm ->
  selectable A w ->
  exists d v,
    exec (container_click A) w =
    set_activeVideo v
      (set_dom d
         (set_activeParticipant
            (Some (default (lp_self (localParticipant rm)) (dominantSpeaker rm)))
            (set_pinned false w))).
Proof.
  intros Ha Hp Hw Hr Hsel. unfold container_click.
  rewrite exec_bind. unfold get at 1. rewrite Ha, Hp.
  rewrite bool_decide_eq_true_2 by reflexivity. simpl.
  rewrite exec_bind. unfold modify at 1.
  rewrite exec_bind. unfold get at 1. simpl. rewrite Hw.
  apply (setCurrentActiveParticipant_footprint r rm (set_pinned false w)); [exact Hr|].
  intros ap Hap. simpl in Hap. rewrite Ha in Hap. injection Hap as <-. exact Hsel.
Qed.

(** The claim fails when someone else was pinned before: with Bob pinned,
    two clicks on Carol's container end on Alice, not on Bob. *)
Lemma toggle_twice_forgets_earlier_pin :
  let w := Demo.bob_pinned in
  let w' := exec (container_click Demo.carol) (exec (container_click Demo.carol) w) in
  ¬ (activeParticipant w = Some Demo.carol ∧ isActiveParticipantPinned w = true)
  ∧ activeParticipant w = Some Demo.bob
  ∧ activeParticipant w' = Some Demo.alice
  ∧ activeParticipant w' ≠ activeParticipant w.
Proof.
  vm_compute. repeat split; try discriminate. intros [H _]; discriminate.
Qed.

(** C5, amended: in a live session, two clicks in a row on the container
    of a participant that was not pinned leave the pin cleared and the
    active participant resolved automatically (the dominant speaker, or
    else the local participant), provided jQuery accepts the selectors
    built from the identity of that participant and from the identity of
    the participant active before the first click; this is the
    participant that was active before the first click whenever that one
    was the automatic selection. *)
Theorem toggle_twice_resolves_automatically
    (w : World) (A : Participant) (r : nat) (rm : Room) :
  ¬ (activeParticipant w = Some A ∧ isActiveParticipantPinned w = true) ->
  window_room w = Some r ->
  rooms w !! r = Some rm ->
  active_selectable w ->
  selectable A w ->
  let resolved := default (lp_self (localParticipant rm)) (dominantSpeaker rm) in
  let w' := exec (container_click A) (exec (container_click A) w) in
  activeParticipant w' = Some resolved
  ∧ isActiveParticipantPinned w' = false
  ∧ (activeParticipant w = Some resolved ->
     activeParticipant w' = activeParticipant w).
Proof.
  intros Hn Hw Hr Hsel HA resolved w'.
  destruct (container_click_pins A w Hn Hsel) as (d1 & v1 & E1).
  assert (Hs : selection w' = (Some resolved, false)).
  { subst w'. rewrite E1.
    match goal with |- context [exec _ ?w1] =>
      destruct (container_click_unpins A w1 r rm) as (d2 & v2 & ->) end;
      try reflexivity; assumption. }
  unfold selection in Hs. injection Hs as H1 H2.
  split; [exact H1|split; [exact H2|]]. intros Ha. congruence.
Qed.

(** ** Joining without a local video track *)

(** C9: when the local participant of the connected room has no video
    track, the [connect] callback throws on its second statement: the
    only effect is [window.room]; nothing is attached, no listener is
    registered, the active participant is not resolved, and the promise
    returned by [joinRoom] is rejected. *)
Theorem join_without_local_video (w : World) (j r : nat) (room : Room) :
  lp_videoTracks (localParticipant room) = [] ->
  joinRoom_connected j r room w = (Throw TypeError, set_window_room (Some r) w)
  ∧ (let w' := joinRoom j (ConnectFulfilled r room) w in
     promises w' !! j = Some Rejected
     ∧ participants_dom w' = participants_dom w
     ∧ calls w' = calls w
     ∧ attached w' = attached w
     ∧ room_listeners w' = room_listeners w
     ∧ trackPublished_listeners w' = trackPublished_listeners w
     ∧ publication_listeners w' = publication_listeners w
     ∧ leave_click w' = leave_click w
     ∧ activeParticipant w' = activeParticipant w
     ∧ window_room w' = Some r).
Proof.
  intros Hv.
  assert (E : forall w, joinRoom_connected j r room w =
                        (Throw TypeError, set_window_room (Some r) w)).
  { intros w0. unfold joinRoom_connected. rewrite Hv. reflexivity. }
  split; [apply E|]. unfold joinRoom. rewrite E. simpl.
  rewrite lookup_insert_eq. repeat split.
Qed.

(** ** Device selection *)

Lemma cached_insert_eq (kind : string) (o : option Devices.LocalTrack)
    (m : gmap string (option Devices.LocalTrack)) live rendered :
  Devices.cached kind
    {| Devices.localTracks := <[kind := o]> m;
       Devices.live := live; Devices.rendered := rendered |} = o.
Proof. unfold Devices.cached. simpl. rewrite lookup_insert_eq. reflexivity. Qed.

Lemma cached_insert_ne (kind k : string) (o : option Devices.LocalTrack)
    (m : gmap string (option Devices.LocalTrack)) live rendered live' rendered' :
  kind ≠ k ->
  Devices.cached k
    {| Devices.localTracks := <[kind := o]> m;
       Devices.live := live; Devices.rendered := rendered |} =
  Devices.cached k
    {| Devices.localTracks := m; Devices.live := live'; Devices.rendered := rendered' |}.
Proof.
  intros Hne. unfold Devices.cached. simpl.
  rewrite lookup_insert_ne by exact Hne. reflexivity.
Qed.

Lemma live_stop (t u : Devices.LocalTrack) (s : Devices.State) :
  In u (Devices.live (Devices.stop t s)) <-> In u (Devices.live s) ∧ u ≠ t.
Proof.
  unfold Devices.stop. simpl. rewrite filter_In.
  rewrite negb_true_iff, bool_decide_eq_false. reflexivity.
Qed.

(** C8: when [createLocalTracks] is rejected, the promise returned by
    [applyInputDevice] is rejected and the module state is what it was:
    the cache keeps its entry for the kind and no track is stopped. *)
Theorem capture_failure_leaves_cache (kind deviceId : string) (s : Devices.State) :
  let ps := Devices.applyInputDevice kind deviceId Devices.CreateFailed s in
  ps.1 = Rejected
  ∧ ps.2 = s
  ∧ Devices.cached kind ps.2 = Devices.cached kind s
  ∧ Devices.live ps.2 = Devices.live s.
Proof. repeat split. Qed.

(** The claim fails between the creation of a track and the callback that
    stops its predecessor: after a first camera has been applied, a
    second one is capturing on entry of the callback while the first is
    still cached and capturing. *)
Lemma two_cameras_live_on_callback_entry :
  let s1 := (Devices.applyInputDevice "video" "camera-1" (Devices.Created 1)
                                      Devices.initial).2 in
  let ts := Devices.createLocalTracks "video" 2 s1 in
  let first := {| Devices.lt_ref := 1; Devices.lt_kind := "video" |} in
  Devices.cached "video" ts.2 = Some first
  ∧ Devices.live ts.2 = [ts.1; first]
  ∧ ts.1 ≠ first
  ∧ Devices.lt_kind ts.1 = Devices.lt_kind first.
Proof. vm_compute. repeat split. discriminate. Qed.

Lemma only_cached_live_step (s : Devices.State) (e : Devices.Event) :
  Devices.only_cached_live s -> Devices.only_cached_live (Devices.step s e).
Proof.
  intros Hs. destruct e as [kind dev [ref|] | kind]; simpl; [| exact Hs |].
  - set (new := {| Devices.lt_ref := ref; Devices.lt_kind := kind |}).
    unfold Devices.applyInputDevice_then.
    intros t Ht. simpl in Ht.
    assert (Hold : t = new ∨ (In t (Devices.live s) ∧ Devices.cached kind s ≠ Some t)).
    { unfold Devices.cached in *. simpl in Ht.
      destruct (mjoin (Devices.localTracks s !! kind)) as [prev|] eqn:Hc.
      - apply live_stop in Ht as [Ht Hne]. simpl in Ht.
        destruct Ht as [<-|Ht]; [left; reflexivity|right].
        split; [exact Ht|congruence].
      - simpl in Ht. destruct Ht as [<-|Ht]; [left; reflexivity|right].
        split; [exact Ht|congruence]. }
    destruct Hold as [->|[Hin Hnc]].
    + apply cached_insert_eq.
    + assert (Hk : kind ≠ Devices.lt_kind t).
      { intros ->. apply Hnc, Hs, Hin. }
      unfold Devices.cached in *. simpl.
      destruct (mjoin (Devices.localTracks s !! kind)); simpl;
        rewrite lookup_insert_ne by exact Hk; apply Hs, Hin.
  - unfold Devices.onHide.
    destruct (Devices.cached kind s) as [t0|] eqn:Hc; [|exact Hs].
    intros t Ht. simpl in Ht. apply live_stop in Ht as [Hin Hne].
    assert (Hk : kind ≠ Devices.lt_kind t).
    { intros ->. apply Hne. specialize (Hs t Hin). congruence. }
    unfold Devices.cached in *. simpl.
    rewrite lookup_insert_ne by exact Hk. apply Hs, Hin.
Qed.

(** C10, amended: whenever no handler of the device-selection flow is
    running, every capturing track is the cached track of its kind, so at
    most one per kind is capturing.  A successful [applyInputDevice]
    stops the previously cached track of the kind before it caches the
    new one, which is already capturing at that moment; closing the modal
    stops the cached track and clears the entry. *)
Theorem one_live_track_per_kind_between_handlers :
  (forall es : list Devices.Event,
      let s := Devices.run es Devices.initial in
      Devices.only_cached_live s
      ∧ (forall t u, In t (Devices.live s) -> In u (Devices.live s) ->
                     Devices.lt_kind t = Devices.lt_kind u -> t = u))
  ∧ (forall (s : Devices.State) (kind deviceId : string) (ref : nat)
            (previous : Devices.LocalTrack),
      Devices.cached kind s = Some previous ->
      previous ≠ {| Devices.lt_ref := ref; Devices.lt_kind := kind |} ->
      let s' := (Devices.applyInputDevice kind deviceId (Devices.Created ref) s).2 in
      ¬ In previous (Devices.live s')
      ∧ Devices.cached kind s' = Some {| Devices.lt_ref := ref; Devices.lt_kind := kind |})
  ∧ (forall (s : Devices.State) (kind : string) (t : Devices.LocalTrack),
      Devices.cached kind s = Some t ->
      ¬ In t (Devices.live (Devices.onHide kind s))
      ∧ Devices.cached kind (Devices.onHide kind s) = None).
Proof.
  split; [|split].
  - intros es s.
    assert (Hs : Devices.only_cached_live s).
    { subst s. unfold Devices.run.
      assert (H0 : Devices.only_cached_live Devices.initial) by (intros t []).
      revert H0. generalize Devices.initial as s0.
      induction es as [|e es IH]; intros s0 H0; simpl; [exact H0|].
      apply IH, only_cached_live_step, H0. }
    split; [exact Hs|]. intros t u Ht Hu Hk.
    pose proof (Hs t Ht) as H1. pose proof (Hs u Hu) as H2.
    rewrite Hk in H1. congruence.
  - intros s kind dev ref previous Hc Hne s'. subst s'. simpl.
    unfold Devices.applyInputDevice_then.
    assert (Hc' : Devices.cached kind
              {| Devices.localTracks := Devices.localTracks s;
                 Devices.live := {| Devices.lt_ref := ref; Devices.lt_kind := kind |}
                                 :: Devices.live s;
                 Devices.rendered := Devices.rendered s |} = Some previous) by exact Hc.
    rewrite Hc'. split; [|apply cached_insert_eq].
    cbn [Devices.live]. intros Hin. apply live_stop in Hin. tauto.
  - intros s kind t Hc. unfold Devices.onHide. rewrite Hc.
    split; [|apply cached_insert_eq].
    cbn [Devices.live]. intros Hin. apply live_stop in Hin. tauto.
Qed.

(** ** What a successful setup leaves behind *)

Lemma setActiveParticipant_normal (p : Participant) (w w' : World) :
  setActiveParticipant p w = (Normal tt, w') ->
  exists d s,
    w' = set_activeVideo (Some (Some s)) (set_dom d (set_activeParticipant (Some p) w)).
Proof.
  unfold setActiveParticipant, select, select_video. js_unfold. simpl.
  destruct (activeParticipant w) as [ap|] eqn:Ha; simpl;
    [destruct (container_selector (browser w) (p_identity ap)); simpl|];
    try discriminate;
    (destruct (container_selector (browser w) (p_identity p)); simpl;
     [|discriminate]);
    destruct (isActiveParticipantPinned w) eqn:Hp; simpl;
    (destruct (video_selector (browser w) (p_identity p)); simpl;
     [|discriminate]);
    destruct (activeVideo w) eqn:Hv; simpl;
    repeat match goal with |- context [head ?l] => destruct (head l) end;
    simpl; intros H; inversion H; subst;
    eexists; eexists; unfold set_activeVideo, set_dom, set_activeParticipant;
    simpl; rewrite ?Ha, ?Hp, ?Hv; f_equal.
Qed.

Lemma setCurrentActiveParticipant_normal (r : nat) (w w' : World) :
  setCurrentActiveParticipant (Some r) w = (Normal tt, w') ->
  exists rm d s,
    rooms w !! r = Some rm
    ∧ w' = set_activeVideo (Some (Some s))
             (set_dom d
                (set_activeParticipant
                   (Some (default (lp_self (localParticipant rm)) (dominantSpeaker rm))) w)).
Proof.
  unfold setCurrentActiveParticipant, bind, get. simpl.
  destruct (rooms w !! r) as [rm|] eqn:Hr; [|discriminate].
  intros H. apply setActiveParticipant_normal in H as (d & s & ->).
  exists rm, d, s. split; reflexivity.
Qed.

Lemma joinRoom_connected_normal (j r : nat) (room : Room) (w w' : World) :
  joinRoom_connected j r room w = (Normal tt, w') ->
  exists pub rest,
    lp_videoTracks (localParticipant room) = pub :: rest
    ∧ room_listeners w' =
        room_listeners w ++
          [(r, OnParticipantConnected); (r, OnParticipantDisconnected);
           (r, OnDominantSpeakerChanged); (r, OnceDisconnected (ltp_track pub) j)]
    ∧ is_Some (activeVideo w')
    ∧ rooms w' = rooms w
    ∧ promises w' = promises w
    ∧ window_room w' = Some r
    ∧ leave_click w' = leave_click w ++ [r]
    ∧ beforeunload w' =
        (if has_onbeforeunload (browser w) then beforeunload w ++ [r] else beforeunload w)
    ∧ pagehide w' =
        (if isMobile (browser w) && is_safari (browser w) && has_onpagehide (browser w)
         then pagehide w ++ [r] else pagehide w)
    ∧ isActiveParticipantPinned w' = isActiveParticipantPinned w.
Proof.
  unfold joinRoom_connected.
  destruct (lp_videoTracks (localParticipant room)) as [|pub rest] eqn:Hv.
  { unfold bind, modify, throw. discriminate. }
  intros H. exists pub, rest. split; [reflexivity|].
  unfold bind at 1 in H. unfold modify at 1 in H.
  set (w1 := set_window_room (Some r) w) in H.
  unfold bind at 1 in H.
  destruct (run_media (attachVideoTrack (ltp_track pub) (lp_self (localParticipant room))) w1)
    as (a2 & w2 & E2 & F2).
  { apply (nothrow_attachTrack {| track_ref := track_ref (ltp_track pub); track_kind := video |}). }
  { intros w0. apply (media_attachTrack w0 {| track_ref := track_ref (ltp_track pub); track_kind := video |}). }
  rewrite E2 in H. unfold bind at 1 in H.
  destruct (run_media (forEach participantConnected (participants room)) w2)
    as (a3 & w3 & E3 & F3).
  { apply nothrow_forEach, nothrow_participantConnected. }
  { intros w0. apply inv_forEach. intros x. apply media_participantConnected. }
  rewrite E3 in H.
  unfold bind at 1 in H. unfold register at 1, modify at 1 in H.
  unfold bind at 1 in H. unfold register at 1, modify at 1 in H.
  set (w4 := set_room_listeners _ (set_room_listeners _ w3)) in H.
  unfold bind at 1 in H.
  destruct (setCurrentActiveParticipant (Some r) w4) as [[[]|e] w5] eqn:E5;
    [|discriminate].
  apply setCurrentActiveParticipant_normal in E5 as (rm & d & s & Hr & ->).
  unfold register, bind, modify, get in H. simpl in H.
  destruct F2 as (A2 & P2 & W2 & V2 & L2 & B2 & G2 & R2 & M2 & N2 & Q2).
  destruct F3 as (A3 & P3 & W3 & V3 & L3 & B3 & G3 & R3 & M3 & N3 & Q3).
  subst w1. simpl in *.
  rewrite R3, R2 in H.
  destruct (has_onbeforeunload (browser w));
    destruct (isMobile (browser w) && is_safari (browser w) && has_onpagehide (browser w));
    simpl in H; unfold ret in H; inversion H; subst w'; simpl;
    rewrite ?N3, ?N2, ?M3, ?M2, ?Q3, ?Q2, ?L3, ?L2, ?B3, ?B2, ?G3, ?G2, ?P3, ?P2;
    rewrite <- ?app_assoc; simpl; repeat split; eauto; congruence.
Qed.

(** ** Detaching and teardown in closed form *)

Lemma forEach_modify_dom (els : list nat) (w : World) :
  forEach (fun e => modify (fun w => set_dom (remove_media e (participants_dom w)) w)) els w =
  (Normal tt, set_dom (fold_left (fun d e => remove_media e d) els (participants_dom w)) w).
Proof.
  revert w. induction els as [|e els IH]; intros w; simpl.
  - unfold ret. destruct w; reflexivity.
  - unfold bind, modify. rewrite IH. reflexivity.
Qed.

Lemma detachTrack_closed (t : Track) (p : Participant) (w : World) :
  detachTrack t p w = (detach_outcome t p w, detached t p w).
Proof.
  unfold detachTrack, detached, detached_dom, detach_outcome.
  unfold bind at 1. unfold track_detach.
  destruct (track_kind t) eqn:Hk; [| |reflexivity].
  - unfold bind at 1. rewrite forEach_modify_dom. reflexivity.
  - unfold bind at 1. rewrite forEach_modify_dom.
    unfold bind at 1, select, bind, get. cbn [browser set_dom set_tracks].
    destruct (container_selector (browser w) (p_identity p)); reflexivity.
Qed.

(** Detaching never loses the page: whatever its outcome, the world it
    leaves differs from the one it found in the DOM and in the state of
    the track only. *)
Lemma detached_frame (t : Track) (p : Participant) (w : World) :
  exists d a c, detached t p w = set_dom d (set_tracks a c (next_el w) w).
Proof.
  unfold detached. destruct (track_kind t);
    [eexists; eexists; eexists; reflexivity ..|].
  exists (participants_dom w), (attached w), (calls w). destruct w; reflexivity.
Qed.

Lemma detached_facts (t : Track) (p : Participant) (w : World) :
  let w' := detached t p w in
  calls w' = calls w ++ detach_log t
  ∧ except_media w w'
  ∧ publication_listeners w' = publication_listeners w
  ∧ trackPublished_listeners w' = trackPublished_listeners w.
Proof.
  unfold detached, detach_log. destruct (track_kind t); simpl;
    repeat split; symmetry; apply app_nil_r.
Qed.

Lemma detach_outcome_frame (t : Track) (p : Participant) (w w' : World) :
  browser w' = browser w -> detach_outcome t p w' = detach_outcome t p w.
Proof. intros H. unfold detach_outcome. rewrite H. reflexivity. Qed.

Lemma teardown_closed (r : nat) (rm : Room) (t : Track) (j : nat) (w : World) :
  rooms w !! r = Some rm ->
  is_Some (activeVideo w) ->
  detach_outcome t (lp_self (localParticipant rm)) w = Normal tt ->
  teardown r t j w = (Normal tt, teardown_end (lp_self (localParticipant rm)) t j w).
Proof.
  intros Hr [v Hv] Hd. unfold teardown, room_get, teardown_end.
  unfold bind at 1. unfold bind at 1. unfold get at 1. rewrite Hr. unfold ret at 1.
  unfold bind at 1. rewrite detachTrack_closed, Hd.
  destruct (detached_frame t (lp_self (localParticipant rm)) w) as (d & a & c & ->).
  unfold bind at 1. unfold bind at 1. unfold get at 1.
  cbn [activeVideo set_dom set_tracks]. rewrite Hv.
  unfold modify at 1. unfold bind at 1. unfold modify at 1.
  unfold resolve, modify. reflexivity.
Qed.

(** When the detachment throws, the teardown closure ends there. *)
Lemma teardown_aborted (r : nat) (rm : Room) (t : Track) (j : nat) (w : World) (e : JsError) :
  rooms w !! r = Some rm ->
  detach_outcome t (lp_self (localParticipant rm)) w = Throw e ->
  teardown r t j w = (Throw e, detached t (lp_self (localParticipant rm)) w).
Proof.
  intros Hr Hd. unfold teardown, room_get.
  unfold bind at 1. unfold bind at 1. unfold get at 1. rewrite Hr. unfold ret at 1.
  unfold bind at 1. rewrite detachTrack_closed, Hd. reflexivity.
Qed.

(** The ways the teardown closure can end. *)
Lemma teardown_cases (r : nat) (t : Track) (j : nat) (w : World) :
  (rooms w !! r = None ∧ teardown r t j w = (Throw TypeError, w))
  ∨ (exists rm e, rooms w !! r = Some rm
       ∧ teardown r t j w = (Throw e, detached t (lp_self (localParticipant rm)) w))
  ∨ (exists rm, rooms w !! r = Some rm ∧ is_Some (activeVideo w)
       ∧ detach_outcome t (lp_self (localParticipant rm)) w = Normal tt
       ∧ teardown r t j w =
         (Normal tt, teardown_end (lp_self (localParticipant rm)) t j w)).
Proof.
  destruct (rooms w !! r) as [rm|] eqn:Hr.
  - right.
    destruct (detach_outcome t (lp_self (localParticipant rm)) w) as [[]|e] eqn:Hd.
    + destruct (activeVideo w) as [v|] eqn:Hv.
      * right. exists rm. split; [reflexivity|]. split; [eauto|]. split; [exact Hd|].
        apply teardown_closed; [exact Hr|rewrite Hv; eauto|exact Hd].
      * left. exists rm, TypeError. split; [reflexivity|].
        unfold teardown, room_get.
        unfold bind at 1. unfold bind at 1. unfold get at 1. rewrite Hr. unfold ret at 1.
        unfold bind at 1. rewrite detachTrack_closed, Hd.
        destruct (detached_frame t (lp_self (localParticipant rm)) w) as (d & a & c & ->).
        unfold bind at 1. unfold bind at 1. unfold get at 1.
        cbn [activeVideo set_dom set_tracks]. rewrite Hv. reflexivity.
    + left. exists rm, e. split; [reflexivity|].
      apply teardown_aborted; assumption.
  - left. split; [reflexivity|]. unfold teardown, room_get.
    unfold bind at 1. unfold bind at 1. unfold get at 1. rewrite Hr. reflexivity.
Qed.

(** ** Emitting [disconnected] *)

Lemma filter_remove_first_nil {A} `{EqDecision A} (f : A -> bool) (x : A) (l : list A) :
  List.filter f l = [] -> List.filter f (remove_first x l) = [].
Proof.
  induction l as [|y l IH]; simpl; [reflexivity|].
  destruct (f y) eqn:Hy; [discriminate|]. intros Hl.
  destruct (decide (x = y)); [exact Hl|]. simpl. rewrite Hy. apply IH, Hl.
Qed.

Lemma filter_remove_first_single {A} `{EqDecision A} (f : A -> bool) (x : A) (l : list A) :
  List.filter f l = [x] -> List.filter f (remove_first x l) = [].
Proof.
  induction l as [|y l IH]; simpl; [discriminate|].
  destruct (f y) eqn:Hy.
  - intros Hl. injection Hl as -> Hl.
    destruct (decide (x = x)); [exact Hl|congruence].
  - intros Hl. destruct (decide (x = y)) as [->|Hne].
    + assert (Hin : In y (List.filter f l)) by (rewrite Hl; left; reflexivity).
      apply filter_In in Hin as [_ Hfy]. congruence.
    + simpl. rewrite Hy. apply IH, Hl.
Qed.

Lemma listeners_for_nil (r : nat) (ev : RoomEvent) (w : World) :
  listeners_for r ev w = [] ->
  List.filter (fun rl => bool_decide (rl.1 = r) && listens rl.2 ev) (room_listeners w) = [].
Proof.
  unfold listeners_for. destruct (List.filter _ _); [reflexivity|discriminate].
Qed.

Lemma listeners_for_single (r : nat) (ev : RoomEvent) (l : RoomListener) (w : World) :
  listeners_for r ev w = [l] ->
  List.filter (fun rl => bool_decide (rl.1 = r) && listens rl.2 ev) (room_listeners w)
  = [(r, l)].
Proof.
  unfold listeners_for.
  destruct (List.filter _ _) as [|[r' l'] [|? ?]] eqn:Hf; simpl; try discriminate.
  intros H; injection H as ->.
  assert (Hin : In (r', l) (List.filter (fun rl => bool_decide (rl.1 = r) && listens rl.2 ev)
                                       (room_listeners w)))
    by (rewrite Hf; left; reflexivity).
  apply filter_In in Hin as [_ Hp]. apply andb_true_iff in Hp as [Hp _].
  apply bool_decide_eq_true in Hp. simpl in Hp. subst r'. reflexivity.
Qed.

(** With no listener for it, an emission does nothing. *)
Lemma room_emit_none (r : nat) (ev : RoomEvent) (w : World) :
  listeners_for r ev w = [] -> room_emit r ev w = (Normal tt, w).
Proof.
  intros Hl. unfold room_emit, bind, get. rewrite Hl. reflexivity.
Qed.

(** With one listener, an emission is that listener. *)
Lemma room_emit_one (r : nat) (ev : RoomEvent) (l : RoomListener) (w : World) :
  listeners_for r ev w = [l] ->
  room_emit r ev w =
  room_listener r l ev
    (if is_once l then set_room_listeners (remove_first (r, l) (room_listeners w)) w
     else w).
Proof.
  intros Hl. unfold room_emit, bind, get. rewrite Hl.
  unfold forEach, bind, modify, ret.
  destruct (is_once l); simpl;
    match goal with |- context [room_listener r l ev ?w1] =>
      destruct (room_listener r l ev w1) as [[[]|e] w'] end; reflexivity.
Qed.

(** The [disconnected] event of the live session runs its teardown to the
    end and leaves no session. *)
Lemma live_disconnected (r : nat) (rm : Room) (t : Track) (j : nat) (w : World) :
  session_live r t j w ->
  rooms w !! r = Some rm ->
  detach_outcome t (lp_self (localParticipant rm)) w = Normal tt ->
  room_emit r EvDisconnected w =
    (Normal tt, torn_down r (lp_self (localParticipant rm)) t j w)
  ∧ no_session (torn_down r (lp_self (localParticipant rm)) t j w).
Proof.
  intros (_ & Hv & Hl & Ho) Hr Hd. split.
  - rewrite (room_emit_one r EvDisconnected _ w Hl). simpl.
    rewrite (teardown_closed r rm); [reflexivity| exact Hr | exact Hv | exact Hd].
  - intros r'.
    assert (Hrl : room_listeners (torn_down r (lp_self (localParticipant rm)) t j w)
                  = remove_first (r, OnceDisconnected t j) (room_listeners w)).
    { unfold torn_down, teardown_end. cbv zeta.
      match goal with |- context [detached ?t ?p ?w0] =>
        destruct (detached_frame t p w0) as (d & a & c & ->) end.
      match goal with |- context [match ?o with _ => _ end] =>
        destruct o as [[]|] end; reflexivity. }
    unfold listeners_for. rewrite Hrl.
    destruct (decide (r' = r)) as [->|Hne].
    + rewrite filter_remove_first_single; [reflexivity|].
      apply listeners_for_single, Hl.
    + rewrite filter_remove_first_nil; [reflexivity|].
      apply listeners_for_nil, Ho, Hne.
Qed.

(** ** Asking for a teardown *)

Lemma set_leave_click_id (w : World) : set_leave_click (leave_click w) w = w.
Proof. destruct w; reflexivity. Qed.

Lemma dispatch_noop {A} (f : A -> M unit) (xs : list A) (w : World) :
  (forall x, f x w = (Normal tt, w)) -> dispatch f xs w = (Normal tt, w).
Proof.
  intros Hf. induction xs as [|x xs IH]; simpl; [reflexivity|].
  rewrite Hf, IH. reflexivity.
Qed.

(** Once no session is left, the leave handlers only take themselves off
    the button. *)
Lemma leave_after_teardown (xs : list nat) (w : World) :
  no_session w ->
  exists l, forEach onLeave xs w = (Normal tt, set_leave_click l w).
Proof.
  revert w. induction xs as [|x xs IH]; intros w Hn; simpl.
  - exists (leave_click w). rewrite set_leave_click_id. reflexivity.
  - unfold bind at 1. unfold onLeave at 1. unfold bind at 1, modify at 1.
    unfold room_disconnect. rewrite room_emit_none by apply Hn.
    destruct (IH (set_leave_click (remove_first x (leave_click w)) w)) as [l Hl].
    { intros r'. apply Hn. }
    rewrite Hl. exists l. reflexivity.
Qed.

(** After the teardown, a trigger changes nothing that can be observed,
    and does not throw. *)
Lemma trigger_after_teardown (r : nat) (e : Event) (w : World) :
  no_session w ->
  is_trigger r e = true ->
  outcome (handle e) w = Normal tt
  ∧ observable (step w e) = observable w
  ∧ no_session (step w e).
Proof.
  intros Hn He. unfold step, exec, outcome.
  destruct e; simpl in He; try discriminate; simpl.
  - rewrite room_emit_none by apply Hn. repeat split. exact Hn.
  - unfold bind, get. destruct (leave_after_teardown (leave_click w) w Hn) as [l ->].
    simpl. repeat split. intros r'. apply Hn.
  - unfold bind, get. rewrite dispatch_noop.
    + repeat split. exact Hn.
    + intros x. apply room_emit_none, Hn.
  - unfold bind, get. rewrite dispatch_noop.
    + repeat split. exact Hn.
    + intros x. apply room_emit_none, Hn.
Qed.

Lemma triggers_after_teardown (r : nat) (es : list Event) (w : World) :
  no_session w ->
  Forall (fun e => is_trigger r e = true) es ->
  run_ok es w ∧ observable (run es w) = observable w ∧ no_session (run es w).
Proof.
  intros Hn Hes. revert w Hn.
  induction Hes as [|e es He Hes IH]; intros w Hn; simpl.
  - repeat split. exact Hn.
  - destruct (trigger_after_teardown r e w Hn He) as (Ho & Hobs & Hn').
    destruct (IH (step w e) Hn') as (Hok & Hobs' & Hn'').
    repeat split; try assumption. congruence.
Qed.

Section LiveSession.
Variables (r : nat) (rm : Room) (t : Track) (j : nat).
Let lp := lp_self (localParticipant rm).

Lemma session_live_leave (l : list nat) (w : World) :
  session_live r t j w -> session_live r t j (set_leave_click l w).
Proof. intros H; exact H. Qed.

Lemma torn_down_leave (l : list nat) (w : World) :
  torn_down r lp t j (set_leave_click l w) = set_leave_click l (torn_down r lp t j w).
Proof.
  unfold torn_down, teardown_end, detached, detached_dom. cbv zeta.
  destruct (track_kind t); simpl;
    match goal with |- context [promises w !! j] =>
      destruct (promises w !! j) as [[]|] end; reflexivity.
Qed.

(** The page-level listeners: the first one closed over the live room
    tears it down, the others find nothing to do. *)
Lemma dispatch_live (xs : list nat) (w : World) :
  session_live r t j w ->
  rooms w !! r = Some rm ->
  detach_outcome t lp w = Normal tt ->
  r ∈ xs ->
  dispatch room_disconnect xs w = (Normal tt, torn_down r lp t j w).
Proof.
  intros Hs Hr Hd. induction xs as [|x xs IH]; intros Hin.
  - apply elem_of_nil in Hin as [].
  - simpl. unfold room_disconnect at 1.
    destruct (decide (x = r)) as [->|Hne].
    + destruct (live_disconnected r rm t j w Hs Hr Hd) as [-> Hn].
      rewrite dispatch_noop; [reflexivity|].
      intros y. apply room_emit_none, Hn.
    + destruct Hs as (H1 & H2 & H3 & Ho).
      rewrite room_emit_none by (apply Ho, Hne).
      rewrite IH; [reflexivity|].
      apply elem_of_cons in Hin as [->|Hin]; [congruence|exact Hin].
Qed.

(** The leave handlers likewise. *)
Lemma leave_live (xs l : list nat) (w : World) :
  session_live r t j w ->
  rooms w !! r = Some rm ->
  detach_outcome t lp w = Normal tt ->
  r ∈ xs ->
  exists l', forEach onLeave xs (set_leave_click l w) =
             (Normal tt, set_leave_click l' (torn_down r lp t j w)).
Proof.
  intros Hs Hr Hd. revert l. induction xs as [|x xs IH]; intros l Hin.
  - apply elem_of_nil in Hin as [].
  - simpl. unfold bind at 1. unfold onLeave at 1. unfold bind at 1, modify at 1.
    unfold room_disconnect. cbn [leave_click set_leave_click].
    change (set_leave_click ?a (set_leave_click ?b ?w)) with (set_leave_click a w).
    destruct (decide (x = r)) as [->|Hne].
    + destruct (live_disconnected r rm t j (set_leave_click (remove_first r l) w))
        as [-> Hn]; [apply session_live_leave, Hs | exact Hr | exact Hd |].
      fold lp in Hn |- *. rewrite torn_down_leave in Hn |- *.
      destruct (leave_after_teardown xs _ Hn) as [l' ->].
      exists l'. reflexivity.
    + destruct Hs as (H1 & H2 & H3 & Ho).
      rewrite room_emit_none by (apply Ho, Hne).
      apply IH. apply elem_of_cons in Hin as [->|Hin]; [congruence|exact Hin].
Qed.

(** A wired trigger on the live session tears it down. *)
Lemma trigger_live (e : Event) (w : World) :
  session_live r t j w ->
  rooms w !! r = Some rm ->
  detach_outcome t lp w = Normal tt ->
  is_trigger r e = true ->
  wired r e w = true ->
  outcome (handle e) w = Normal tt
  ∧ observable (step w e) = observable (torn_down r lp t j w)
  ∧ no_session (step w e).
Proof.
  intros Hs Hr Hdo He Hw. unfold step, exec, outcome.
  destruct (live_disconnected r rm t j w Hs Hr Hdo) as [Hd Hn]. fold lp in Hd, Hn.
  destruct e; simpl in He; try discriminate; simpl in Hw; simpl.
  - apply bool_decide_eq_true in Hw. subst. rewrite Hd. repeat split. exact Hn.
  - apply bool_decide_eq_true in Hw. unfold bind, get.
    destruct (leave_live (leave_click w) (leave_click w) w Hs Hr Hdo Hw) as [l' Hl].
    rewrite set_leave_click_id in Hl. rewrite Hl. simpl.
    repeat split. intros r'. apply Hn.
  - apply bool_decide_eq_true in Hw. unfold bind, get.
    rewrite (dispatch_live _ w Hs Hr Hdo Hw). repeat split. exact Hn.
  - apply bool_decide_eq_true in Hw. unfold bind, get.
    rewrite (dispatch_live _ w Hs Hr Hdo Hw). repeat split. exact Hn.
Qed.
End LiveSession.

Lemma detach_outcome_kind (t : Track) (p : Participant) (w : World) :
  detach_outcome t p w = Normal tt -> track_kind t ≠ data.
Proof. unfold detach_outcome. destruct (track_kind t); discriminate. Qed.

Lemma torn_down_facts (r : nat) (lp : Participant) (t : Track) (j : nat) (w : World) :
  track_kind t ≠ data ->
  let w' := torn_down r lp t j w in
  calls w' = calls w ++ [CDetach (track_ref t)]
  ∧ activeVideo w' = Some None
  ∧ window_room w' = None
  ∧ (promises w !! j = Some Pending -> promises w' !! j = Some Fulfilled)
  ∧ (forall i, i ≠ j -> promises w' !! i = promises w !! i).
Proof.
  intros Hk. unfold torn_down, teardown_end, detached. cbv zeta.
  destruct (track_kind t); [| |congruence];
    cbn [promises set_window_room set_activeVideo set_dom set_tracks set_room_listeners];
    (destruct (promises w !! j) as [[]|] eqn:Hp; simpl; repeat split;
     try discriminate; try reflexivity;
     [intros _; apply lookup_insert_eq
     |intros i Hi; apply lookup_insert_ne; congruence]).
Qed.

(** A session set up by [joinRoom] on a page without another session is
    live; in particular the active video element is there, as the setup
    has written to it. *)
Lemma joinRoom_session_live (w : World) (j r : nat) (room : Room) :
  no_session w ->
  promises (joinRoom j (ConnectFulfilled r room) w) !! j = Some Pending ->
  exists pub rest,
    lp_videoTracks (localParticipant room) = pub :: rest
    ∧ session_live r (ltp_track pub) j (joinRoom j (ConnectFulfilled r room) w)
    ∧ rooms (joinRoom j (ConnectFulfilled r room) w) !! r = Some room.
Proof.
  intros Hn. unfold joinRoom.
  set (w1 := set_rooms _ _).
  destruct (joinRoom_connected j r room w1) as [[[]|e] w'] eqn:E.
  - intros _. apply joinRoom_connected_normal in E
      as (pub & rest & Hv & Hl & Hav & Hr & _).
    exists pub, rest. split; [exact Hv|].
    assert (Hroom : rooms w' !! r = Some room).
    { rewrite Hr. subst w1. simpl. apply lookup_insert_eq. }
    split; [|exact Hroom].
    split; [rewrite Hroom; eauto|]. split; [exact Hav|].
    assert (Hf : forall r', listeners_for r' EvDisconnected w' =
                 if bool_decide (r = r') then [OnceDisconnected (ltp_track pub) j] else []).
    { intros r'. unfold listeners_for. rewrite Hl. rewrite List.filter_app, map_app.
      pose proof (Hn r') as Hr'. unfold listeners_for in Hr'.
      subst w1. simpl in *. rewrite Hr'. simpl.
      rewrite !andb_false_r. destruct (bool_decide (r = r')); reflexivity. }
    split.
    + rewrite Hf. rewrite bool_decide_eq_true_2; reflexivity.
    + intros r' Hne. rewrite Hf. rewrite bool_decide_eq_false_2; [reflexivity|congruence].
  - simpl. rewrite lookup_insert_eq. discriminate.
Qed.

(** On a live session whose teardown closure returns (the local track is
    a video track and jQuery accepts the selector built from the local
    identity), once a trigger has reached the teardown, any further
    triggers, from any of the sources, change nothing that can be
    observed and none of them throws: the result is the one of a single
    [disconnected] event, with the local track detached once, the active
    video cleared and [window.room] released. *)
Theorem teardown_happens_once
    (w : World) (r : nat) (t : Track) (j : nat) (e : Event) (es : list Event) :
  session_live r t j w ->
  teardown_returns r t w ->
  is_trigger r e = true ->
  wired r e w = true ->
  Forall (fun e => is_trigger r e = true) es ->
  let w' := run (e :: es) w in
  run_ok (e :: es) w
  ∧ observable w' = observable (step w e)
  ∧ observable w' = observable (step w (RoomDisconnected r))
  ∧ calls w' = calls w ++ [CDetach (track_ref t)]
  ∧ activeVideo w' = Some None
  ∧ window_room w' = None
  ∧ no_session w'.
Proof.
  intros Hs Hret He Hw Hes w'.
  assert (Hrm : exists rm, rooms w !! r = Some rm) by (destruct Hs as ([rm Hr] & _); eauto).
  destruct Hrm as [rm Hr]. specialize (Hret rm Hr).
  destruct (trigger_live r rm t j e w Hs Hr Hret He Hw) as (Ho & Hobs & Hn).
  destruct (trigger_live r rm t j (RoomDisconnected r) w Hs Hr Hret) as (_ & Hobs1 & _);
    [simpl; apply bool_decide_eq_true_2; reflexivity
    |simpl; apply bool_decide_eq_true_2; reflexivity|].
  destruct (triggers_after_teardown r es (step w e) Hn Hes) as (Hok & Hobs' & Hn').
  assert (Hfin : observable w' = observable (torn_down r (lp_self (localParticipant rm)) t j w)).
  { subst w'. simpl. rewrite Hobs'. exact Hobs. }
  destruct (torn_down_facts r (lp_self (localParticipant rm)) t j w
              (detach_outcome_kind _ _ _ Hret))
    as (Hc & Hv & Hwr & _).
  split; [split; assumption|].
  split; [subst w'; simpl; exact Hobs'|].
  split; [rewrite Hfin, Hobs1; reflexivity|].
  split; [change (calls (observable w') = calls w ++ [CDetach (track_ref t)]);
          rewrite Hfin; exact Hc|].
  split; [change (activeVideo (observable w') = Some None); rewrite Hfin; exact Hv|].
  split; [change (window_room (observable w') = None); rewrite Hfin; exact Hwr|].
  exact Hn'.
Qed.

(** ** The promise returned by [joinRoom] *)

Lemma media_inv {A} (m : M A) (I : World -> Prop) :
  (forall w w', except_media w w' -> I w -> I w') ->
  (forall w0, inv (except_media w0) m) ->
  inv I m.
Proof.
  intros HI Hm w Hw. apply (HI w); [|exact Hw].
  apply (Hm w w), except_media_refl.
Qed.

Lemma inv_forEach_in {A} I (f : A -> M unit) xs :
  (forall x, In x xs -> inv I (f x)) -> inv I (forEach f xs).
Proof.
  induction xs as [|x xs IH]; intros Hf; simpl.
  - apply inv_ret.
  - apply inv_bind; [apply Hf; left; reflexivity|].
    intros _. apply IH. intros y Hy. apply Hf. right. exact Hy.
Qed.

Lemma inv_dispatch_in {A} I (f : A -> M unit) xs :
  (forall x, In x xs -> inv I (f x)) -> inv I (dispatch f xs).
Proof.
  induction xs as [|x xs IH]; intros Hf; simpl.
  - apply inv_ret.
  - intros w H. assert (Hx : inv I (f x)) by (apply Hf; left; reflexivity).
    specialize (Hx w H). destruct (f x w) as [c w']; simpl in Hx.
    assert (Hxs : inv I (dispatch f xs)) by (apply IH; intros y Hy; apply Hf; right; exact Hy).
    specialize (Hxs w' Hx).
    destruct (dispatch f xs w') as [c' w'']; simpl in *. exact Hxs.
Qed.

(** Nothing but [resolve], and [joinRoom] for its own promise, writes to
    a promise. *)
Section PromiseFrame.
Variables (j : nat) (X : option Promise).
Let I (w : World) : Prop := promises w !! j = X.

Lemma I_media w w' : except_media w w' -> I w -> I w'.
Proof. intros (_&_&_&_&_&_&_&_&_&_&Hp) H. unfold I in *. rewrite Hp. exact H. Qed.

Lemma promise_attachTrack t p : inv I (attachTrack t p).
Proof. apply media_inv; [apply I_media|]. intros w0. apply media_attachTrack. Qed.

Lemma promise_detachTrack t p : inv I (detachTrack t p).
Proof. apply media_inv; [apply I_media|]. intros w0. apply media_detachTrack. Qed.

Lemma promise_trackPublished pub p : inv I (trackPublished pub p).
Proof. apply media_inv; [apply I_media|]. intros w0. apply media_trackPublished. Qed.

Lemma promise_participantConnected p : inv I (participantConnected p).
Proof. apply media_inv; [apply I_media|]. intros w0. apply media_participantConnected. Qed.

Lemma promise_setActiveParticipant p : inv I (setActiveParticipant p).
Proof.
  intros w H. destruct (setActiveParticipant_cases p w) as [E|(d & v & E)];
    unfold exec in E; rewrite E; exact H.
Qed.

Lemma promise_setCurrentActiveParticipant o : inv I (setCurrentActiveParticipant o).
Proof.
  unfold setCurrentActiveParticipant. inv_auto. apply promise_setActiveParticipant.
Qed.

Lemma promise_container_click p : inv I (container_click p).
Proof.
  unfold container_click. inv_auto;
    auto using promise_setActiveParticipant, promise_setCurrentActiveParticipant.
Qed.

Lemma promise_room_listener r l ev :
  ev ≠ EvDisconnected -> inv I (room_listener r l ev).
Proof.
  intros Hev. destruct l, ev; simpl; try congruence; inv_auto;
    auto using promise_participantConnected, promise_setCurrentActiveParticipant.
Qed.

Lemma promise_room_emit r ev :
  ev ≠ EvDisconnected -> inv I (room_emit r ev).
Proof.
  intros Hev. apply inv_room_emit; [intros w l H; exact H|].
  intros l. apply promise_room_listener, Hev.
Qed.

Lemma promise_joinRoom_connected j' r room : inv I (joinRoom_connected j' r room).
Proof.
  unfold joinRoom_connected, register. inv_auto;
    auto using promise_setCurrentActiveParticipant, promise_participantConnected.
  apply (promise_attachTrack {| track_ref := track_ref (ltp_track l); track_kind := video |}).
Qed.
End PromiseFrame.

Lemma remove_first_incl {A} `{EqDecision A} (x : A) (l : list A) :
  incl (remove_first x l) l.
Proof.
  induction l as [|y l IH]; simpl; [apply incl_nil_l|].
  destruct (decide (x = y)).
  - apply incl_tl, incl_refl.
  - apply incl_cons; [left; reflexivity|]. apply incl_tl, IH.
Qed.

Lemma listeners_for_In (r : nat) (ev : RoomEvent) (l : RoomListener) (w : World) :
  In l (listeners_for r ev w) ->
  In (r, l) (room_listeners w) ∧ listens l ev = true.
Proof.
  unfold listeners_for. rewrite in_map_iff. intros ([r' l'] & Hl & Hin).
  simpl in Hl. subst l'. apply filter_In in Hin as [Hin Hp].
  apply andb_true_iff in Hp as [Hr Hp]. apply bool_decide_eq_true in Hr.
  simpl in *. subst r'. split; assumption.
Qed.

Lemma teardown_end_facts (lp : Participant) (t : Track) (j : nat) (w : World) :
  track_kind t ≠ data ->
  let w' := teardown_end lp t j w in
  room_listeners w' = room_listeners w
  ∧ calls w' = calls w ++ [CDetach (track_ref t)]
  ∧ window_room w' = None
  ∧ activeVideo w' = Some None
  ∧ (forall i, i ≠ j -> promises w' !! i = promises w !! i)
  ∧ promises w' !! j =
      match promises w !! j with Some Pending => Some Fulfilled | o => o end.
Proof.
  intros Hk. unfold teardown_end, detached. cbv zeta.
  destruct (track_kind t); [| |congruence];
    cbn [promises set_window_room set_activeVideo set_dom set_tracks];
    (destruct (promises w !! j) as [[]|] eqn:Hp; simpl; repeat split; try assumption;
     [intros i Hi; apply lookup_insert_ne; congruence
     |apply lookup_insert_eq]).
Qed.

(** What the disconnect triggers can do to the promise of join call [j],
    seen from the world [w0] in which the event arrives. *)
Section PromiseTeardown.
Variables (j : nat) (w0 : World).

Let J (w' : World) : Prop :=
  incl (room_listeners w') (room_listeners w0)
  ∧ exists cs,
      calls w' = calls w0 ++ cs
      ∧ (promises w' !! j = promises w0 !! j
         ∨ (promises w' !! j = Some Fulfilled
            ∧ window_room w' = None
            ∧ activeVideo w' = Some None
            ∧ exists r t, In (r, OnceDisconnected t j) (room_listeners w0)
                          ∧ In (CDetach (track_ref t)) cs)).

Lemma J_start : J w0.
Proof.
  split; [apply incl_refl|]. exists []. split; [symmetry; apply app_nil_r|].
  left. reflexivity.
Qed.

Lemma J_teardown r t j' :
  In (r, OnceDisconnected t j') (room_listeners w0) -> inv J (teardown r t j').
Proof.
  intros Hreg w (Hincl & cs & Hc & Hd).
  destruct (teardown_cases r t j' w)
    as [[_ ->] | [(rm & e & _ & ->) | (rm & _ & _ & Hdo & ->)]]; simpl.
  - split; [exact Hincl|]. exists cs. split; assumption.
  - destruct (detached_facts t (lp_self (localParticipant rm)) w)
      as (Hcs & (_&_&Hwr&Hav&_&_&_&_&_&Hrl&Hpr) & _).
    split; [rewrite Hrl; exact Hincl|]. exists (cs ++ detach_log t).
    split; [rewrite Hcs, Hc; symmetry; apply app_assoc|].
    rewrite Hpr, Hwr, Hav.
    destruct Hd as [Hd|(Hf & Hw' & Hv' & r0 & t0 & Hr0 & Ht0)]; [left; exact Hd|].
    right. repeat split; try assumption.
    exists r0, t0. split; [exact Hr0|]. apply in_or_app. left. exact Ht0.
  - destruct (teardown_end_facts (lp_self (localParticipant rm)) t j' w
                (detach_outcome_kind _ _ _ Hdo))
      as (Hl & Hcs & Hw & Hav & Hne & Heq).
    split; [rewrite Hl; exact Hincl|].
    exists (cs ++ [CDetach (track_ref t)]).
    split; [rewrite Hcs, Hc; symmetry; apply app_assoc|].
    destruct (decide (j' = j)) as [->|Hj].
    + rewrite Heq.
      destruct Hd as [Hd|(Hf & _ & _ & r0 & t0 & Hr0 & Ht0)].
      * destruct (promises w !! j) as [[]|] eqn:Hp; try (left; exact Hd).
        right. repeat split; try assumption.
        exists r, t. split; [exact Hreg|]. apply in_or_app. right. left. reflexivity.
      * right. rewrite Hf. repeat split; try assumption.
        exists r0, t0. split; [exact Hr0|]. apply in_or_app. left. exact Ht0.
    + rewrite (Hne j) by congruence.
      destruct Hd as [Hd|(Hf & _ & _ & r0 & t0 & Hr0 & Ht0)]; [left; exact Hd|].
      right. repeat split; try assumption.
      exists r0, t0. split; [exact Hr0|]. apply in_or_app. left. exact Ht0.
Qed.

Lemma J_room_disconnect r : inv J (room_disconnect r).
Proof.
  unfold room_disconnect, room_emit. apply inv_get_bind. intros w Hw.
  apply inv_forEach_in; [|exact Hw].
  intros l Hl. apply listeners_for_In in Hl as [Hin Hls].
  destruct l; simpl in Hls; try discriminate. simpl.
  apply inv_bind.
  - apply inv_modify. intros w1 (Hincl & Hrest). split; [|exact Hrest].
    simpl. eapply incl_tran; [apply remove_first_incl|exact Hincl].
  - intros _. apply J_teardown. apply Hw. exact Hin.
Qed.

Lemma J_onLeave r : inv J (onLeave r).
Proof.
  unfold onLeave. apply inv_bind; [|intros _; apply J_room_disconnect].
  apply inv_modify. intros w H. exact H.
Qed.

Lemma J_result (w' : World) :
  promises w0 !! j = Some Pending ->
  J w' ->
  promises w' !! j = Some Pending
  ∨ (promises w' !! j = Some Fulfilled ∧ torn_between j w0 w').
Proof.
  intros Hp (_ & cs & Hc & [Hd|(Hf & Hw & Hv & r & t & Hr & Ht)]).
  - left. congruence.
  - right. split; [exact Hf|]. split; [exact Hw|]. split; [exact Hv|].
    exists r, t, cs. repeat split; assumption.
Qed.
End PromiseTeardown.

(** One event and a pending promise. *)
Lemma promise_step (j : nat) (w : World) (e : Event) :
  promises w !! j = Some Pending ->
  (forall c, e ≠ JoinRoom j c) ->
  promises (step w e) !! j = Some Pending
  ∨ (promises (step w e) !! j = Some Fulfilled
     ∧ is_disconnect e = true
     ∧ torn_between j w (step w e)).
Proof.
  intros Hp Hne.
  assert (Hkeep : inv (fun w' => promises w' !! j = Some Pending) (handle e) ->
                  promises (step w e) !! j = Some Pending)
    by (intros Hi; apply (Hi w Hp)).
  assert (Htear : inv (fun w' =>
              incl (room_listeners w') (room_listeners w)
              ∧ exists cs,
                  calls w' = calls w ++ cs
                  ∧ (promises w' !! j = promises w !! j
                     ∨ (promises w' !! j = Some Fulfilled
                        ∧ window_room w' = None
                        ∧ activeVideo w' = Some None
                        ∧ exists r t, In (r, OnceDisconnected t j) (room_listeners w)
                                      ∧ In (CDetach (track_ref t)) cs))) (handle e) ->
            is_disconnect e = true ->
            promises (step w e) !! j = Some Pending
            ∨ (promises (step w e) !! j = Some Fulfilled
               ∧ is_disconnect e = true
               ∧ torn_between j w (step w e))).
  { intros Hi Hd. specialize (Hi w (J_start j w)).
    destruct (J_result j w _ Hp Hi) as [H|[H1 H2]]; [left; exact H|right].
    split; [exact H1|split; [exact Hd|exact H2]]. }
  destruct e as [j' c|r p|r p|r d|p pub|pub t|pub t|r|c| | |]; simpl in *.
  - left. apply Hkeep. apply inv_modify. intros w1 H1.
    assert (Hj : j' ≠ j) by (intros ->; apply (Hne c); reflexivity).
    unfold joinRoom. destruct c as [r room|]; simpl.
    + match goal with |- context [joinRoom_connected j' r room ?w2] =>
        pose proof (promise_joinRoom_connected j (Some Pending) j' r room w2) as Hi;
        destruct (joinRoom_connected j' r room w2) as [[[]|err] w3] end;
        simpl in *; rewrite ?lookup_insert_ne by exact Hj;
        apply Hi; rewrite lookup_insert_ne by exact Hj; exact H1.
    + rewrite !lookup_insert_ne by exact Hj. exact H1.
  - left. apply Hkeep. apply inv_bind; [apply inv_modify; intros ? H; exact H|intros _].
    apply promise_room_emit. discriminate.
  - left. apply Hkeep. apply inv_bind; [apply inv_modify; intros ? H; exact H|intros _].
    apply promise_room_emit. discriminate.
  - left. apply Hkeep. apply inv_bind; [apply inv_modify; intros ? H; exact H|intros _].
    apply promise_room_emit. discriminate.
  - left. apply Hkeep. unfold participant_trackPublished. inv_auto.
    apply promise_trackPublished.
  - left. apply Hkeep. unfold publication_subscribed. inv_auto.
    apply promise_attachTrack.
  - left. apply Hkeep. unfold publication_unsubscribed. inv_auto.
    apply promise_detachTrack.
  - apply Htear; [|reflexivity]. apply (J_room_disconnect j w).
  - left. apply Hkeep. inv_auto. apply promise_container_click.
  - apply Htear; [|reflexivity]. apply inv_bind; [apply inv_get|intros w1].
    apply inv_forEach. intros x. apply (J_onLeave j w).
  - apply Htear; [|reflexivity]. apply inv_bind; [apply inv_get|intros w1].
    apply inv_dispatch. intros x. apply (J_room_disconnect j w).
  - apply Htear; [|reflexivity]. apply inv_bind; [apply inv_get|intros w1].
    apply inv_dispatch. intros x. apply (J_room_disconnect j w).
Qed.

(** The claim fails when the promise is rejected: a rejected [connect]
    settles it with no session at all, and a setup that throws settles it
    while the room is still connected and nothing has been torn down. *)
Lemma join_result_settles_without_disconnect :
  promises (joinRoom 0 ConnectRejected (initial Demo.desktop)) !! 0 = Some Rejected
  ∧ (let w := joinRoom 0 (ConnectFulfilled 100 Demo.audio_only_room)
                       (initial Demo.desktop) in
     promises w !! 0 = Some Rejected
     ∧ window_room w = Some 100
     ∧ calls w = []
     ∧ room_listeners w = []).
Proof. vm_compute. repeat split. Qed.

(** C7, amended: the promise returned by [joinRoom] is rejected when
    [connect] is rejected; when [connect] is fulfilled and the setup
    returns, it is pending, it stays pending over every run of events
    that asks for no disconnection, the only events that settle it are
    disconnect triggers that run the teardown closure of that call to its
    end, and they fulfil it; the first wired trigger of the live session
    does so when the closure returns from detaching the local track, as
    it does for a video track and a local identity that jQuery accepts in
    a selector. *)
Theorem join_result_pending_until_teardown :
  (forall (w : World) (j : nat),
      promises (joinRoom j ConnectRejected w) !! j = Some Rejected)
  ∧ (forall (w : World) (j r : nat) (room : Room),
      outcome (joinRoom_connected j r room)
              (set_rooms (<[r:=room]> (rooms w))
                         (set_promises (<[j:=Pending]> (promises w)) w)) = Normal tt ->
      promises (joinRoom j (ConnectFulfilled r room) w) !! j = Some Pending)
  ∧ (forall (w : World) (j : nat) (es : list Event),
      promises w !! j = Some Pending ->
      Forall (fun e => is_disconnect e = false ∧ forall c, e ≠ JoinRoom j c) es ->
      promises (run es w) !! j = Some Pending)
  ∧ (forall (w : World) (j : nat) (e : Event),
      promises w !! j = Some Pending ->
      (forall c, e ≠ JoinRoom j c) ->
      promises (step w e) !! j ≠ Some Pending ->
      promises (step w e) !! j = Some Fulfilled
      ∧ is_disconnect e = true
      ∧ torn_between j w (step w e))
  ∧ (forall (w : World) (r : nat) (t : Track) (j : nat) (e : Event),
      session_live r t j w ->
      teardown_returns r t w ->
      promises w !! j = Some Pending ->
      is_trigger r e = true ->
      wired r e w = true ->
      promises (step w e) !! j = Some Fulfilled).
Proof.
  split; [|split; [|split; [|split]]].
  - intros w j. unfold joinRoom. simpl. apply lookup_insert_eq.
  - intros w j r room Ho. unfold joinRoom. unfold outcome in Ho.
    destruct (joinRoom_connected j r room _) as [c w'] eqn:E. simpl in Ho. subst c.
    apply joinRoom_connected_normal in E as (pub & rest & _ & _ & _ & _ & Hp & _).
    rewrite Hp. simpl. apply lookup_insert_eq.
  - intros w j es Hp Hes. revert w Hp.
    induction Hes as [|e es [Hd Hne] Hes IH]; intros w Hp; simpl; [exact Hp|].
    apply IH. destruct (promise_step j w e Hp Hne) as [H|(_ & Hd' & _)];
      [exact H|congruence].
  - intros w j e Hp Hne Hs.
    destruct (promise_step j w e Hp Hne) as [H|H]; [congruence|exact H].
  - intros w r t j e Hs Hret Hp He Hw.
    assert (Hrm : exists rm, rooms w !! r = Some rm) by (destruct Hs as ([rm Hr] & _); eauto).
    destruct Hrm as [rm Hr]. specialize (Hret rm Hr).
    destruct (trigger_live r rm t j e w Hs Hr Hret He Hw) as (_ & Hobs & _).
    destruct (torn_down_facts r (lp_self (localParticipant rm)) t j w
                (detach_outcome_kind _ _ _ Hret))
      as (_ & _ & _ & Hf & _).
    change (promises (observable (step w e)) !! j = Some Fulfilled).
    rewrite Hobs. apply Hf, Hp.
Qed.

(** ** Counting attach and detach calls *)







(** ** The provider's record and the balance of calls *)

Section Balance.
Variable is_local : nat -> bool.

















End Balance.

(** ** What registering participants and publications appends *)

Lemma appends_ret (w : World) : appends (ret tt) w [] [] [].
Proof. exists w. rewrite !app_nil_r. repeat split. Qed.

Lemma appends_seq (m k : M unit) (w : World) cs pls tps cs' pls' tps' :
  appends m w cs pls tps ->
  (forall w', appends k w' cs' pls' tps') ->
  appends (bind m (fun _ => k)) w (cs ++ cs') (pls ++ pls') (tps ++ tps').
Proof.
  intros (w1 & E1 & C1 & P1 & T1 & R1) Hk.
  destruct (Hk w1) as (w2 & E2 & C2 & P2 & T2 & R2).
  exists w2. unfold bind. rewrite E1, E2.
  rewrite C2, C1, P2, P1, T2, T1, R2, R1, !app_assoc. repeat split.
Qed.

Lemma appends_forEach {A} (f : A -> M unit) c p t (xs : list A) (w : World) :
  (forall x w', appends (f x) w' (c x) (p x) (t x)) ->
  appends (forEach f xs) w (flat_map c xs) (flat_map p xs) (flat_map t xs).
Proof.
  intros Hf. revert w. induction xs as [|x xs IH]; intros w; simpl.
  - apply appends_ret.
  - apply appends_seq; [apply Hf|]. intros w'. apply IH.
Qed.

Lemma flat_map_nil {A B} (xs : list A) : flat_map (fun _ : A => @nil B) xs = [].
Proof. induction xs as [|x xs IH]; simpl; [reflexivity|exact IH]. Qed.

Lemma appends_attachTrack (t : Track) (p : Participant) (w : World) :
  appends (attachTrack t p) w (attach_log t) [] [].
Proof.
  unfold attachTrack, attach_log, attachAudioTrack, attachVideoTrack.
  destruct (track_kind t); js_unfold; unfold fresh, track_attach;
    eexists; (split; [reflexivity|]); simpl; rewrite ?app_nil_r; repeat split.
Qed.

Lemma appends_trackPublished (pub : Publication) (p : Participant) (w : World) :
  appends (trackPublished pub p) w (publication_log pub) (publication_pair p pub) [].
Proof.
  unfold trackPublished, publication_log, publication_pair.
  assert (H1 : forall w', appends
            (match pub_track pub with
             | Some track => attachTrack track p
             | None => ret tt
             end) w'
            (match pub_track pub with Some t => attach_log t | None => [] end) [] []).
  { intros w'. destruct (pub_track pub); [apply appends_attachTrack|apply appends_ret]. }
  destruct (H1 w) as (w1 & E1 & C1 & P1 & T1 & R1).
  unfold appends, bind, modify. rewrite E1. eexists. split; [reflexivity|]. simpl.
  rewrite C1, P1, T1, R1, ?app_nil_r, <- ?app_assoc. repeat split.
Qed.

Lemma appends_participantConnected (rp : RemoteParticipant) (w : World) :
  appends (participantConnected rp) w
          (flat_map publication_log (rp_tracks rp))
          (flat_map (publication_pair (rp_self rp)) (rp_tracks rp))
          [rp_self rp].
Proof.
  unfold participantConnected.
  destruct (appends_forEach (fun publication => trackPublished publication (rp_self rp))
              publication_log (publication_pair (rp_self rp)) (fun _ => [])
              (rp_tracks rp) w) as (w1 & E1 & C1 & P1 & T1 & R1).
  { intros x w'. apply appends_trackPublished. }
  unfold appends, bind, modify. rewrite E1. eexists. split; [reflexivity|]. simpl.
  rewrite C1, P1, T1, R1.
  rewrite flat_map_nil, app_nil_r. repeat split.
Qed.


Lemma registrations_pairs (p : Participant) (pubs : list Publication) :
  flat_map (fun pl => match pl with
                      | (pub, OnSubscribed p) => [(pub, p)]
                      | (_, OnUnsubscribed _) => []
                      end) (flat_map (publication_pair p) pubs)
  = map (fun pub => (pub_ref pub, p)) pubs.
Proof. induction pubs as [|pub pubs IH]; simpl; [reflexivity|]. rewrite IH. reflexivity. Qed.


Lemma listeners_of_pairs (p : Participant) (pubs : list Publication) :
  listeners_of (map (fun pub => (pub_ref pub, p)) pubs) = flat_map (publication_pair p) pubs.
Proof. induction pubs as [|pub pubs IH]; simpl; [reflexivity|]. rewrite IH. reflexivity. Qed.

(** ** Events that leave the media alone *)

Section SameMedia.
Variable w0 : World.
Let I (w : World) : Prop := same_media w0 w.



End SameMedia.


(** ** Events that only tear down *)



Section OnlyTeardowns.
Variable w0 : World.




End OnlyTeardowns.

(** ** Lists of registrations *)








(** ** What setting up a session appends *)

Lemma appends_attachVideoTrack (t : Track) (p : Participant) (w : World) :
  appends (attachVideoTrack t p) w [CAttach (track_ref t)] [] [].
Proof.
  unfold attachVideoTrack. js_unfold. unfold fresh, track_attach.
  eexists. split; [reflexivity|]. simpl. rewrite ?app_nil_r. repeat split.
Qed.


(** ** The invariant of conforming runs *)

Section Paired.
Variable is_local : nat -> bool.







End Paired.

(** ** Emissions, by event *)







Lemma select_unsubscribed {B} (pub : nat) (out : list B) (R : list (nat * Participant)) :
  flat_map (fun pl : nat * PubListener =>
              match pl with
              | (q, OnSubscribed _) => []
              | (q, OnUnsubscribed _) => if bool_decide (q = pub) then out else []
              end) (listeners_of R)
  = flat_map (fun n => if bool_decide (n.1 = pub) then out else []) R.
Proof.
  induction R as [|[q p] R IH]; simpl; [reflexivity|]. rewrite IH. reflexivity.
Qed.












Lemma run_app (es1 es2 : list Event) (w : World) :
  run (es1 ++ es2) w = run es2 (run es1 w).
Proof. unfold run. apply fold_left_app. Qed.



(** ** Identities that jQuery does not accept in a selector

    The selectors of [setActiveParticipant] and [detachTrack] are built
    by putting an identity between double quotes.  The following runs of
    the demo involve Eve, whose identity ends in a double quote. *)

(** C1: the claim fails behind an identity with a double quote.  The
    room reports Eve as dominant speaker, so she becomes the active
    participant; Alice then clicks Bob's container while nobody is
    pinned.  The pin is set, but [setActiveParticipant] throws on the
    selector for Eve before it assigns, so the active participant is
    still Eve, and stays Eve over further [dominantSpeakerChanged]
    signals. *)
Theorem pin_lost_behind_quoted_identity :
  let w := run [DominantSpeakerChanged 100 (Some Demo.eve)] Demo.with_eve in
  let w' := step w (Click 2) in
  owner_of 2 (participants_dom w) = Some Demo.bob
  ∧ activeParticipant w = Some Demo.eve
  ∧ isActiveParticipantPinned w = false
  ∧ outcome (handle (Click 2)) w = Throw SyntaxError
  ∧ isActiveParticipantPinned w' = true
  ∧ activeParticipant w' = Some Demo.eve
  ∧ activeParticipant (run [DominantSpeakerChanged 100 (Some Demo.bob);
                            DominantSpeakerChanged 100 None] w') = Some Demo.eve.
Proof. vm_compute. repeat split. Qed.

(** C3: the claim fails for a leaver whose identity has a double quote.
    Alice has clicked Eve's container, so Eve is active and pinned; the
    room then reports that Eve left.  The handler clears the pin, but
    [setActiveParticipant] throws on the selector for Eve before it
    assigns: the active participant is still Eve, who is gone. *)
Theorem pinned_leaver_with_quoted_identity :
  let w := run [Click 4] Demo.with_eve in
  let w' := step w (ParticipantDisconnected 100 Demo.eve) in
  owner_of 4 (participants_dom Demo.with_eve) = Some Demo.eve
  ∧ activeParticipant w = Some Demo.eve
  ∧ isActiveParticipantPinned w = true
  ∧ listeners_for 100 (EvParticipantDisconnected Demo.eve) w = [OnParticipantDisconnected]
  ∧ outcome (handle (ParticipantDisconnected 100 Demo.eve)) w = Throw SyntaxError
  ∧ isActiveParticipantPinned w' = false
  ∧ activeParticipant w' = Some Demo.eve
  ∧ (rooms w' !! 100 ≫= fun rm => Some (default (lp_self (localParticipant rm))
                                                 (dominantSpeaker rm)))
    = Some Demo.alice.
Proof. vm_compute. repeat split. Qed.

(** C6: the claim fails for a local identity with a double quote.  Eve
    joins a room whose dominant speaker is Bob, so the setup returns and
    the session is live.  The first trigger detaches the local track and
    then throws on the selector for Eve: the active video keeps its
    stream, [window.room] keeps the room and the promise stays pending.
    The teardown closure is gone by then, so no later trigger does
    anything. *)
Theorem teardown_aborts_on_quoted_identity :
  let w := Demo.eve_joined in
  let w' := step w LeaveClick in
  promises w !! 0 = Some Pending
  ∧ listeners_for 100 EvDisconnected w = [OnceDisconnected Demo.eve_video 0]
  ∧ wired 100 LeaveClick w = true
  ∧ outcome (handle LeaveClick) w = Throw SyntaxError
  ∧ calls w' = calls w ++ [CDetach (track_ref Demo.eve_video)]
  ∧ activeVideo w' = activeVideo w
  ∧ activeVideo w' ≠ Some None
  ∧ window_room w' = Some 100
  ∧ promises w' !! 0 = Some Pending
  ∧ listeners_for 100 EvDisconnected w' = []
  ∧ run [BeforeUnload; RoomDisconnected 100; LeaveClick] w' = w'.
Proof. vm_compute. repeat split. discriminate. Qed.

(** ** The properties on the demo session *)

Lemma demo_session_live : session_live 100 Demo.camera 0 Demo.three_videos.
Proof.
  split; [vm_compute; eauto|]. split; [vm_compute; eauto|].
  split; [vm_compute; reflexivity|].
  intros r' Hne. unfold listeners_for.
  replace (room_listeners Demo.three_videos)
    with [(100, OnParticipantConnected); (100, OnParticipantDisconnected);
          (100, OnDominantSpeakerChanged); (100, OnceDisconnected Demo.camera 0)]
    by (vm_compute; reflexivity).
  simpl. rewrite !andb_false_r, andb_true_r.
  rewrite bool_decide_eq_false_2 by congruence. reflexivity.
Defined.

Lemma demo_selectable (p : Participant) :
  In p [Demo.alice; Demo.bob; Demo.carol] -> selectable p Demo.three_videos.
Proof.
  intros [<-|[<-|[<-|[]]]]; vm_compute; eauto.
Defined.

Lemma demo_active_selectable : active_selectable Demo.three_videos.
Proof.
  intros ap Hap. vm_compute in Hap. injection Hap as <-.
  apply demo_selectable. left. reflexivity.
Defined.

Lemma demo_teardown_returns : teardown_returns 100 Demo.camera Demo.three_videos.
Proof.
  intros rm Hr. vm_compute in Hr. injection Hr as <-. vm_compute. reflexivity.
Defined.




Lemma toggle_twice_resolves_automatically_witness :
  ¬ (activeParticipant Demo.three_videos = Some Demo.carol
     ∧ isActiveParticipantPinned Demo.three_videos = true)
  ∧ window_room Demo.three_videos = Some 100
  ∧ rooms Demo.three_videos !! 100 = Some Demo.room
  ∧ active_selectable Demo.three_videos
  ∧ selectable Demo.carol Demo.three_videos
  ∧ (let w' := exec (container_click Demo.carol)
                    (exec (container_click Demo.carol) Demo.three_videos) in
     activeParticipant w' = Some Demo.alice
     ∧ isActiveParticipantPinned w' = false
     ∧ (activeParticipant Demo.three_videos = Some Demo.alice ->
        activeParticipant w' = activeParticipant Demo.three_videos)).
Proof.
  assert (Hn : ¬ (activeParticipant Demo.three_videos = Some Demo.carol
                  ∧ isActiveParticipantPinned Demo.three_videos = true))
    by (vm_compute; intros [H _]; discriminate).
  assert (Hw : window_room Demo.three_videos = Some 100) by (vm_compute; reflexivity).
  assert (Hr : rooms Demo.three_videos !! 100 = Some Demo.room) by (vm_compute; reflexivity).
  assert (Hc : selectable Demo.carol Demo.three_videos)
    by (apply demo_selectable; right; right; left; reflexivity).
  split; [exact Hn|]. split; [exact Hw|]. split; [exact Hr|].
  split; [exact demo_active_selectable|]. split; [exact Hc|].
  exact (toggle_twice_resolves_automatically Demo.three_videos Demo.carol 100 Demo.room
           Hn Hw Hr demo_active_selectable Hc).
Defined.

Lemma join_result_pending_until_teardown_witness :
  outcome (joinRoom_connected 0 100 Demo.room)
          (set_rooms (<[100:=Demo.room]> (rooms (initial Demo.desktop)))
             (set_promises (<[0:=Pending]> (promises (initial Demo.desktop)))
                           (initial Demo.desktop))) = Normal tt
  ∧ promises (joinRoom 0 (ConnectFulfilled 100 Demo.room) (initial Demo.desktop)) !! 0
    = Some Pending
  ∧ session_live 100 Demo.camera 0 Demo.three_videos
  ∧ teardown_returns 100 Demo.camera Demo.three_videos
  ∧ promises Demo.three_videos !! 0 = Some Pending
  ∧ promises (step Demo.three_videos LeaveClick) !! 0 = Some Fulfilled.
Proof.
  assert (Ho : outcome (joinRoom_connected 0 100 Demo.room)
          (set_rooms (<[100:=Demo.room]> (rooms (initial Demo.desktop)))
             (set_promises (<[0:=Pending]> (promises (initial Demo.desktop)))
                           (initial Demo.desktop))) = Normal tt)
    by (vm_compute; reflexivity).
  assert (Hp : promises Demo.three_videos !! 0 = Some Pending) by (vm_compute; reflexivity).
  assert (Hw : wired 100 LeaveClick Demo.three_videos = true) by (vm_compute; reflexivity).
  split; [exact Ho|]. split; [|split; [exact demo_session_live|]].
  - exact (proj1 (proj2 join_result_pending_until_teardown)
             (initial Demo.desktop) 0 100 Demo.room Ho).
  - split; [exact demo_teardown_returns|]. split; [exact Hp|].
    exact (proj2 (proj2 (proj2 (proj2 join_result_pending_until_teardown)))
             Demo.three_videos 100 Demo.camera 0 LeaveClick
             demo_session_live demo_teardown_returns Hp eq_refl Hw).
Defined.

Lemma join_without_local_video_witness :
  lp_videoTracks (localParticipant Demo.audio_only_room) = []
  ∧ joinRoom_connected 0 100 Demo.audio_only_room (initial Demo.desktop)
    = (Throw TypeError, set_window_room (Some 100) (initial Demo.desktop))
  ∧ promises (joinRoom 0 (ConnectFulfilled 100 Demo.audio_only_room)
                       (initial Demo.desktop)) !! 0 = Some Rejected.
Proof.
  split; [reflexivity|].
  pose proof (join_without_local_video (initial Demo.desktop) 0 100 Demo.audio_only_room
                eq_refl) as [H1 H2].
  split; [exact H1|]. exact (proj1 H2).
Defined.

Lemma one_live_track_per_kind_between_handlers_witness :
  let s := (Devices.applyInputDevice "video" "camera-1" (Devices.Created 1)
                                     Devices.initial).2 in
  let first := {| Devices.lt_ref := 1; Devices.lt_kind := "video" |} in
  let second := {| Devices.lt_ref := 2; Devices.lt_kind := "video" |} in
  Devices.cached "video" s = Some first
  ∧ first ≠ second
  ∧ ¬ In first (Devices.live
                  (Devices.applyInputDevice "video" "camera-2" (Devices.Created 2) s).2)
  ∧ Devices.cached "video"
      (Devices.applyInputDevice "video" "camera-2" (Devices.Created 2) s).2 = Some second
  ∧ ¬ In first (Devices.live (Devices.onHide "video" s))
  ∧ Devices.cached "video" (Devices.onHide "video" s) = None.
Proof.
  intros s first second.
  assert (Hc : Devices.cached "video" s = Some first) by (vm_compute; reflexivity).
  assert (Hne : first ≠ second) by discriminate.
  split; [exact Hc|]. split; [exact Hne|].
  pose proof (proj1 (proj2 one_live_track_per_kind_between_handlers)
                s "video" "camera-2" 2 first Hc Hne) as [H1 H2].
  pose proof (proj2 (proj2 one_live_track_per_kind_between_handlers)
                s "video" first Hc) as [H3 H4].
  split; [exact H1|]. split; [exact H2|]. split; [exact H3|exact H4].
Defined.

(** * Further properties of joinroom.js *)

(** ** Pinning, disconnection and teardown behind accepted selectors *)

Lemma pin_outlasts_dominantSpeakerChanged_witness :
  ¬ (activeParticipant Demo.three_videos = Some Demo.bob
     ∧ isActiveParticipantPinned Demo.three_videos = true)
  ∧ active_selectable Demo.three_videos
  ∧ (let w' := run [DominantSpeakerChanged 100 (Some Demo.carol);
                    DominantSpeakerChanged 100 None;
                    Subscribed 22 Demo.bob_audio;
                    DominantSpeakerChanged 100 (Some Demo.carol)]
                   (exec (container_click Demo.bob) Demo.three_videos) in
     activeParticipant w' = Some Demo.bob ∧ isActiveParticipantPinned w' = true).
Proof.
  assert (H : ¬ (activeParticipant Demo.three_videos = Some Demo.bob
                 ∧ isActiveParticipantPinned Demo.three_videos = true))
    by (vm_compute; intros [_ H]; discriminate).
  split; [exact H|]. split; [exact demo_active_selectable|].
  apply (pin_outlasts_dominantSpeakerChanged Demo.bob Demo.three_videos);
    [exact H|exact demo_active_selectable|].
  repeat constructor.
Defined.

Lemma pinned_participant_disconnected_witness :
  rooms Demo.bob_pinned !! 100 = Some Demo.room
  ∧ listeners_for 100 (EvParticipantDisconnected Demo.bob) Demo.bob_pinned
    = [OnParticipantDisconnected]
  ∧ activeParticipant Demo.bob_pinned = Some Demo.bob
  ∧ isActiveParticipantPinned Demo.bob_pinned = true
  ∧ selectable Demo.bob Demo.bob_pinned
  ∧ isActiveParticipantPinned (step Demo.bob_pinned (ParticipantDisconnected 100 Demo.bob))
    = false
  ∧ activeParticipant (step Demo.bob_pinned (ParticipantDisconnected 100 Demo.bob))
    = Some Demo.alice.
Proof.
  assert (Hr : rooms Demo.bob_pinned !! 100 = Some Demo.room) by (vm_compute; reflexivity).
  assert (Hl : listeners_for 100 (EvParticipantDisconnected Demo.bob) Demo.bob_pinned
               = [OnParticipantDisconnected]) by (vm_compute; reflexivity).
  assert (Ha : activeParticipant Demo.bob_pinned = Some Demo.bob)
    by (vm_compute; reflexivity).
  assert (Hp : isActiveParticipantPinned Demo.bob_pinned = true)
    by (vm_compute; reflexivity).
  assert (Hs : selectable Demo.bob Demo.bob_pinned) by (vm_compute; eauto).
  split; [exact Hr|]. split; [exact Hl|]. split; [exact Ha|]. split; [exact Hp|].
  split; [exact Hs|].
  exact (proj1 (pinned_participant_disconnected Demo.bob_pinned 100 Demo.room Demo.bob Hr Hl)
               (conj Ha Hp) Hs).
Defined.

Lemma teardown_happens_once_witness :
  session_live 100 Demo.camera 0 Demo.three_videos
  ∧ teardown_returns 100 Demo.camera Demo.three_videos
  ∧ is_trigger 100 LeaveClick = true
  ∧ wired 100 LeaveClick Demo.three_videos = true
  ∧ Forall (fun e => is_trigger 100 e = true) [BeforeUnload; RoomDisconnected 100; PageHide]
  ∧ (let w' := run [LeaveClick; BeforeUnload; RoomDisconnected 100; PageHide]
                   Demo.three_videos in
     run_ok [LeaveClick; BeforeUnload; RoomDisconnected 100; PageHide] Demo.three_videos
     ∧ observable w' = observable (step Demo.three_videos LeaveClick)
     ∧ observable w' = observable (step Demo.three_videos (RoomDisconnected 100))
     ∧ calls w' = calls Demo.three_videos ++ [CDetach (track_ref Demo.camera)]
     ∧ activeVideo w' = Some None
     ∧ window_room w' = None
     ∧ no_session w').
Proof.
  assert (Hw : wired 100 LeaveClick Demo.three_videos = true) by (vm_compute; reflexivity).
  assert (Hes : Forall (fun e => is_trigger 100 e = true)
                       [BeforeUnload; RoomDisconnected 100; PageHide])
    by (repeat constructor).
  split; [exact demo_session_live|]. split; [exact demo_teardown_returns|].
  split; [reflexivity|]. split; [exact Hw|].
  split; [exact Hes|].
  exact (teardown_happens_once Demo.three_videos 100 Demo.camera 0 LeaveClick _
           demo_session_live demo_teardown_returns eq_refl Hw Hes).
Defined.

(** ** The selectors of [setActiveParticipant] *)

(** When jQuery rejects the selector built from the identity of the
    current active participant, [setActiveParticipant] throws on its
    first statement: nothing changes, and in particular the active
    participant is not replaced. *)
Theorem setActiveParticipant_keeps_rejected_participant
    (p ap : Participant) (w : World) :
  activeParticipant w = Some ap ->
  container_selector (browser w) (p_identity ap) = None ->
  outcome (setActiveParticipant p) w = Throw SyntaxError
  ∧ exec (setActiveParticipant p) w = w.
Proof.
  intros Ha Hs. unfold outcome, exec.
  rewrite (setActiveParticipant_rejected p ap w Ha Hs). split; reflexivity.
Qed.

Lemma setActiveParticipant_keeps_rejected_participant_witness :
  let w := run [DominantSpeakerChanged 100 (Some Demo.eve)] Demo.with_eve in
  activeParticipant w = Some Demo.eve
  ∧ container_selector (browser w) (p_identity Demo.eve) = None
  ∧ outcome (setActiveParticipant Demo.bob) w = Throw SyntaxError
  ∧ exec (setActiveParticipant Demo.bob) w = w.
Proof.
  intros w.
  assert (Ha : activeParticipant w = Some Demo.eve) by (vm_compute; reflexivity).
  assert (Hs : container_selector (browser w) (p_identity Demo.eve) = None)
    by (vm_compute; reflexivity).
  split; [exact Ha|]. split; [exact Hs|].
  exact (setActiveParticipant_keeps_rejected_participant Demo.bob Demo.eve w Ha Hs).
Defined.

(** ** The active video *)

Lemma videos_of_decorate (sel sel' : string -> bool) (f : Container -> Container)
    (dom : list Node) :
  (forall c, c_identity (f c) = c_identity c ∧ c_children (f c) = c_children c) ->
  videos_of sel (map (on_matching sel' f) dom) = videos_of sel dom.
Proof.
  intros Hf. unfold videos_of. induction dom as [|n dom IH]; simpl; [reflexivity|].
  rewrite IH. f_equal. destruct n as [el|c]; simpl; [reflexivity|].
  destruct (has_identity sel' c); simpl; [|reflexivity].
  destruct (Hf c) as [Hi Hc]. unfold has_identity. rewrite Hi, Hc. reflexivity.
Qed.

Lemma videos_of_decorated (sel old new : string -> bool) (w : World) :
  videos_of sel (decorated old new w) = videos_of sel (participants_dom w).
Proof.
  unfold decorated, undecorated. cbv zeta.
  destruct (isActiveParticipantPinned w), (activeParticipant w);
    rewrite ?videos_of_decorate; try reflexivity; intros c; split; reflexivity.
Qed.

(** [setActiveParticipant] in closed form, past its first selector. *)
Lemma setActiveParticipant_closed (p : Participant) (old : string -> bool) (w : World) :
  active_selector old w ->
  setActiveParticipant p w =
  match container_selector (browser w) (p_identity p) with
  | None =>
      (Throw SyntaxError, set_dom (undecorated old w) (set_activeParticipant (Some p) w))
  | Some sel =>
      let w1 := set_dom (decorated old sel w) (set_activeParticipant (Some p) w) in
      match video_selector (browser w) (p_identity p) with
      | None => (Throw SyntaxError, w1)
      | Some vsel =>
          match activeVideo w, head (videos_of vsel (participants_dom w)) with
          | Some _, Some v => (Normal tt, set_activeVideo (Some (Some (v_src v))) w1)
          | _, _ => (Throw TypeError, w1)
          end
      end
  end.
Proof.
  intros Hold.
  assert (Hsame : forall (sel vsel : string -> bool),
            videos_of vsel (decorated old sel w) = videos_of vsel (participants_dom w))
    by (intros; apply videos_of_decorated).
  unfold setActiveParticipant, select, select_video, decorated, undecorated in *.
  js_unfold. simpl.
  destruct (activeParticipant w) as [ap|] eqn:Ha; simpl.
  - rewrite (Hold ap Ha). simpl.
    destruct (container_selector (browser w) (p_identity p)) as [sel|] eqn:Hs; simpl;
      [|unfold set_dom, set_activeParticipant; simpl; rewrite ?Ha; reflexivity].
    specialize (Hsame sel).
    destruct (isActiveParticipantPinned w) eqn:Hp; simpl;
      (destruct (video_selector (browser w) (p_identity p)) as [vsel|] eqn:Hv; simpl;
       [rewrite (Hsame vsel);
        destruct (activeVideo w) eqn:Hav; simpl;
        repeat match goal with |- context [head ?l] => destruct (head l) end; simpl|]);
      unfold set_activeVideo, set_dom, set_activeParticipant;
      simpl; rewrite ?Ha, ?Hp, ?Hav; reflexivity.
  - destruct (container_selector (browser w) (p_identity p)) as [sel|] eqn:Hs; simpl;
      [|unfold set_dom, set_activeParticipant; simpl; rewrite ?Ha; reflexivity].
    specialize (Hsame sel).
    destruct (isActiveParticipantPinned w) eqn:Hp; simpl;
      (destruct (video_selector (browser w) (p_identity p)) as [vsel|] eqn:Hv; simpl;
       [rewrite (Hsame vsel);
        destruct (activeVideo w) eqn:Hav; simpl;
        repeat match goal with |- context [head ?l] => destruct (head l) end; simpl|]);
      unfold set_activeVideo, set_dom, set_activeParticipant;
      simpl; rewrite ?Ha, ?Hp, ?Hav; reflexivity.
Qed.

(** Past its selectors, [setActiveParticipant] shows, in the active
    video, the stream of the first video element among the containers
    that the video selector selects.  When there is no such element (or
    the page has no active video element) it throws a TypeError after it
    has made the participant the active one and moved the decoration:
    the active video keeps showing what it showed. *)
Theorem setActiveParticipant_stream
    (p : Participant) (old sel vsel : string -> bool) (w : World) :
  active_selector old w ->
  container_selector (browser w) (p_identity p) = Some sel ->
  video_selector (browser w) (p_identity p) = Some vsel ->
  (forall s v,
      activeVideo w = Some s ->
      head (videos_of vsel (participants_dom w)) = Some v ->
      outcome (setActiveParticipant p) w = Normal tt
      ∧ activeVideo (exec (setActiveParticipant p) w) = Some (Some (v_src v)))
  ∧ (activeVideo w = None
     ∨ head (videos_of vsel (participants_dom w)) = None ->
     outcome (setActiveParticipant p) w = Throw TypeError
     ∧ activeVideo (exec (setActiveParticipant p) w) = activeVideo w)
  ∧ activeParticipant (exec (setActiveParticipant p) w) = Some p
  ∧ participants_dom (exec (setActiveParticipant p) w) = decorated old sel w.
Proof.
  intros Hold Hs Hv. unfold outcome, exec.
  rewrite (setActiveParticipant_closed p old w Hold), Hs, Hv. cbv zeta.
  split; [|split; [|split]].
  - intros s v Hs' Hv'. rewrite Hs', Hv'. split; reflexivity.
  - intros [Hs'|Hv'].
    + rewrite Hs'. split; [reflexivity|]. simpl. exact Hs'.
    + rewrite Hv'. destruct (activeVideo w) eqn:E; (split; [reflexivity|]);
        simpl; exact E.
  - destruct (activeVideo w), (head (videos_of vsel (participants_dom w)));
      reflexivity.
  - destruct (activeVideo w), (head (videos_of vsel (participants_dom w)));
      reflexivity.
Qed.

Lemma demo_active_selector :
  active_selector (fun v => bool_decide (v = "alice"%string)) Demo.three_videos.
Proof.
  intros ap Hap. vm_compute in Hap. injection Hap as <-. reflexivity.
Defined.

Lemma setActiveParticipant_stream_witness :
  let w := Demo.three_videos in
  let bobs := fun v : string => bool_decide (v = "bob"%string) in
  active_selector (fun v => bool_decide (v = "alice"%string)) w
  ∧ container_selector (browser w) (p_identity Demo.bob) = Some bobs
  ∧ video_selector (browser w) (p_identity Demo.bob) = Some bobs
  ∧ activeVideo w = Some (Some 10)
  ∧ head (videos_of bobs (participants_dom w)) = Some {| v_id := 3; v_src := 11 |}
  ∧ outcome (setActiveParticipant Demo.bob) w = Normal tt
  ∧ activeVideo (exec (setActiveParticipant Demo.bob) w) = Some (Some 11).
Proof.
  intros w bobs.
  assert (Hs : container_selector (browser w) (p_identity Demo.bob) = Some bobs)
    by reflexivity.
  assert (Hv : video_selector (browser w) (p_identity Demo.bob) = Some bobs)
    by reflexivity.
  assert (Ha : activeVideo w = Some (Some 10)) by (vm_compute; reflexivity).
  assert (Hh : head (videos_of bobs (participants_dom w))
               = Some {| v_id := 3; v_src := 11 |}) by (vm_compute; reflexivity).
  split; [exact demo_active_selector|]. split; [exact Hs|]. split; [exact Hv|].
  split; [exact Ha|]. split; [exact Hh|].
  exact (proj1 (setActiveParticipant_stream Demo.bob _ bobs bobs w
                  demo_active_selector Hs Hv) _ _ Ha Hh).
Defined.

(** ** Detaching and the thumbnails *)

Lemma containers_app (d d' : list Node) : containers (d ++ d') = containers d ++ containers d'.
Proof. unfold containers. apply flat_map_app. Qed.

Lemma containers_on_matching (sel : string -> bool) (f : Container -> Container)
    (dom : list Node) :
  containers (map (on_matching sel f) dom)
  = map (fun c => if has_identity sel c then f c else c) (containers dom).
Proof.
  induction dom as [|n dom IH]; simpl; [reflexivity|].
  destruct n as [el|c]; simpl; [exact IH|].
  destruct (has_identity sel c); simpl; rewrite IH; reflexivity.
Qed.

Lemma containers_append_child (k : nat) (el : MediaEl) (dom : list Node) :
  containers (map (append_child k el) dom)
  = map (fun c => if bool_decide (c_id c = k)
                  then with_children (c_children c ++ [el]) c else c)
        (containers dom).
Proof.
  induction dom as [|n dom IH]; simpl; [reflexivity|].
  destruct n as [a|c]; simpl; [exact IH|].
  destruct (bool_decide (c_id c = k)); simpl; rewrite IH; reflexivity.
Qed.

Lemma containers_remove_media (e : nat) (dom : list Node) :
  containers (remove_media e dom) = map (without [e]) (containers dom).
Proof.
  unfold remove_media. induction dom as [|n dom IH]; simpl; [reflexivity|].
  destruct n as [a|c]; simpl.
  - destruct (bool_decide (v_id a = e)); simpl; exact IH.
  - rewrite IH. f_equal. unfold without. f_equal.
    apply filter_ext. intros el. f_equal.
    apply bool_decide_ext. rewrite list_elem_of_singleton. reflexivity.
Qed.

Lemma containers_remove_containers (sel : string -> bool) (dom : list Node) :
  containers (remove_containers sel dom)
  = List.filter (fun c => negb (has_identity sel c)) (containers dom).
Proof.
  unfold remove_containers. induction dom as [|n dom IH]; simpl; [reflexivity|].
  destruct n as [a|c]; simpl; [exact IH|].
  destruct (has_identity sel c); simpl; rewrite IH; reflexivity.
Qed.

Lemma containers_remove_all (els : list nat) (dom : list Node) :
  exists g, containers (fold_left (fun d e => remove_media e d) els dom)
            = map g (containers dom)
            ∧ forall c, c_active (g c) = c_active c ∧ c_pinned (g c) = c_pinned c
                        ∧ c_identity (g c) = c_identity c ∧ c_id (g c) = c_id c.
Proof.
  revert dom. induction els as [|e els IH]; intros dom; simpl.
  - exists id. rewrite map_id. split; [reflexivity|]. intros c. repeat split.
  - destruct (IH (remove_media e dom)) as (g & Hg & Hflags).
    exists (fun c => g (without [e] c)). split.
    + rewrite Hg, containers_remove_media, map_map. reflexivity.
    + intros c. destruct (Hflags (without [e] c)) as (E1 & E2 & E3 & E4).
      rewrite E1, E2, E3, E4. repeat split.
Qed.

Lemma filter_map_comm {A B} (f : B -> bool) (g : A -> B) (l : list A) :
  List.filter f (map g l) = map g (List.filter (fun x => f (g x)) l).
Proof.
  induction l as [|x l IH]; simpl; [reflexivity|].
  destruct (f (g x)); simpl; rewrite IH; reflexivity.
Qed.

(** How [detachTrack] ends, and what it does to the thumbnails.  On a
    data track it throws at once and changes nothing.  An audio or video
    track is detached from everything it was attached to.  For an audio
    track every container stays.  For a video track the containers that
    the selector built from the participant's identity selects are
    removed, also one that shows another video track of the participant,
    and the others stay in order; when jQuery rejects that selector
    [detachTrack] throws after the track has been detached, and every
    container stays. *)
Theorem detachTrack_thumbnails (t : Track) (p : Participant) (w : World) :
  let w' := exec (detachTrack t p) w in
  (track_kind t = data ->
     outcome (detachTrack t p) w = Throw TypeError ∧ w' = w)
  ∧ (track_kind t ≠ data ->
     attached_to (track_ref t) w' = []
     ∧ calls w' = calls w ++ [CDetach (track_ref t)])
  ∧ (track_kind t = audio ->
     outcome (detachTrack t p) w = Normal tt
     ∧ map c_id (containers (participants_dom w')) = map c_id (containers (participants_dom w))
     ∧ (attached_to (track_ref t) w = [] -> participants_dom w' = participants_dom w))
  ∧ (forall sel, track_kind t = video ->
     container_selector (browser w) (p_identity p) = Some sel ->
     outcome (detachTrack t p) w = Normal tt
     ∧ (forall c, In c (containers (participants_dom w')) -> has_identity sel c = false)
     ∧ map c_id (containers (participants_dom w'))
       = map c_id (List.filter (fun c => negb (has_identity sel c))
                               (containers (participants_dom w))))
  ∧ (track_kind t = video ->
     container_selector (browser w) (p_identity p) = None ->
     outcome (detachTrack t p) w = Throw SyntaxError
     ∧ map c_id (containers (participants_dom w')) = map c_id (containers (participants_dom w))).
Proof.
  unfold outcome, exec. rewrite detachTrack_closed. cbv zeta. cbn [fst snd].
  destruct (containers_remove_all (attached_to (track_ref t) w) (participants_dom w))
    as (g & Hg & Hflags).
  assert (Hids : map c_id (map g (containers (participants_dom w)))
                 = map c_id (containers (participants_dom w))).
  { rewrite map_map. apply map_ext. intros c. apply Hflags. }
  unfold detach_outcome, detached, detached_dom. cbv zeta.
  split; [|split; [|split; [|split]]].
  - intros Hk. rewrite Hk. split; reflexivity.
  - intros Hk. destruct (track_kind t); [| |congruence];
      (split; [unfold attached_to; simpl; rewrite lookup_insert_eq; reflexivity|reflexivity]).
  - intros Hk. rewrite Hk. simpl. split; [reflexivity|]. split.
    + rewrite Hg. exact Hids.
    + intros Ha. rewrite Ha. reflexivity.
  - intros sel Hk Hs. rewrite Hk, Hs. simpl. split; [reflexivity|].
    rewrite containers_remove_containers, Hg. split.
    + intros c Hin. apply filter_In in Hin as [_ Hid].
      apply negb_true_iff in Hid. exact Hid.
    + rewrite filter_map_comm, map_map.
      assert (Hf : forall c, negb (has_identity sel (g c)) = negb (has_identity sel c)).
      { intros c. destruct (Hflags c) as (_ & _ & E & _).
        unfold has_identity. rewrite E. reflexivity. }
      rewrite (filter_ext _ _ Hf). apply map_ext. intros c. apply Hflags.
  - intros Hk Hs. rewrite Hk, Hs. simpl. split; [reflexivity|].
    rewrite Hg. exact Hids.
Qed.

Lemma detachTrack_thumbnails_witness :
  let w := Demo.three_videos in
  let bobs := fun v : string => bool_decide (v = "bob"%string) in
  track_kind Demo.bob_video = video
  ∧ container_selector (browser w) (p_identity Demo.bob) = Some bobs
  ∧ outcome (detachTrack Demo.bob_video Demo.bob) w = Normal tt
  ∧ map c_id (containers (participants_dom (exec (detachTrack Demo.bob_video Demo.bob) w)))
    = map c_id (List.filter (fun c => negb (has_identity bobs c))
                            (containers (participants_dom w)))
  ∧ track_kind Demo.bob_chat = data
  ∧ exec (detachTrack Demo.bob_chat Demo.bob) w = w.
Proof.
  intros w bobs.
  assert (Hs : container_selector (browser w) (p_identity Demo.bob) = Some bobs)
    by reflexivity.
  pose proof (proj1 (proj2 (proj2 (proj2 (detachTrack_thumbnails Demo.bob_video Demo.bob w))))
                bobs eq_refl Hs) as (H1 & _ & H3).
  pose proof (proj1 (detachTrack_thumbnails Demo.bob_chat Demo.bob w) eq_refl) as [_ H4].
  split; [reflexivity|]. split; [exact Hs|]. split; [exact H1|]. split; [exact H3|].
  split; [reflexivity|exact H4].
Defined.

(** ** The decoration of the containers *)

(** The decoration is kept when every container of the new DOM is
    undecorated or has the classes and the identity of an old one. *)
Lemma decoration_ok_ext (w w' : World) :
  activeParticipant w' = activeParticipant w ->
  browser w' = browser w ->
  (forall c', In c' (containers (participants_dom w')) ->
     (c_active c' = false ∧ c_pinned c' = false)
     ∨ exists c, In c (containers (participants_dom w))
                 ∧ c_active c = c_active c' ∧ c_pinned c = c_pinned c'
                 ∧ c_identity c = c_identity c') ->
  decoration_ok w -> decoration_ok w'.
Proof.
  intros Ha Hb Hc Hok c' Hin.
  destruct (Hc c' Hin) as [[H1 H2]|(c & Hc' & E1 & E2 & E3)].
  - rewrite H1, H2. split; discriminate.
  - destruct (Hok c Hc') as [Hp Hact]. rewrite <- E1, <- E2, Ha, Hb.
    split; [exact Hp|]. intros Hca. destruct (Hact Hca) as (ap & sel & H1 & H2 & H3).
    exists ap, sel. split; [exact H1|]. split; [exact H2|].
    unfold has_identity in *. rewrite <- E3. exact H3.
Qed.

Lemma decoration_ok_map (w : World) (g : Container -> Container) (dom' : list Node) :
  containers dom' = map g (containers (participants_dom w)) ->
  (forall c, c_active (g c) = c_active c ∧ c_pinned (g c) = c_pinned c
             ∧ c_identity (g c) = c_identity c) ->
  decoration_ok w -> decoration_ok (set_dom dom' w).
Proof.
  intros Hd Hg. apply decoration_ok_ext; [reflexivity|reflexivity|].
  intros c' Hin. simpl in Hin. rewrite Hd in Hin.
  apply in_map_iff in Hin as (c & <- & Hc). right. exists c.
  destruct (Hg c) as (E1 & E2 & E3). repeat split; auto.
Qed.

(** After the first statement of [setActiveParticipant] no container
    carries a class. *)
Lemma undecorated_plain (old : string -> bool) (w : World) :
  decoration_ok w ->
  active_selector old w ->
  forall c, In c (containers (undecorated old w)) ->
    c_active c = false ∧ c_pinned c = false.
Proof.
  intros Hok Hold c Hin. unfold undecorated in Hin.
  assert (Hplain : forall c0, In c0 (containers (participants_dom w)) ->
                     c_active c0 = false -> c_active c0 = false ∧ c_pinned c0 = false).
  { intros c0 Hc0 Ha. split; [exact Ha|]. destruct (Hok c0 Hc0) as [Hp _].
    destruct (c_pinned c0); [|reflexivity]. rewrite Hp in Ha by reflexivity. discriminate. }
  destruct (activeParticipant w) as [ap|] eqn:Ha.
  - rewrite containers_on_matching in Hin. apply in_map_iff in Hin as (c0 & <- & Hc0).
    destruct (has_identity old c0) eqn:Hid; [split; reflexivity|].
    apply (Hplain c0 Hc0). destruct (c_active c0) eqn:Hca; [|reflexivity].
    destruct (Hok c0 Hc0) as [_ Hact].
    destruct (Hact Hca) as (ap' & sel & H1 & H2 & H3).
    rewrite Ha in H1. injection H1 as <-. rewrite (Hold ap Ha) in H2. injection H2 as <-.
    congruence.
  - apply (Hplain c Hin). destruct (c_active c) eqn:Hca; [|reflexivity].
    destruct (Hok c Hin) as [_ Hact].
    destruct (Hact Hca) as (ap' & sel & H1 & _). rewrite Ha in H1. discriminate.
Qed.

Lemma decoration_ok_plain (w : World) :
  (forall c, In c (containers (participants_dom w)) ->
     c_active c = false ∧ c_pinned c = false) ->
  decoration_ok w.
Proof. intros H c Hin. destruct (H c Hin) as [-> ->]. split; discriminate. Qed.

Lemma decoration_ok_decorated (p : Participant) (old sel : string -> bool) (w : World) :
  decoration_ok w ->
  active_selector old w ->
  container_selector (browser w) (p_identity p) = Some sel ->
  decoration_ok (set_dom (decorated old sel w) (set_activeParticipant (Some p) w)).
Proof.
  intros Hok Hold Hs c' Hin. simpl in Hin.
  set (act := fun c : Container => if has_identity sel c then with_active true c else c).
  set (pin := fun c : Container =>
         if isActiveParticipantPinned w
         then (if has_identity sel c then with_pinned true c else c)
         else c).
  assert (Hd : containers (decorated old sel w)
               = map (fun c => pin (act c)) (containers (undecorated old w))).
  { unfold decorated, pin, act. cbv zeta.
    destruct (isActiveParticipantPinned w);
      rewrite ?containers_on_matching, ?map_map; reflexivity. }
  rewrite Hd in Hin. apply in_map_iff in Hin as (c & <- & Hc).
  destruct (undecorated_plain old w Hok Hold c Hc) as [Hca Hcp].
  unfold pin, act. destruct (has_identity sel c) eqn:Hid.
  - change (has_identity sel (with_active true c)) with (has_identity sel c).
    rewrite Hid.
    assert (Ha' : c_active (if isActiveParticipantPinned w
                            then with_pinned true (with_active true c)
                            else with_active true c) = true)
      by (destruct (isActiveParticipantPinned w); reflexivity).
    split; [intros _; exact Ha'|]. intros _. exists p, sel.
    split; [reflexivity|]. split; [exact Hs|].
    destruct (isActiveParticipantPinned w); exact Hid.
  - rewrite Hid. assert (E : (if isActiveParticipantPinned w then c else c) = c)
      by (destruct (isActiveParticipantPinned w); reflexivity).
    rewrite E, Hca, Hcp. split; discriminate.
Qed.

Lemma deco_track_attach t : inv decoration_ok (track_attach t).
Proof. intros w H; exact H. Qed.

Lemma deco_attachAudioTrack t : inv decoration_ok (attachAudioTrack t).
Proof.
  unfold attachAudioTrack. apply inv_bind; [apply deco_track_attach|]. intros el.
  apply inv_modify. intros w. apply decoration_ok_ext; [reflexivity|reflexivity|].
  intros c Hin. simpl in Hin. rewrite containers_app in Hin. simpl in Hin.
  rewrite app_nil_r in Hin. right. exists c. auto.
Qed.

Lemma deco_attachVideoTrack t p : inv decoration_ok (attachVideoTrack t p).
Proof.
  unfold attachVideoTrack. apply inv_bind; [intros w H; exact H|]. intros k.
  apply inv_bind.
  - apply inv_modify. intros w. apply decoration_ok_ext; [reflexivity|reflexivity|].
    intros c Hin. simpl in Hin. rewrite containers_app in Hin.
    apply in_app_or in Hin as [Hin|[<-|[]]]; [right; exists c; auto|].
    left. split; reflexivity.
  - intros _. apply inv_bind; [apply deco_track_attach|]. intros el.
    apply inv_modify. intros w.
    apply (decoration_ok_map w _ _ (containers_append_child k el (participants_dom w))).
    intros c. destruct (bool_decide (c_id c = k)); repeat split.
Qed.

Lemma deco_attachTrack t p : inv decoration_ok (attachTrack t p).
Proof.
  unfold attachTrack. destruct (track_kind t);
    [apply deco_attachAudioTrack|apply deco_attachVideoTrack|apply inv_ret].
Qed.

Lemma deco_detachTrack t p : inv decoration_ok (detachTrack t p).
Proof.
  intros w. rewrite detachTrack_closed. cbn [snd]. unfold detached.
  destruct (track_kind t) eqn:Hk; [| |intros H; exact H];
    (apply decoration_ok_ext; [reflexivity|reflexivity|];
     intros c' Hin; simpl in Hin; unfold detached_dom in Hin; cbv zeta in Hin;
     rewrite Hk in Hin;
     destruct (containers_remove_all (attached_to (track_ref t) w) (participants_dom w))
       as (g & Hg & Hflags);
     assert (Hin' : In c' (map g (containers (participants_dom w))));
     [rewrite <- Hg; try exact Hin;
      destruct (container_selector (browser w) (p_identity p)); try exact Hin;
      rewrite containers_remove_containers in Hin; apply filter_In in Hin; tauto
     |apply in_map_iff in Hin' as (c & <- & Hc); right; exists c;
      destruct (Hflags c) as (E1 & E2 & E3 & _); auto]).
Qed.

Lemma deco_trackPublished pub p : inv decoration_ok (trackPublished pub p).
Proof. unfold trackPublished. inv_auto; auto using deco_attachTrack. Qed.

Lemma deco_participantConnected p : inv decoration_ok (participantConnected p).
Proof. unfold participantConnected. inv_auto; auto using deco_trackPublished. Qed.

Lemma deco_setActiveParticipant p : inv decoration_ok (setActiveParticipant p).
Proof.
  intros w H.
  assert (Hcase : (exists ap, activeParticipant w = Some ap
                              ∧ container_selector (browser w) (p_identity ap) = None)
                  ∨ exists old, active_selector old w).
  { destruct (activeParticipant w) as [ap|] eqn:Ha.
    - destruct (container_selector (browser w) (p_identity ap)) as [old|] eqn:Hs.
      + right. exists old. intros ap' Hap. rewrite Ha in Hap. injection Hap as <-. exact Hs.
      + left. exists ap. split; [reflexivity|exact Hs].
    - right. exists (fun _ => false). intros ap Hap. rewrite Ha in Hap. discriminate. }
  destruct Hcase as [(ap & Ha & Hs)|[old Hold]].
  - rewrite (setActiveParticipant_rejected p ap w Ha Hs). exact H.
  - rewrite (setActiveParticipant_closed p old w Hold).
    destruct (container_selector (browser w) (p_identity p)) as [sel|] eqn:Hs.
    + pose proof (decoration_ok_decorated p old sel w H Hold Hs) as H'. cbv zeta.
      destruct (video_selector (browser w) (p_identity p)) as [vsel|]; [|exact H'].
      destruct (activeVideo w), (head (videos_of vsel (participants_dom w))); exact H'.
    + apply decoration_ok_plain. intros c Hin. simpl in Hin.
      apply (undecorated_plain old w H Hold c Hin).
Qed.

Lemma deco_setCurrentActiveParticipant o : inv decoration_ok (setCurrentActiveParticipant o).
Proof.
  unfold setCurrentActiveParticipant. inv_auto. apply deco_setActiveParticipant.
Qed.

Lemma deco_container_click p : inv decoration_ok (container_click p).
Proof.
  unfold container_click. inv_auto;
    auto using deco_setActiveParticipant, deco_setCurrentActiveParticipant.
Qed.

Lemma deco_teardown r t j : inv decoration_ok (teardown r t j).
Proof.
  unfold teardown, room_get, resolve. inv_auto; auto using deco_detachTrack.
  destruct (promises w !! j) as [[]|]; assumption.
Qed.

Lemma deco_room_listener r l ev : inv decoration_ok (room_listener r l ev).
Proof.
  destruct l, ev; simpl; try apply inv_ret.
  - apply deco_participantConnected.
  - inv_auto. apply deco_setCurrentActiveParticipant.
  - inv_auto. apply deco_setCurrentActiveParticipant.
  - apply deco_teardown.
Qed.

Lemma deco_room_emit r ev : inv decoration_ok (room_emit r ev).
Proof.
  apply inv_room_emit; [intros w l H; exact H|]. intros l. apply deco_room_listener.
Qed.

Lemma deco_joinRoom_connected j r room : inv decoration_ok (joinRoom_connected j r room).
Proof.
  unfold joinRoom_connected, register.
  apply inv_bind; [apply inv_modify; intros w H; exact H|]. intros _.
  destruct (lp_videoTracks (localParticipant room)) as [|pub rest]; [apply inv_throw|].
  apply inv_bind; [apply deco_attachVideoTrack|]. intros _.
  apply inv_bind; [apply inv_forEach; intros x; apply deco_participantConnected|]. intros _.
  inv_auto. apply deco_setCurrentActiveParticipant.
Qed.

Lemma deco_step (w : World) (e : Event) : decoration_ok w -> decoration_ok (step w e).
Proof.
  revert w. change (inv decoration_ok (handle e)).
  destruct e as [j c|r p|r p|r d|p pub|pub t|pub t|r|c| | |]; simpl.
  - apply inv_modify. intros w H. unfold joinRoom. destruct c as [r room|]; [|exact H].
    match goal with |- context [joinRoom_connected j r room ?w1] =>
      pose proof (deco_joinRoom_connected j r room w1 H) as H1;
      destruct (joinRoom_connected j r room w1) as [[[]|err] w2] end; exact H1.
  - apply inv_bind; [apply inv_modify; intros ? H; exact H|intros _]. apply deco_room_emit.
  - apply inv_bind; [apply inv_modify; intros ? H; exact H|intros _]. apply deco_room_emit.
  - apply inv_bind; [apply inv_modify; intros ? H; exact H|intros _]. apply deco_room_emit.
  - unfold participant_trackPublished. inv_auto. apply deco_trackPublished.
  - unfold publication_subscribed. inv_auto. apply deco_attachTrack.
  - unfold publication_unsubscribed. inv_auto. apply deco_detachTrack.
  - apply deco_room_emit.
  - inv_auto. apply deco_container_click.
  - unfold onLeave. inv_auto. apply deco_room_emit.
  - inv_auto. apply deco_room_emit.
  - inv_auto. apply deco_room_emit.
Qed.

(** Whatever happens on the page, and whatever the identities, a
    container carries the [active] class only if the selector built from
    the identity of the active participant selects it, and the [pinned]
    class only together with [active]: the thumbnails of no other
    participant are highlighted. *)
Theorem decoration_follows_active_participant (b : Browser) (es : list Event) :
  decoration_ok (run es (initial b)).
Proof.
  assert (H0 : decoration_ok (initial b)) by (intros c []).
  revert H0. generalize (initial b) as w.
  induction es as [|e es IH]; intros w H; simpl; [exact H|].
  apply IH, deco_step, H.
Qed.

(** ** Joining while the dominant speaker has no thumbnail *)

Lemma videos_of_no_container (sel : string -> bool) (w : World) :
  no_container_of sel w -> videos_of sel (participants_dom w) = [].
Proof.
  unfold no_container_of, videos_of, containers.
  induction (participants_dom w) as [|n dom IH]; simpl; [reflexivity|].
  intros H. destruct n as [a|c]; simpl in *; [apply IH, H|].
  rewrite (H c) by (left; reflexivity).
  apply IH. intros c' Hc'. apply H. right. exact Hc'.
Qed.

Lemma unseen_attachAudioTrack b sel t : inv (unseen b sel) (attachAudioTrack t).
Proof.
  unfold attachAudioTrack. apply inv_bind; [intros w H; exact H|]. intros el.
  apply inv_modify. intros w [Hb H]. split; [exact Hb|]. intros c Hin.
  simpl in Hin. rewrite containers_app in Hin.
  simpl in Hin. rewrite app_nil_r in Hin. apply H, Hin.
Qed.

Lemma unseen_attachVideoTrack b sel t p :
  sel (attribute_value b (p_identity p)) = false ->
  inv (unseen b sel) (attachVideoTrack t p).
Proof.
  intros Hp. unfold attachVideoTrack. apply inv_bind; [intros w H; exact H|]. intros k.
  apply inv_bind.
  - apply inv_modify. intros w [Hb H]. split; [exact Hb|]. intros c Hin.
    simpl in Hin. rewrite containers_app in Hin.
    apply in_app_or in Hin as [Hin|[<-|[]]]; [apply H, Hin|].
    unfold has_identity. simpl. rewrite Hb. exact Hp.
  - intros _. apply inv_bind; [intros w H; exact H|]. intros el.
    apply inv_modify. intros w [Hb H]. split; [exact Hb|]. intros c Hin. simpl in Hin.
    rewrite containers_append_child in Hin. apply in_map_iff in Hin as (c0 & <- & Hc0).
    destruct (bool_decide (c_id c0 = k)); exact (H c0 Hc0).
Qed.

Lemma unseen_trackPublished b sel pub p :
  (forall t, pub_track pub = Some t -> track_kind t = video ->
             sel (attribute_value b (p_identity p)) = false) ->
  inv (unseen b sel) (trackPublished pub p).
Proof.
  intros Hp. unfold trackPublished. apply inv_bind.
  - destruct (pub_track pub) as [t|]; [|apply inv_ret].
    unfold attachTrack. destruct (track_kind t) eqn:Hk;
      [apply unseen_attachAudioTrack
      |apply unseen_attachVideoTrack; apply (Hp t); auto
      |apply inv_ret].
  - intros _. inv_auto.
Qed.

Lemma unseen_participantConnected b sel rp :
  (forall pub t, In pub (rp_tracks rp) -> pub_track pub = Some t ->
                 track_kind t = video ->
                 sel (attribute_value b (p_identity (rp_self rp))) = false) ->
  inv (unseen b sel) (participantConnected rp).
Proof.
  intros Hp. unfold participantConnected. apply inv_bind.
  - apply inv_forEach_in. intros pub Hin. apply unseen_trackPublished.
    intros t. apply Hp, Hin.
  - intros _. inv_auto.
Qed.

Lemma setCurrentActiveParticipant_some (r : nat) (rm : Room) (w : World) :
  rooms w !! r = Some rm ->
  setCurrentActiveParticipant (Some r) w =
  setActiveParticipant (default (lp_self (localParticipant rm)) (dominantSpeaker rm)) w.
Proof.
  intros Hr. unfold setCurrentActiveParticipant, bind, get. simpl. rewrite Hr. reflexivity.
Qed.

Lemma active_selector_frame (old : string -> bool) (w w' : World) :
  activeParticipant w' = activeParticipant w ->
  browser w' = browser w ->
  active_selector old w -> active_selector old w'.
Proof.
  intros Ha Hb H ap Hap. rewrite Hb. apply H. rewrite <- Ha. exact Hap.
Qed.

(** When the room's dominant speaker has no video thumbnail at the
    moment of joining (the video selector built from that identity
    selects no container on the page, and would select neither the local
    preview nor the container of a subscribed video track among the
    participants), the setup throws in [setCurrentActiveParticipant]: the
    promise of [joinRoom] is rejected with the room still connected, the
    local preview attached and the [participantConnected] and
    [participantDisconnected] listeners registered, but with no leave
    handler, no unload listener and no teardown registered. *)
Theorem join_with_invisible_dominant_speaker
    (w : World) (j r : nat) (room : Room) (d : Participant)
    (pub : LocalTrackPublication) (rest : list LocalTrackPublication)
    (old sel vsel : string -> bool) :
  lp_videoTracks (localParticipant room) = pub :: rest ->
  dominantSpeaker room = Some d ->
  active_selector old w ->
  container_selector (browser w) (p_identity d) = Some sel ->
  video_selector (browser w) (p_identity d) = Some vsel ->
  no_container_of vsel w ->
  vsel (attribute_value (browser w) (p_identity (lp_self (localParticipant room)))) = false ->
  no_video_of (browser w) vsel (participants room) ->
  let w' := joinRoom j (ConnectFulfilled r room) w in
  promises w' !! j = Some Rejected
  ∧ window_room w' = Some r
  ∧ activeParticipant w' = Some d
  ∧ activeVideo w' = activeVideo w
  ∧ In (CAttach (track_ref (ltp_track pub))) (calls w')
  ∧ leave_click w' = leave_click w
  ∧ beforeunload w' = beforeunload w
  ∧ pagehide w' = pagehide w
  ∧ room_listeners w' =
      room_listeners w ++ [(r, OnParticipantConnected); (r, OnParticipantDisconnected)].
Proof.
  intros Hv Hd Hold Hsel Hvsel Hnone Hid Hnv w'.
  assert (Ex : w' = joinRoom j (ConnectFulfilled r room) w) by reflexivity.
  clearbody w'. unfold joinRoom in Ex.
  set (w0 := set_rooms _ _) in Ex.
  assert (Hr0 : rooms w0 !! r = Some room) by (subst w0; simpl; apply lookup_insert_eq).
  assert (Hthrow : exists w5,
             joinRoom_connected j r room w0 = (Throw TypeError, w5)
             ∧ window_room w5 = Some r
             ∧ activeParticipant w5 = Some d
             ∧ activeVideo w5 = activeVideo w
             ∧ In (CAttach (track_ref (ltp_track pub))) (calls w5)
             ∧ leave_click w5 = leave_click w
             ∧ beforeunload w5 = beforeunload w
             ∧ pagehide w5 = pagehide w
             ∧ room_listeners w5 = room_listeners w ++
                 [(r, OnParticipantConnected); (r, OnParticipantDisconnected)]).
  { unfold joinRoom_connected. rewrite Hv.
    unfold bind at 1. unfold modify at 1.
    set (w1 := set_window_room (Some r) w0).
    assert (H1 : unseen (browser w) vsel w1) by (split; [reflexivity|exact Hnone]).
    unfold bind at 1.
    pose proof (unseen_attachVideoTrack (browser w) vsel (ltp_track pub)
                  (lp_self (localParticipant room)) Hid w1 H1) as H2.
    destruct (run_media (attachVideoTrack (ltp_track pub) (lp_self (localParticipant room))) w1)
      as (a2 & w2 & E2 & F2).
    { apply (nothrow_attachTrack {| track_ref := track_ref (ltp_track pub);
                                    track_kind := video |}). }
    { intros wx. apply (media_attachTrack wx {| track_ref := track_ref (ltp_track pub);
                                                track_kind := video |}). }
    destruct (appends_attachVideoTrack (ltp_track pub) (lp_self (localParticipant room)) w1)
      as (w2' & E2' & C2 & _).
    rewrite E2 in E2'. destruct a2. injection E2' as Hw2. subst w2'.
    rewrite E2 in H2 |- *. simpl in H2.
    unfold bind at 1.
    assert (H3 : inv (unseen (browser w) vsel)
                     (forEach participantConnected (participants room))).
    { apply inv_forEach_in. intros rp Hrp. apply unseen_participantConnected.
      intros q t Hq Ht Hk. exact (Hnv rp q t Hrp Hq Ht Hk). }
    specialize (H3 w2 H2).
    destruct (run_media (forEach participantConnected (participants room)) w2)
      as (a3 & w3 & E3 & F3).
    { apply nothrow_forEach, nothrow_participantConnected. }
    { intros wx. apply inv_forEach. intros x. apply media_participantConnected. }
    destruct (appends_forEach participantConnected _ _ _ (participants room) w2
                (fun x w' => appends_participantConnected x w'))
      as (w3' & E3' & C3 & _).
    rewrite E3 in E3'. destruct a3. injection E3' as Hw3. subst w3'.
    rewrite E3 in H3 |- *. simpl in H3.
    unfold bind at 1. unfold register at 1, modify at 1.
    unfold bind at 1. unfold register at 1, modify at 1.
    set (w4 := set_room_listeners _ (set_room_listeners _ w3)).
    assert (H4 : no_container_of vsel w4) by exact (proj2 H3).
    destruct F2 as (A2 & P2 & W2 & V2 & L2 & B2 & G2 & R2 & M2 & N2 & Q2).
    destruct F3 as (A3 & P3 & W3 & V3 & L3 & B3 & G3 & R3 & M3 & N3 & Q3).
    assert (Hr4 : rooms w4 !! r = Some room).
    { subst w4 w1. simpl. rewrite M3, M2. exact Hr0. }
    assert (Hb4 : browser w4 = browser w).
    { subst w4 w1 w0. simpl. rewrite R3, R2. reflexivity. }
    assert (Ho4 : active_selector old w4).
    { apply (active_selector_frame old w); [|exact Hb4|exact Hold].
      subst w4 w1 w0. simpl. rewrite A3, A2. reflexivity. }
    unfold bind at 1. rewrite (setCurrentActiveParticipant_some r room w4 Hr4).
    rewrite Hd. simpl (default _ _).
    rewrite (setActiveParticipant_closed d old w4 Ho4). rewrite Hb4, Hsel, Hvsel. cbv zeta.
    rewrite (videos_of_no_container _ _ H4). simpl (head []).
    eexists. split; [destruct (activeVideo w4); reflexivity|].
    subst w4 w1 w0. simpl.
    rewrite W3, W2, V3, V2, L3, L2, B3, B2, G3, G2, N3, N2, C3, C2. simpl.
    repeat split; try reflexivity.
    - apply in_or_app. left. apply in_or_app. right. left. reflexivity.
    - rewrite <- app_assoc. reflexivity. }
  destruct Hthrow as (w5 & E5 & Hw & Ha & Hav & Hc & Hl & Hb & Hp & Hrl).
  rewrite E5 in Ex. subst w'. simpl.
  rewrite lookup_insert_eq. repeat split; assumption.
Qed.

(** Alice joins an empty page's first room while the room reports Dave,
    who publishes no video, as its dominant speaker. *)
Lemma join_with_invisible_dominant_speaker_witness :
  let dave := {| p_ref := 4; p_identity := "dave" |} in
  let daves := fun v : string => bool_decide (v = "dave"%string) in
  let room := {| localParticipant := localParticipant Demo.room;
                 dominantSpeaker := Some dave;
                 participants := participants Demo.room |} in
  let w' := joinRoom 0 (ConnectFulfilled 100 room) (initial Demo.desktop) in
  no_container_of daves (initial Demo.desktop)
  ∧ no_video_of Demo.desktop daves (participants room)
  ∧ promises w' !! 0 = Some Rejected
  ∧ window_room w' = Some 100
  ∧ activeParticipant w' = Some dave
  ∧ leave_click w' = []
  ∧ room_listeners w' = [(100, OnParticipantConnected); (100, OnParticipantDisconnected)].
Proof.
  intros dave daves room w'.
  assert (Hn : no_container_of daves (initial Demo.desktop)) by (intros c []).
  assert (Hnv : no_video_of Demo.desktop daves (participants room)).
  { intros p pub t [<-|[<-|[]]] Hpub Ht _; simpl in Hpub.
    - destruct Hpub as [<-|[<-|[]]]; [reflexivity|discriminate].
    - destruct Hpub as [<-|[]]. discriminate. }
  assert (Hold : active_selector (fun _ => false) (initial Demo.desktop))
    by (intros ap Hap; discriminate).
  pose proof (join_with_invisible_dominant_speaker (initial Demo.desktop) 0 100 room dave
                {| ltp_track := Demo.camera |} [] (fun _ => false) daves daves
                eq_refl eq_refl Hold eq_refl eq_refl Hn eq_refl Hnv)
    as (H1 & H2 & H3 & _ & _ & H6 & _ & _ & H9).
  split; [exact Hn|]. split; [exact Hnv|]. split; [exact H1|]. split; [exact H2|].
  split; [exact H3|]. split; [exact H6|exact H9].
Defined.

(** ** The handlers on the leave button and on the page *)

(** A part [f] of the world that the media, the selection, the teardown
    and the listener tables of the rooms do not reach is kept by every
    handler that the rooms, the publications and the containers run. *)
Section Untouched.
Context {X : Type} (f : World -> X) (x : X).
Hypothesis f_media : forall w w', except_media w w' -> f w' = f w.
Hypothesis f_selection :
  forall w p d v, f (set_activeVideo v (set_dom d (set_activeParticipant p w))) = f w.
Hypothesis f_pinned : forall w b, f (set_pinned b w) = f w.
Hypothesis f_window_room : forall w o, f (set_window_room o w) = f w.
Hypothesis f_activeVideo : forall w v, f (set_activeVideo v w) = f w.
Hypothesis f_promises : forall w m, f (set_promises m w) = f w.
Hypothesis f_room_listeners : forall w l, f (set_room_listeners l w) = f w.
Hypothesis f_rooms : forall w m, f (set_rooms m w) = f w.

Let I (w : World) : Prop := f w = x.

Lemma untouched_media w w' : except_media w w' -> I w -> I w'.
Proof using f_media. intros H Hw. unfold I in *. rewrite (f_media w w' H). exact Hw. Qed.

Lemma untouched_attachTrack t p : inv I (attachTrack t p).
Proof using f_media.
  apply media_inv; [apply untouched_media|]. intros w0. apply media_attachTrack.
Qed.

Lemma untouched_detachTrack t p : inv I (detachTrack t p).
Proof using f_media.
  apply media_inv; [apply untouched_media|]. intros w0. apply media_detachTrack.
Qed.

Lemma untouched_trackPublished pub p : inv I (trackPublished pub p).
Proof using f_media.
  apply media_inv; [apply untouched_media|]. intros w0. apply media_trackPublished.
Qed.

Lemma untouched_participantConnected p : inv I (participantConnected p).
Proof using f_media.
  apply media_inv; [apply untouched_media|]. intros w0. apply media_participantConnected.
Qed.

Lemma untouched_setActiveParticipant p : inv I (setActiveParticipant p).
Proof using f_selection.
  intros w H. destruct (setActiveParticipant_cases p w) as [E|(d & v & E)];
    unfold exec in E; rewrite E; [exact H|].
  unfold I. rewrite f_selection. exact H.
Qed.

Lemma untouched_setCurrentActiveParticipant o : inv I (setCurrentActiveParticipant o).
Proof using f_selection.
  unfold setCurrentActiveParticipant. inv_auto. apply untouched_setActiveParticipant.
Qed.

Lemma untouched_container_click p : inv I (container_click p).
Proof using f_selection f_pinned.
  unfold container_click. inv_auto;
    try (unfold I in *; rewrite f_pinned; assumption);
    auto using untouched_setActiveParticipant, untouched_setCurrentActiveParticipant.
Qed.

Lemma untouched_teardown r t j : inv I (teardown r t j).
Proof using f_media f_window_room f_activeVideo f_promises.
  unfold teardown, room_get, resolve. inv_auto; auto using untouched_detachTrack;
    unfold I in *; rewrite ?f_window_room, ?f_activeVideo; try assumption.
  destruct (promises w !! j) as [[]|]; rewrite ?f_promises; assumption.
Qed.

Lemma untouched_room_listener r l ev : inv I (room_listener r l ev).
Proof using f_media f_selection f_pinned f_window_room f_activeVideo f_promises.
  destruct l, ev; simpl; try apply inv_ret.
  - apply untouched_participantConnected.
  - inv_auto; try (unfold I in *; rewrite f_pinned; assumption).
    apply untouched_setCurrentActiveParticipant.
  - inv_auto. apply untouched_setCurrentActiveParticipant.
  - apply untouched_teardown.
Qed.

Lemma untouched_room_emit r ev : inv I (room_emit r ev).
Proof using f_media f_selection f_pinned f_window_room f_activeVideo f_promises
            f_room_listeners.
  apply inv_room_emit.
  - intros w l H. unfold I in *. rewrite f_room_listeners. exact H.
  - intros l. apply untouched_room_listener.
Qed.

(** Every event but a join and a click on the leave button keeps [f];
    so does a click on the leave button when [f] does not depend on the
    handlers of the button. *)
Lemma untouched_handle (e : Event) :
  (forall j c, e ≠ JoinRoom j c) ->
  (e = LeaveClick -> forall w l, f (set_leave_click l w) = f w) ->
  inv I (handle e).
Proof using f_media f_selection f_pinned f_window_room f_activeVideo f_promises
            f_room_listeners f_rooms.
  intros Hj Hl.
  destruct e as [j c|r p|r p|r d|p pub|pub t|pub t|r|c| | |]; simpl.
  - exfalso. apply (Hj j c). reflexivity.
  - unfold update_room. apply inv_bind; [|intros _; apply untouched_room_emit].
    apply inv_modify. intros w H. unfold I in *. rewrite f_rooms. exact H.
  - unfold update_room. apply inv_bind; [|intros _; apply untouched_room_emit].
    apply inv_modify. intros w H. unfold I in *. rewrite f_rooms. exact H.
  - unfold update_room. apply inv_bind; [|intros _; apply untouched_room_emit].
    apply inv_modify. intros w H. unfold I in *. rewrite f_rooms. exact H.
  - unfold participant_trackPublished. inv_auto. apply untouched_trackPublished.
  - unfold publication_subscribed. inv_auto. apply untouched_attachTrack.
  - unfold publication_unsubscribed. inv_auto. apply untouched_detachTrack.
  - apply untouched_room_emit.
  - inv_auto. apply untouched_container_click.
  - apply inv_bind; [apply inv_get|]. intros w0. apply inv_forEach. intros r.
    unfold onLeave. apply inv_bind; [|intros _; apply untouched_room_emit].
    apply inv_modify. intros w H. unfold I in *. rewrite (Hl eq_refl). exact H.
  - apply inv_bind; [apply inv_get|]. intros w0. apply inv_dispatch. intros r.
    apply untouched_room_emit.
  - apply inv_bind; [apply inv_get|]. intros w0. apply inv_dispatch. intros r.
    apply untouched_room_emit.
Qed.
End Untouched.

Lemma remove_all_self {A} `{EqDecision A} (l : list A) :
  fold_left (fun k a => remove_first a k) l l = [].
Proof.
  induction l as [|a l IH]; simpl; [reflexivity|].
  destruct (decide (a = a)); [exact IH|congruence].
Qed.

(** The leave handlers that have run have each taken themselves off the
    button, whether the last of them threw or not. *)
Lemma leave_consumed (xs : list nat) (w : World) :
  outcome (forEach onLeave xs) w = Normal tt ->
  leave_click (exec (forEach onLeave xs) w)
  = fold_left (fun k a => remove_first a k) xs (leave_click w).
Proof.
  revert w. induction xs as [|r xs IH]; intros w; [reflexivity|].
  unfold outcome, exec. simpl. unfold bind at 1 2.
  assert (Hr : leave_click (onLeave r w).2 = remove_first r (leave_click w)).
  { unfold onLeave. unfold bind. unfold modify at 1.
    pose proof (untouched_room_emit leave_click (remove_first r (leave_click w))) as Hi.
    specialize (Hi (fun _ _ '(conj _ (conj _ (conj _ (conj _ (conj H _))))) => H)).
    specialize (Hi (fun _ _ _ _ => eq_refl) (fun _ _ => eq_refl) (fun _ _ => eq_refl)
                   (fun _ _ => eq_refl) (fun _ _ => eq_refl) (fun _ _ => eq_refl)).
    specialize (Hi r EvDisconnected
                   (set_leave_click (remove_first r (leave_click w)) w) eq_refl).
    unfold room_disconnect.
    destruct (room_emit r EvDisconnected _) as [c w1]. exact Hi. }
  destruct (onLeave r w) as [[[]|e] w1]; simpl in *; [|discriminate].
  intros Ho. specialize (IH w1 Ho). unfold exec in IH. rewrite IH, Hr. reflexivity.
Qed.

(** The handlers on the leave button and on the page.  A click on the
    leave button that no handler throws on leaves no handler on the
    button.  No other event but a join takes a handler off the button or
    puts one on; and no event but a join changes the [beforeunload] and
    [pagehide] listeners: the teardown leaves them on the page, where
    they call [room.disconnect()] on a room that is gone at every later
    unload. *)
Theorem page_handlers (w : World) (e : Event) :
  (e = LeaveClick -> outcome (handle e) w = Normal tt -> leave_click (step w e) = [])
  ∧ ((forall j c, e ≠ JoinRoom j c) -> e ≠ LeaveClick ->
     leave_click (step w e) = leave_click w)
  ∧ ((forall j c, e ≠ JoinRoom j c) ->
     beforeunload (step w e) = beforeunload w ∧ pagehide (step w e) = pagehide w).
Proof.
  split; [|split].
  - intros -> Ho. unfold step, handle, outcome, exec, bind, get in *.
    pose proof (leave_consumed (leave_click w) w Ho) as H. unfold exec in H.
    rewrite H. apply remove_all_self.
  - intros Hj Hl.
    apply (untouched_handle leave_click (leave_click w)); try reflexivity; try assumption.
    + intros w1 w2 (_&_&_&_&H&_). exact H.
    + intros E. contradiction.
  - intros Hj.
    assert (H : (beforeunload (step w e), pagehide (step w e))
                = (beforeunload w, pagehide w)).
    { apply (untouched_handle (fun w => (beforeunload w, pagehide w))
               (beforeunload w, pagehide w)); try reflexivity; try assumption.
      intros w1 w2 (_&_&_&_&_&H1&H2&_). rewrite H1, H2. reflexivity. }
    injection H as H1 H2. split; assumption.
Qed.

Lemma page_handlers_witness :
  outcome (handle LeaveClick) Demo.three_videos = Normal tt
  ∧ leave_click Demo.three_videos = [100]
  ∧ leave_click (step Demo.three_videos LeaveClick) = []
  ∧ beforeunload (step Demo.three_videos LeaveClick) = beforeunload Demo.three_videos
  ∧ beforeunload Demo.three_videos = [100].
Proof.
  assert (Ho : outcome (handle LeaveClick) Demo.three_videos = Normal tt)
    by (vm_compute; reflexivity).
  split; [exact Ho|]. split; [vm_compute; reflexivity|].
  split; [exact (proj1 (page_handlers Demo.three_videos LeaveClick) eq_refl Ho)|].
  split; [|vm_compute; reflexivity].
  apply (proj2 (proj2 (page_handlers Demo.three_videos LeaveClick))). discriminate.
Defined.

(** * Further properties of the media-device selection module *)

(** ** Kinds do not interfere *)

Lemma cache_by_kind_step (s : Devices.State) (e : Devices.Event) :
  cache_by_kind s -> cache_by_kind (Devices.step s e).
Proof.
  intros Hs k t. destruct e as [kind dev [ref|] | kind]; simpl; [| apply Hs |].
  - unfold Devices.applyInputDevice_then, Devices.cached. simpl.
    destruct (decide (kind = k)) as [->|Hne].
    + destruct (mjoin (Devices.localTracks s !! k)); simpl;
        rewrite lookup_insert_eq; simpl; intros H; injection H as <-; reflexivity.
    + destruct (mjoin (Devices.localTracks s !! kind)); simpl;
        rewrite lookup_insert_ne by exact Hne; apply Hs.
  - unfold Devices.onHide. destruct (Devices.cached kind s) as [t0|] eqn:Hc; [|apply Hs].
    unfold Devices.cached. simpl. destruct (decide (kind = k)) as [->|Hne].
    + rewrite lookup_insert_eq. discriminate.
    + rewrite lookup_insert_ne by exact Hne. apply Hs.
Qed.

Lemma cache_by_kind_run (es : list Devices.Event) :
  cache_by_kind (Devices.run es Devices.initial).
Proof.
  unfold Devices.run.
  assert (H0 : cache_by_kind Devices.initial).
  { intros k t. unfold Devices.cached, Devices.initial. simpl.
    destruct (decide (k = "audio"%string)) as [->|Ha];
      [rewrite lookup_insert_eq; discriminate|].
    rewrite lookup_insert_ne by congruence.
    destruct (decide (k = "video"%string)) as [->|Hv];
      [rewrite lookup_insert_eq; discriminate|].
    rewrite lookup_insert_ne by congruence. rewrite lookup_empty. discriminate. }
  revert H0. generalize Devices.initial as s0.
  induction es as [|e es IH]; intros s0 H0; simpl; [exact H0|].
  apply IH, cache_by_kind_step, H0.
Qed.

(** Applying a device of one kind, and closing the modal of one kind,
    leave the other kinds alone: their cached tracks stay cached and
    their capturing tracks keep capturing. *)
Theorem kinds_do_not_interfere
    (es : list Devices.Event) (e : Devices.Event) (kind k : string) :
  (exists dev c, e = Devices.Apply kind dev c) \/ e = Devices.Hide kind ->
  kind ≠ k ->
  let s := Devices.run es Devices.initial in
  Devices.cached k (Devices.step s e) = Devices.cached k s
  ∧ forall t, Devices.lt_kind t = k -> In t (Devices.live s) ->
              In t (Devices.live (Devices.step s e)).
Proof.
  intros He Hne s.
  pose proof (cache_by_kind_run es) as Hck. fold s in Hck.
  assert (Hstop : forall prev t, Devices.cached kind s = Some prev ->
                    Devices.lt_kind t = k -> t ≠ prev).
  { intros prev t Hc Hk ->. apply Hne. rewrite <- Hk. symmetry. apply (Hck kind prev Hc). }
  destruct He as [(dev & c & ->)| ->]; simpl.
  - destruct c as [ref|]; simpl; [|split; [reflexivity|auto]].
    unfold Devices.applyInputDevice_then.
    assert (Hc' : Devices.cached kind
              {| Devices.localTracks := Devices.localTracks s;
                 Devices.live := {| Devices.lt_ref := ref; Devices.lt_kind := kind |}
                                 :: Devices.live s;
                 Devices.rendered := Devices.rendered s |} = Devices.cached kind s)
      by reflexivity.
    rewrite Hc'. destruct (Devices.cached kind s) as [prev|] eqn:Hc.
    + split.
      * unfold Devices.cached. simpl. rewrite lookup_insert_ne by exact Hne. reflexivity.
      * intros t Hk Hin. cbn [Devices.live]. apply live_stop. split.
        -- right. exact Hin.
        -- apply (Hstop prev t eq_refl Hk).
    + split.
      * unfold Devices.cached. simpl. rewrite lookup_insert_ne by exact Hne. reflexivity.
      * intros t Hk Hin. simpl. right. exact Hin.
  - unfold Devices.onHide. destruct (Devices.cached kind s) as [prev|] eqn:Hc;
      [|split; [reflexivity|auto]].
    split.
    + unfold Devices.cached. simpl. rewrite lookup_insert_ne by exact Hne. reflexivity.
    + intros t Hk Hin. cbn [Devices.live]. apply live_stop. split; [exact Hin|].
      apply (Hstop prev t eq_refl Hk).
Qed.

Lemma kinds_do_not_interfere_witness :
  let es := [Devices.Apply "audio" "mic-1" (Devices.Created 1);
             Devices.Apply "video" "camera-1" (Devices.Created 2)] in
  let s := Devices.run es Devices.initial in
  let mic := {| Devices.lt_ref := 1; Devices.lt_kind := "audio" |} in
  In mic (Devices.live s)
  ∧ Devices.cached "audio"
      (Devices.step s (Devices.Apply "video" "camera-2" (Devices.Created 3)))
    = Devices.cached "audio" s
  ∧ In mic (Devices.live
              (Devices.step s (Devices.Apply "video" "camera-2" (Devices.Created 3))))
  ∧ In mic (Devices.live (Devices.step s (Devices.Hide "video"))).
Proof.
  intros es s mic.
  assert (Hin : In mic (Devices.live s)) by (vm_compute; auto).
  assert (Hne : "video"%string ≠ "audio"%string) by discriminate.
  pose proof (kinds_do_not_interfere es
                (Devices.Apply "video" "camera-2" (Devices.Created 3)) "video" "audio"
                (or_introl (ex_intro _ "camera-2"%string
                              (ex_intro _ (Devices.Created 3) eq_refl))) Hne)
    as [H1 H2].
  pose proof (kinds_do_not_interfere es (Devices.Hide "video") "video" "audio"
                (or_intror eq_refl) Hne) as [_ H3].
  split; [exact Hin|]. split; [exact H1|].
  split; [exact (H2 mic eq_refl Hin)|exact (H3 mic eq_refl Hin)].
Defined.

(** ** Choosing a device *)

(** [selectMedia] shows the modal only after the default device, the
    first of the kind, has been captured.  Then the promise is pending,
    the new track is cached and the two handlers of the modal are
    registered.  When the enumeration fails, when there is no input
    device of the kind, or when the capture fails, the promise is
    rejected, the modal is not shown, no handler is registered and the
    capture state is what it was. *)
Theorem selectMedia_outcome (b : Browser) (kind : string)
    (e : Selection.EnumerateResult) (c : Devices.CreateResult) (s : Devices.State) :
  let f := Selection.selectMedia b kind e c s in
  (forall ds ref,
      e = Selection.Enumerated ds ->
      (exists d, In d ds ∧ Selection.device_kind d = kind +:+ "input") ->
      c = Devices.Created ref ->
      Selection.result f = Selection.Waiting
      ∧ Selection.visible f = true
      ∧ Selection.onShow f = true ∧ Selection.onHide f = true
      ∧ Selection.setDevice f = false ∧ Selection.onApply f = false
      ∧ Devices.cached kind (Selection.capture f)
        = Some {| Devices.lt_ref := ref; Devices.lt_kind := kind |})
  ∧ (e = Selection.EnumerateFailed
     ∨ (exists ds, e = Selection.Enumerated ds
                   ∧ forall d, In d ds -> Selection.device_kind d ≠ kind +:+ "input")
     ∨ c = Devices.CreateFailed ->
     Selection.result f = Selection.Failed
     ∧ Selection.visible f = false
     ∧ Selection.onShow f = false ∧ Selection.onHide f = false
     ∧ Selection.capture f = s).
Proof.
  cbv zeta. split.
  - intros ds ref -> (d & Hd & Hk) ->. unfold Selection.selectMedia. simpl.
    destruct (List.filter _ ds) as [|d0 rest] eqn:Hf.
    + assert (Hin : In d (List.filter
                (fun device => bool_decide (Selection.device_kind device = kind +:+ "input"))
                ds)) by (apply filter_In; split; [exact Hd|apply bool_decide_eq_true, Hk]).
      rewrite Hf in Hin. destruct Hin.
    + simpl. repeat split. apply cached_insert_eq.
  - intros [-> | [(ds & -> & Hnone) | ->]]; unfold Selection.selectMedia; simpl.
    + repeat split.
    + destruct (List.filter _ ds) as [|d0 rest] eqn:Hf; [repeat split|].
      assert (Hin : In d0 (List.filter
                (fun device => bool_decide (Selection.device_kind device = kind +:+ "input"))
                ds)) by (rewrite Hf; left; reflexivity).
      apply filter_In in Hin as [Hin Hk]. apply bool_decide_eq_true in Hk.
      exfalso. exact (Hnone d0 Hin Hk).
    + destruct e as [ds|]; simpl; [|repeat split].
      destruct (List.filter _ ds); repeat split.
Qed.

Lemma selectMedia_outcome_witness :
  let camera := {| Selection.deviceId := "camera-1"; Selection.device_kind := "videoinput";
                   Selection.label := "" |} in
  let speaker := {| Selection.deviceId := "speaker-1";
                    Selection.device_kind := "audiooutput"; Selection.label := "" |} in
  Selection.result (Selection.selectMedia Demo.desktop "video"
                      (Selection.Enumerated [speaker; camera]) (Devices.Created 1)
                      Devices.initial) = Selection.Waiting
  ∧ Selection.result (Selection.selectMedia Demo.desktop "audio"
                        (Selection.Enumerated [speaker; camera]) (Devices.Created 1)
                        Devices.initial) = Selection.Failed.
Proof.
  intros camera speaker. split.
  - apply (proj1 (selectMedia_outcome Demo.desktop "video"
                    (Selection.Enumerated [speaker; camera]) (Devices.Created 1)
                    Devices.initial) [speaker; camera] 1 eq_refl);
      [|reflexivity].
    exists camera. split; [right; left; reflexivity|reflexivity].
  - apply (proj2 (selectMedia_outcome Demo.desktop "audio"
                    (Selection.Enumerated [speaker; camera]) (Devices.Created 1)
                    Devices.initial)).
    right. left. exists [speaker; camera]. split; [reflexivity|].
    intros d [<-|[<-|[]]]; discriminate.
Defined.

(** Between the two events of the modal.  Once the modal has been shown,
    a click on the button hides it and takes the change and click
    handlers off; when it is hidden, the promise is fulfilled with the
    value of the select, and the cached track of the kind is stopped and
    taken out of the cache. *)
Theorem selection_applied (f : Selection.Flow) :
  Selection.onShow f = true ->
  Selection.onHide f = true ->
  Selection.result f = Selection.Waiting ->
  let f' := Selection.run [Selection.Shown; Selection.ApplyClick; Selection.Hidden] f in
  Selection.result f' = Selection.Selected (Selection.val f)
  ∧ Selection.visible f' = false
  ∧ Selection.onShow f' = false ∧ Selection.onHide f' = false
  ∧ Selection.setDevice f' = false ∧ Selection.onApply f' = false
  ∧ Devices.cached (Selection.flow_kind f) (Selection.capture f') = None
  ∧ (forall t, Devices.cached (Selection.flow_kind f) (Selection.capture f) = Some t ->
               ¬ In t (Devices.live (Selection.capture f'))).
Proof.
  intros Hs Hh Hr. simpl. unfold Selection.shown. rewrite Hs.
  unfold Selection.apply_click. simpl. unfold Selection.hidden. simpl. rewrite Hh, Hr.
  simpl. repeat split.
  - unfold Devices.onHide.
    destruct (Devices.cached (Selection.flow_kind f) (Selection.capture f)) eqn:Hc;
      [apply cached_insert_eq|exact Hc].
  - intros t Hc. unfold Devices.onHide. rewrite Hc. cbn [Devices.live].
    intros Hin. apply live_stop in Hin. tauto.
Qed.

Lemma selection_applied_witness :
  let camera := {| Selection.deviceId := "camera-1"; Selection.device_kind := "videoinput";
                   Selection.label := "" |} in
  let f := Selection.selectMedia Demo.desktop "video" (Selection.Enumerated [camera])
                                 (Devices.Created 1) Devices.initial in
  Selection.onShow f = true
  ∧ Selection.onHide f = true
  ∧ Selection.result f = Selection.Waiting
  ∧ Selection.result
      (Selection.run [Selection.Shown; Selection.ApplyClick; Selection.Hidden] f)
    = Selection.Selected (Some "camera-1"%string).
Proof.
  intros camera f.
  split; [reflexivity|]. split; [reflexivity|]. split; [reflexivity|].
  exact (proj1 (selection_applied f eq_refl eq_refl eq_refl)).
Defined.

Lemma closed_step (f : Selection.Flow) (e : Selection.Event) :
  Selection.onHide f = false ->
  (forall d c, e ≠ Selection.Settle d c) ->
  Selection.capture (Selection.step f e) = Selection.capture f
  ∧ Selection.onHide (Selection.step f e) = false.
Proof.
  intros Hh He. destruct e as [|d|d c| |]; simpl.
  - unfold Selection.shown. destruct (Selection.onShow f); simpl; auto.
  - auto.
  - exfalso. apply (He d c). reflexivity.
  - unfold Selection.apply_click. destruct (Selection.onApply f); simpl; auto.
  - unfold Selection.hidden. rewrite Hh. auto.
Qed.

(** A capture that settles after the modal has been closed.  The change
    handler asks for a capture and forgets the request; when the request
    settles after the [hidden] handler has run, the new track is cached
    and capturing, and no handler of the flow is left to stop it:
    whatever happens to the modal afterwards, short of another request
    settling, the track keeps capturing. *)
Theorem capture_settling_after_close
    (f : Selection.Flow) (device : string) (ref : nat) (es : list Selection.Event) :
  let new := {| Devices.lt_ref := ref; Devices.lt_kind := Selection.flow_kind f |} in
  Selection.onHide f = false ->
  device ∈ Selection.requests f ->
  Devices.cached (Selection.flow_kind f) (Selection.capture f) ≠ Some new ->
  Forall (fun e => forall d c, e ≠ Selection.Settle d c) es ->
  let f' := Selection.run es (Selection.settle device (Devices.Created ref) f) in
  Devices.cached (Selection.flow_kind f) (Selection.capture f') = Some new
  ∧ In new (Devices.live (Selection.capture f')).
Proof.
  intros new Hh Hd Hnew Hes f'.
  set (f0 := Selection.settle device (Devices.Created ref) f).
  assert (H0 : Selection.onHide f0 = false
               ∧ Devices.cached (Selection.flow_kind f) (Selection.capture f0) = Some new
               ∧ In new (Devices.live (Selection.capture f0))).
  { subst f0. unfold Selection.settle.
    rewrite bool_decide_eq_true_2 by exact Hd. simpl.
    split; [exact Hh|].
    unfold Devices.applyInputDevice_then.
    split; [apply cached_insert_eq|].
    assert (Hc' : Devices.cached (Selection.flow_kind f)
              {| Devices.localTracks := Devices.localTracks (Selection.capture f);
                 Devices.live := new :: Devices.live (Selection.capture f);
                 Devices.rendered := Devices.rendered (Selection.capture f) |}
            = Devices.cached (Selection.flow_kind f) (Selection.capture f))
      by reflexivity.
    fold new. rewrite Hc'.
    destruct (Devices.cached (Selection.flow_kind f) (Selection.capture f)) as [prev|] eqn:Hc;
      cbn [Devices.live]; [|left; reflexivity].
    apply live_stop. split; [left; reflexivity|]. congruence. }
  assert (Hkeep : Selection.capture f' = Selection.capture f0).
  { subst f'. fold f0. destruct H0 as [Hh0 _]. revert Hh0. generalize f0 as g.
    induction Hes as [|e es He Hes IH]; intros g Hg; simpl; [reflexivity|].
    destruct (closed_step g e Hg He) as [Hc Hh']. rewrite IH by exact Hh'. exact Hc. }
  rewrite Hkeep. destruct H0 as (_ & H1 & H2). split; assumption.
Qed.

(** The user picks another camera, clicks the button at once, and the
    capture of the new camera settles when the modal has been hidden. *)
Lemma capture_settling_after_close_witness :
  let camera := {| Selection.deviceId := "camera-1"; Selection.device_kind := "videoinput";
                   Selection.label := "" |} in
  let f := Selection.run [Selection.Shown; Selection.Change "camera-2";
                          Selection.ApplyClick; Selection.Hidden]
             (Selection.selectMedia Demo.desktop "video" (Selection.Enumerated [camera])
                                    (Devices.Created 1) Devices.initial) in
  let new := {| Devices.lt_ref := 2; Devices.lt_kind := "video" |} in
  let f' := Selection.run [Selection.Shown; Selection.ApplyClick; Selection.Hidden]
              (Selection.settle "camera-2" (Devices.Created 2) f) in
  Selection.result f = Selection.Selected (Some "camera-2"%string)
  ∧ Devices.live (Selection.capture f) = []
  ∧ Selection.onHide f = false
  ∧ Devices.cached "video" (Selection.capture f') = Some new
  ∧ In new (Devices.live (Selection.capture f')).
Proof.
  intros camera f new f'.
  assert (Hr : Selection.requests f = ["camera-2"%string]) by (vm_compute; reflexivity).
  assert (Hd : "camera-2"%string ∈ Selection.requests f) by (rewrite Hr; left).
  assert (Hc : Devices.cached (Selection.flow_kind f) (Selection.capture f) ≠ Some new)
    by (vm_compute; discriminate).
  assert (Hes : Forall (fun e => forall d c, e ≠ Selection.Settle d c)
                       [Selection.Shown; Selection.ApplyClick; Selection.Hidden])
    by (repeat constructor; discriminate).
  split; [vm_compute; reflexivity|]. split; [vm_compute; reflexivity|].
  split; [reflexivity|].
  exact (capture_settling_after_close f "camera-2" 2 _ eq_refl Hd Hc Hes).
Defined.
